(** * Customer Support Helper API: a shallow embedding of [main.py]

    The service keeps two module-level dictionaries ([faq_database] and
    [support_tickets_db]) and exposes four request handlers.  The embedding
    follows the source function by function:

    - a Python [str] is a [string] whose characters are the code points
      U+0000 .. U+00FF; [str.lower], [str.upper] and the character classes
      of the [re] module are tabulated on that range;
    - the two regular expressions of [recognize_intent_and_extract_entities]
      are terms of a small pattern type run by a backtracking matcher with
      the priorities of [re] (leftmost start, alternatives left to right,
      greedy repetition);
    - the order id that the recognizer extracts depends on code points
      beyond U+00FF, so the recognizer is modelled a second time, in module
      [Unicode], on a [str] that is the list of its code points, whatever
      they are; the statements about the order id are made there;
    - the module-level dictionaries form an explicit [state] that every
      handler receives and returns;
    - [uuid.uuid4()] and [datetime.utcnow()] are inputs of [submit_ticket];
      the polarity computed by TextBlob is a function parameter, and the
      polarity itself is a binary64 float compared as Python compares it. *)

From Stdlib Require Import Ascii String List NArith Lia Floats.
From stdpp Require Import gmap strings.

(** ** Code points and character classes *)

Module Chars.

Definition code (c : ascii) : N := N_of_ascii c.

Definition in_range (lo hi : N) (c : ascii) : bool :=
  ((lo <=? code c) && (code c <=? hi))%N.

Definition is_code (n : N) (c : ascii) : bool := (code c =? n)%N.

Definition is_ascii_upper : ascii -> bool := in_range 0x41 0x5A.
Definition is_ascii_lower : ascii -> bool := in_range 0x61 0x7A.
Definition is_ascii_digit : ascii -> bool := in_range 0x30 0x39.

Definition is_ascii_alnum (c : ascii) : bool :=
  is_ascii_upper c || is_ascii_lower c || is_ascii_digit c.

(** [str.lower] on one code point: A-Z and the Latin-1 capitals
    U+00C0 .. U+00DE (the multiplication sign U+00D7 apart). *)
Definition lower_char (c : ascii) : ascii :=
  if is_ascii_upper c || (in_range 0xC0 0xDE c && negb (is_code 0xD7 c))
  then ascii_of_N (code c + 32) else c.

(** [str.upper] on one code point.  U+00B5, U+00DF and U+00FF have upper
    cases outside U+0000 .. U+00FF and are left as they are; the source
    upper-cases the second capture group only, which holds none of them
    (lemma [track_token_alnum]). *)
Definition upper_char (c : ascii) : ascii :=
  if is_ascii_lower c || (in_range 0xE0 0xFE c && negb (is_code 0xF7 c))
  then ascii_of_N (code c - 32) else c.

(** The class [\s] of a [str] pattern. *)
Definition is_space (c : ascii) : bool :=
  in_range 0x09 0x0D c || in_range 0x1C 0x20 c
  || is_code 0x85 c || is_code 0xA0 c.

(** The class [\w] of a [str] pattern, which decides [\b]. *)
Definition is_word (c : ascii) : bool :=
  is_ascii_alnum c || is_code 0x5F c
  || is_code 0xAA c || in_range 0xB2 0xB3 c || is_code 0xB5 c
  || in_range 0xB9 0xBA c || in_range 0xBC 0xBE c
  || in_range 0xC0 0xD6 c || in_range 0xD8 0xF6 c || in_range 0xF8 0xFF c.

(** The set [[A-Z0-9]] as written in the pattern. *)
Definition class_AZ09 (c : ascii) : bool := is_ascii_upper c || is_ascii_digit c.

(** A set or a literal under [re.IGNORECASE]: a character belongs to it
    when it or one of its two case variants does. *)
Definition ignorecase (cls : ascii -> bool) (c : ascii) : bool :=
  cls c || cls (lower_char c) || cls (upper_char c).

(** A test that holds of each of the 256 code points. *)
Definition both (f : bool -> bool) : bool := f true && f false.

Definition all_ascii (p : ascii -> bool) : bool :=
  both (fun b0 => both (fun b1 => both (fun b2 => both (fun b3 =>
  both (fun b4 => both (fun b5 => both (fun b6 => both (fun b7 =>
    p (Ascii b0 b1 b2 b3 b4 b5 b6 b7))))))))).

(** The characters of the literals of the two patterns. *)
Definition is_lower_or_blank (c : ascii) : bool :=
  is_ascii_lower c || is_code 0x20 c.

End Chars.

(** ** Strings *)

Module Str.
Import Chars.

Fixpoint map (f : ascii -> ascii) (s : string) : string :=
  match s with
  | EmptyString => EmptyString
  | String c s' => String (f c) (map f s')
  end.

Definition lower : string -> string := map lower_char.
Definition upper : string -> string := map upper_char.

Fixpoint forallb (p : ascii -> bool) (s : string) : bool :=
  match s with
  | EmptyString => true
  | String c s' => p c && forallb p s'
  end.

Definition head (s : string) : option ascii :=
  match s with
  | EmptyString => None
  | String c _ => Some c
  end.

Fixpoint last (d : option ascii) (s : string) : option ascii :=
  match s with
  | EmptyString => d
  | String c s' => last (Some c) s'
  end.

Fixpoint take (n : nat) (s : string) : string :=
  match n, s with
  | S n', String c s' => String c (take n' s')
  | _, _ => EmptyString
  end.

Fixpoint drop (n : nat) (s : string) : string :=
  match n, s with
  | S n', String _ s' => drop n' s'
  | _, _ => s
  end.

(** [needle in s]: some suffix of [s] starts with [needle]. *)
Fixpoint contains (s needle : string) : bool :=
  String.prefix needle s
  || match s with
     | EmptyString => false
     | String _ s' => contains s' needle
     end.

(** The longest prefix of [s] made of characters of [p], and what follows. *)
Fixpoint span (p : ascii -> bool) (s : string) : string * string :=
  match s with
  | EmptyString => (EmptyString, EmptyString)
  | String c s' =>
      if p c then let '(a, b) := span p s' in (String c a, b)
      else (EmptyString, s)
  end.

(** Whether the first character, if there is one, is outside [p]. *)
Definition stops (p : ascii -> bool) (s : string) : Prop :=
  match head s with
  | Some c => p c = false
  | None => True
  end.

End Str.

(** ** The fragment of [re] the source uses *)

Module Re.
Import Chars.

Inductive regex : Type :=
| Eps
| Chr (p : ascii -> bool)            (* one character of a set *)
| Cat (r1 r2 : regex)
| Alt (r1 r2 : regex)                (* [r1|r2], [r1] tried first *)
| Rep (min : nat) (p : ascii -> bool) (* greedy [p*] (min 0), [p+] (min 1) *)
| Grp (n : nat) (r : regex)          (* capturing group number [n] *)
| Bnd.                               (* [\b] *)

(** The position of the matcher: the character just before it, if any,
    and the text still ahead. *)
Record cursor : Type := Cursor { prev : option ascii; rest : string }.

Definition groups : Type := list (nat * string).

Definition word_at (o : option ascii) : bool :=
  match o with
  | Some c => is_word c
  | None => false
  end.

Definition at_boundary (cur : cursor) : bool :=
  xorb (word_at (prev cur)) (word_at (Str.head (rest cur))).

(** The text between two positions of the same subject. *)
Definition taken (from to : string) : string :=
  Str.take (String.length from - String.length to) from.

(** Greedy repetition of a one-character set: take as many as possible,
    and give characters back one at a time while the rest of the pattern
    [k] fails. *)
Fixpoint repeat {A : Type} (p : ascii -> bool) (k : cursor -> option A)
    (min : nat) (pv : option ascii) (s : string) : option A :=
  let stop := match min with O => k (Cursor pv s) | S _ => None end in
  match s with
  | EmptyString => stop
  | String c s' =>
      if p c then
        match repeat p k (Nat.pred min) (Some c) s' with
        | Some x => Some x
        | None => stop
        end
      else stop
  end.

(** The backtracking matcher, in continuation-passing style: [k] is the
    rest of the pattern, and [None] makes the matcher try its next choice. *)
Fixpoint run {A : Type} (r : regex) (cur : cursor) (g : groups)
    (k : cursor -> groups -> option A) : option A :=
  match r with
  | Eps => k cur g
  | Chr p =>
      match rest cur with
      | EmptyString => None
      | String c s' => if p c then k (Cursor (Some c) s') g else None
      end
  | Cat r1 r2 => run r1 cur g (fun cur' g' => run r2 cur' g' k)
  | Alt r1 r2 =>
      match run r1 cur g k with
      | Some x => Some x
      | None => run r2 cur g k
      end
  | Rep min p => repeat p (fun cur' => k cur' g) min (prev cur) (rest cur)
  | Grp n r1 =>
      run r1 cur g
        (fun cur' g' => k cur' ((n, taken (rest cur) (rest cur')) :: g'))
  | Bnd => if at_boundary cur then k cur g else None
  end.

(** The continuation at the end of a pattern. *)
Definition accept (cur : cursor) (g : groups) : option groups := Some g.

Definition match_at (r : regex) (cur : cursor) : option groups :=
  run r cur [] accept.

(** [re.search]: the first start position, left to right, at which the
    pattern matches; the end of the subject is a start position too. *)
Fixpoint search_from (r : regex) (pv : option ascii) (s : string)
    : option groups :=
  match match_at r (Cursor pv s) with
  | Some g => Some g
  | None =>
      match s with
      | EmptyString => None
      | String c s' => search_from r (Some c) s'
      end
  end.

Definition search (r : regex) (s : string) : option groups :=
  search_from r None s.

(** [m.group(n)] *)
Fixpoint group (n : nat) (g : groups) : option string :=
  match g with
  | [] => None
  | (i, s) :: g' => if Nat.eqb i n then Some s else group n g'
  end.

(** A literal character, matched exactly or under [re.IGNORECASE]. *)
Definition literal (ci : bool) (c : ascii) : ascii -> bool :=
  if ci then ignorecase (Ascii.eqb c) else Ascii.eqb c.

(** A literal string. *)
Fixpoint str (ci : bool) (w : string) : regex :=
  match w with
  | EmptyString => Eps
  | String c w' => Cat (Chr (literal ci c)) (str ci w')
  end.

(** [r"(track|status of|where is) my order\s*([A-Z0-9]+)"] with
    [re.IGNORECASE]: the first group, then what follows it. *)
Definition track_tail : regex :=
  Cat (str true " my order")
 (Cat (Rep 0 is_space)
      (Grp 2 (Rep 1 (ignorecase class_AZ09)))).

Definition track_order_re : regex :=
  Cat (Grp 1 (Alt (str true "track")
             (Alt (str true "status of") (str true "where is"))))
      track_tail.

(** [r"\b(hello|hi|hey|good morning|good afternoon)\b"] *)
Definition greeting_re : regex :=
  Cat Bnd
 (Cat (Grp 1 (Alt (str false "hello")
             (Alt (str false "hi")
             (Alt (str false "hey")
             (Alt (str false "good morning") (str false "good afternoon"))))))
      Bnd).

(** *** Direct readings of the two patterns, used to reason about [run] *)

(** [s] starts with the literal [w]. *)
Fixpoint starts_with (ci : bool) (w s : string) : bool :=
  match w, s with
  | EmptyString, _ => true
  | String _ _, EmptyString => false
  | String c w', String x s' => literal ci c x && starts_with ci w' s'
  end.

(** The position [n] characters further. *)
Definition advance (n : nat) (cur : cursor) : cursor :=
  Cursor (Str.last (prev cur) (Str.take n (rest cur))) (Str.drop n (rest cur)).

(** What [\s*([A-Z0-9]+)] captures at the start of [s]. *)
Definition token_at (s : string) : option string :=
  let tok := (Str.span (ignorecase class_AZ09) (Str.span is_space s).2).1 in
  match tok with
  | EmptyString => None
  | String _ _ => Some tok
  end.

(** What the track-order pattern captures at the start of [s] when its
    first group is the alternative [verb]. *)
Definition phrase_token (verb s : string) : option (string * string) :=
  if starts_with true verb s
     && starts_with true " my order" (Str.drop (String.length verb) s)
  then option_map (pair (Str.take (String.length verb) s))
         (token_at (Str.drop (String.length verb + 9) s))
  else None.

(** What the track-order pattern captures at the start of [s]: its
    alternatives in their order. *)
Definition track_at (s : string) : option (string * string) :=
  match phrase_token "track" s with
  | Some x => Some x
  | None =>
      match phrase_token "status of" s with
      | Some x => Some x
      | None => phrase_token "where is" s
      end
  end.

End Re.

(** ** Data: the dictionaries and the Pydantic models *)

(** A value of [faq_database]. *)
Module FaqItem.
Record t : Type := Make
  { keywords : list string; question : string; answer : string }.
End FaqItem.

(** The dictionary [new_ticket] that [submit_ticket] stores. *)
Module Ticket.
Record t : Type := Make
  { ticket_id : string; user_email : string; issue_description : string;
    status : string; sentiment : string; timestamp : string }.
End Ticket.

Module FAQQuery.
Record t : Type := Make { query : string }.
End FAQQuery.

Module FAQResponse.
Record t : Type := Make { matched_question : option string; answer : string }.
End FAQResponse.

Module TicketInput.
Record t : Type := Make { user_email : string; issue_description : string }.
End TicketInput.

Module TicketResponse.
Record t : Type := Make
  { ticket_id : string; user_email : string; issue_description : string;
    status : string; sentiment : string; timestamp : string }.

(** The response model built from the keys of the dictionary [d]. *)
Definition of_dict (d : Ticket.t) : t :=
  {| ticket_id := Ticket.ticket_id d;
     user_email := Ticket.user_email d;
     issue_description := Ticket.issue_description d;
     status := Ticket.status d;
     sentiment := Ticket.sentiment d;
     timestamp := Ticket.timestamp d |}.
End TicketResponse.

Module ActionQuery.
Record t : Type := Make { query : string }.
End ActionQuery.

(** The dictionary returned by [recognize_intent_and_extract_entities]. *)
Module IntentResult.
Record t : Type := Make
  { intent : string; entities : gmap string string; message : string }.
End IntentResult.

Module ActionResponse.
Record t : Type := Make
  { intent : string; entities : gmap string string; message : string }.

(** The response model built from the keys of the dictionary [result]. *)
Definition of_dict (d : IntentResult.t) : t :=
  {| intent := IntentResult.intent d;
     entities := IntentResult.entities d;
     message := IntentResult.message d |}.
End ActionResponse.

(** [faq_database]: insertion order is iteration order, so the dictionary
    is the list of its items. *)
Definition faq_database : list (string * FaqItem.t) :=
  [ ("password_reset",
     {| FaqItem.keywords := ["password"; "reset"; "forgot"; "change account"];
        FaqItem.question := "How do I reset my password?";
        FaqItem.answer := "You can reset your password by visiting the 'Account Settings' page and clicking on 'Forgot Password'. An email will be sent to you with instructions." |});
    ("shipping_info",
     {| FaqItem.keywords := ["shipping"; "delivery"; "track"; "package"; "how long"; "ship"];
        FaqItem.question := "How long does shipping take?";
        FaqItem.answer := "Standard shipping usually takes 3-5 business days. Expedited shipping takes 1-2 business days. You will receive a tracking number once your order ships." |});
    ("return_policy",
     {| FaqItem.keywords := ["return"; "refund"; "exchange"; "policy"];
        FaqItem.question := "What is your return policy?";
        FaqItem.answer := "You can return most new, unopened items within 30 days of delivery for a full refund. We'll also pay the return shipping costs if the return is a result of our error." |});
    ("payment_options",
     {| FaqItem.keywords := ["payment"; "pay"; "credit card"; "paypal"; "options"];
        FaqItem.question := "What payment options do you accept?";
        FaqItem.answer := "We accept Visa, MasterCard, American Express, and PayPal." |}) ].

(** The two module-level dictionaries. *)
Record state : Type := State
  { faq_db : list (string * FaqItem.t);
    support_tickets_db : gmap string Ticket.t }.

Definition initial_state : state :=
  {| faq_db := faq_database; support_tickets_db := ∅ |}.

(** What a request ends in: a response model with its status code, an
    [HTTPException], or the 422 of a request body that fails its model. *)
Inductive response (A : Type) : Type :=
| Ok (status_code : nat) (body : A)
| HTTPException (status_code : nat) (detail : string)
| RequestValidationError.

Arguments Ok {A} status_code body.
Arguments HTTPException {A} status_code detail.
Arguments RequestValidationError {A}.

(** ** Helper functions *)

(** [d[key]] on a dictionary kept as its list of items. *)
Fixpoint dict_get {V : Type} (d : list (string * V)) (key : string) : option V :=
  match d with
  | [] => None
  | (k, v) :: d' => if String.eqb k key then Some v else dict_get d' key
  end.

(** Truth value of a [str]. *)
Definition truthy (s : string) : bool := negb (String.eqb s "").

(** The literals [0.1] and [-0.1] as the binary64 values Python reads. *)
Definition polarity_threshold : float := 0x1.999999999999ap-4%float.

Section Sentiment.
(** [TextBlob(text).sentiment.polarity] *)
Variable polarity : string -> float.

Definition get_sentiment (text : string) : string :=
  let polarity := polarity text in
  if PrimFloat.ltb polarity_threshold polarity then "positive"
  else if PrimFloat.ltb polarity (PrimFloat.opp polarity_threshold) then "negative"
  else "neutral".
End Sentiment.

(** The inner loop of [find_faq_answer]. *)
Definition keyword_score (user_query_lower : string) (keywords : list string) : nat :=
  fold_left
    (fun current_score keyword =>
       if Str.contains user_query_lower keyword then current_score + 1
       else current_score)
    keywords 0.

(** One turn of the outer loop, on [(best_match_score, best_faq_id)]. *)
Definition faq_loop_body (user_query_lower : string)
    (best : nat * option string) (item : string * FaqItem.t) : nat * option string :=
  let current_score := keyword_score user_query_lower (FaqItem.keywords item.2) in
  if best.1 <? current_score then (current_score, Some item.1) else best.

(** [None] is the source's [return None]; the subscript
    [faq_database[best_faq_id]] cannot fail, [best_faq_id] being a key
    (lemma [faq_loop_key]). *)
Definition find_faq_answer (db : list (string * FaqItem.t)) (user_query : string)
    : option FaqItem.t :=
  let user_query_lower := Str.lower user_query in
  let '(best_match_score, best_faq_id) :=
    fold_left (faq_loop_body user_query_lower) db (0, None) in
  match best_faq_id with
  | Some faq_id =>
      if truthy faq_id && (0 <? best_match_score) then dict_get db faq_id else None
  | None => None
  end.

Definition fetching_message (order_id : string) : string :=
  "Fetching status for order " +:+ order_id +:+ "...".

Definition greeting_message : string := "Hello! How can I help you today?".

Definition unknown_message : string :=
  "I'm not sure how to help with that. Can you try rephrasing or ask about FAQs, order tracking, or submitting a ticket?".

(** [m.group(2)] is a string whenever the pattern matched (lemma
    [track_search_group2]); the default is never used. *)
Definition recognize_intent_and_extract_entities (user_query : string) : IntentResult.t :=
  let user_query_lower := Str.lower user_query in
  match Re.search Re.track_order_re user_query with
  | Some track_order_match =>
      let order_id := Str.upper (default "" (Re.group 2 track_order_match)) in
      {| IntentResult.intent := "track_order";
         IntentResult.entities := {[ "order_id" := order_id ]};
         IntentResult.message := fetching_message order_id |}
  | None =>
      match Re.search Re.greeting_re user_query_lower with
      | Some _ =>
          {| IntentResult.intent := "greeting";
             IntentResult.entities := ∅;
             IntentResult.message := greeting_message |}
      | None =>
          {| IntentResult.intent := "unknown";
             IntentResult.entities := ∅;
             IntentResult.message := unknown_message |}
      end
  end.

(** ** Request bodies and their models

    A request body is the decoded JSON object, each field absent or a
    string.  FastAPI builds the handler's argument from it and answers 422
    when a required field ([Field(...)]) is absent or a [min_length] is not
    met, before the handler is called. *)

Definition validate_FAQQuery (body : gmap string string) : option FAQQuery.t :=
  match body !! "query" with
  | Some query =>
      if 3 <=? String.length query then Some {| FAQQuery.query := query |}
      else None
  | None => None
  end.

Definition validate_TicketInput (body : gmap string string) : option TicketInput.t :=
  match body !! "user_email", body !! "issue_description" with
  | Some user_email, Some issue_description =>
      if 10 <=? String.length issue_description
      then Some {| TicketInput.user_email := user_email;
                   TicketInput.issue_description := issue_description |}
      else None
  | _, _ => None
  end.

Definition validate_ActionQuery (body : gmap string string) : option ActionQuery.t :=
  match body !! "query" with
  | Some query => Some {| ActionQuery.query := query |}
  | None => None
  end.

(** ** Handlers *)

Definition fallback_answer : string :=
  "I'm sorry, I couldn't find an answer related to your query. Please try rephrasing or check our full FAQ page.".

Definition mocked_message (order_id : string) : string :=
  "Mocked: Order " +:+ order_id
  +:+ " is currently out for delivery. Estimated arrival: Tomorrow.".

(** [str(x)] inside an f-string, for the result of [dict.get]. *)
Definition format_optional (x : option string) : string :=
  match x with
  | Some s => s
  | None => "None"
  end.

Section Handlers.
Variable polarity : string -> float.

Definition get_faq (query : FAQQuery.t) (st : state)
    : response FAQResponse.t * state :=
  match find_faq_answer (faq_db st) (FAQQuery.query query) with
  | Some faq_item =>
      (Ok 200 {| FAQResponse.matched_question := Some (FaqItem.question faq_item);
                 FAQResponse.answer := FaqItem.answer faq_item |}, st)
  | None =>
      (Ok 200 {| FAQResponse.matched_question := None;
                 FAQResponse.answer := fallback_answer |}, st)
  end.

(** [uuid4] is [str(uuid.uuid4())] and [utcnow] is
    [datetime.utcnow().isoformat()], as read by this call. *)
Definition submit_ticket (uuid4 utcnow : string) (ticket_input : TicketInput.t)
    (st : state) : response TicketResponse.t * state :=
  let ticket_id := uuid4 in
  let sentiment := get_sentiment polarity (TicketInput.issue_description ticket_input) in
  let timestamp := utcnow +:+ "Z" in
  let new_ticket :=
    {| Ticket.ticket_id := ticket_id;
       Ticket.user_email := TicketInput.user_email ticket_input;
       Ticket.issue_description := TicketInput.issue_description ticket_input;
       Ticket.status := "submitted";
       Ticket.sentiment := sentiment;
       Ticket.timestamp := timestamp |} in
  (Ok 201 (TicketResponse.of_dict new_ticket),
   {| faq_db := faq_db st;
      support_tickets_db := <[ticket_id := new_ticket]> (support_tickets_db st) |}).

Definition get_ticket_status (ticket_id : string) (st : state)
    : response TicketResponse.t * state :=
  match support_tickets_db st !! ticket_id with
  | None => (HTTPException 404 "Ticket not found", st)
  | Some ticket => (Ok 200 (TicketResponse.of_dict ticket), st)
  end.

Definition perform_action (query : ActionQuery.t) (st : state)
    : response ActionResponse.t * state :=
  let result := recognize_intent_and_extract_entities (ActionQuery.query query) in
  let result :=
    if String.eqb (IntentResult.intent result) "track_order" then
      let order_id := IntentResult.entities result !! "order_id" in
      {| IntentResult.intent := IntentResult.intent result;
         IntentResult.entities := IntentResult.entities result;
         IntentResult.message := mocked_message (format_optional order_id) |}
    else result in
  (Ok 200 (ActionResponse.of_dict result), st).

(** ** Endpoints: the model of the body, then the handler *)

Definition post_support_faq (body : gmap string string) (st : state)
    : response FAQResponse.t * state :=
  match validate_FAQQuery body with
  | Some query => get_faq query st
  | None => (RequestValidationError, st)
  end.

Definition post_support_ticket (uuid4 utcnow : string)
    (body : gmap string string) (st : state)
    : response TicketResponse.t * state :=
  match validate_TicketInput body with
  | Some ticket_input => submit_ticket uuid4 utcnow ticket_input st
  | None => (RequestValidationError, st)
  end.

Definition get_support_tickets (ticket_id : string) (st : state)
    : response TicketResponse.t * state :=
  get_ticket_status ticket_id st.

Definition post_support_action (body : gmap string string) (st : state)
    : response ActionResponse.t * state :=
  match validate_ActionQuery body with
  | Some query => perform_action query st
  | None => (RequestValidationError, st)
  end.

(** ** The service as a transition system *)

Inductive request : Type :=
| PostFaq (body : gmap string string)
| PostTicket (uuid4 utcnow : string) (body : gmap string string)
| GetTicket (ticket_id : string)
| PostAction (body : gmap string string).

Definition step (st : state) (req : request) : state :=
  match req with
  | PostFaq body => (post_support_faq body st).2
  | PostTicket uuid4 utcnow body => (post_support_ticket uuid4 utcnow body st).2
  | GetTicket ticket_id => (get_support_tickets ticket_id st).2
  | PostAction body => (post_support_action body st).2
  end.

Definition exec (reqs : list request) (st : state) : state :=
  fold_left step reqs st.

(** The record a submission writes, when its body passes the model. *)
Definition ticket_of (req : request) : option Ticket.t :=
  match req with
  | PostTicket uuid4 utcnow body =>
      match validate_TicketInput body with
      | Some ticket_input =>
          Some {| Ticket.ticket_id := uuid4;
                  Ticket.user_email := TicketInput.user_email ticket_input;
                  Ticket.issue_description := TicketInput.issue_description ticket_input;
                  Ticket.status := "submitted";
                  Ticket.sentiment :=
                    get_sentiment polarity (TicketInput.issue_description ticket_input);
                  Ticket.timestamp := utcnow +:+ "Z" |}
      | None => None
      end
  | _ => None
  end.

(** The number of insertions under [ticket_id] during a run. *)
Definition insertions (ticket_id : string) (reqs : list request) : nat :=
  List.length
    (List.filter
       (fun req =>
          match ticket_of req with
          | Some t => String.eqb (Ticket.ticket_id t) ticket_id
          | None => false
          end)
       reqs).

(** [uuid.uuid4()] returns an identifier that is not a key of the store
    yet: at each submission of the run the identifier drawn is new. *)
Fixpoint fresh_identifiers (reqs : list request) (st : state) : Prop :=
  match reqs with
  | [] => True
  | req :: reqs' =>
      match req with
      | PostTicket uuid4 _ _ => support_tickets_db st !! uuid4 = None
      | _ => True
      end
      /\ fresh_identifiers reqs' (step st req)
  end.

End Handlers.

(** ** Vocabulary of the properties *)

(** [needle] occurs in [s]. *)
Definition is_substring (needle s : string) : Prop :=
  exists pre post, s = pre +:+ needle +:+ post.

(** The phrases of the track-order pattern, in lower case. *)
Definition track_phrases : list string :=
  ["track my order"; "status of my order"; "where is my order"].

Definition greeting_words : list string :=
  ["hello"; "hi"; "hey"; "good morning"; "good afternoon"].

(** In [q], after [pre], stands a phrase [ph] (one of [track_phrases] up to
    case), then the white space [ws], then the alphanumeric run [tok], which
    is not empty and ends where [post] begins. *)
Definition track_occurrence (q pre ph ws tok post : string) : Prop :=
  q = pre +:+ ph +:+ ws +:+ tok +:+ post
  /\ In (Str.lower ph) track_phrases
  /\ Str.forallb Chars.is_space ws = true
  /\ tok <> ""
  /\ Str.forallb Chars.is_ascii_alnum tok = true
  /\ Str.stops Chars.is_ascii_alnum post.

Definition has_track_occurrence (q : string) : Prop :=
  exists pre ph ws tok post, track_occurrence q pre ph ws tok post.

(** No occurrence starts before the one after [pre]. *)
Definition first_track_occurrence (q pre ph ws tok post : string) : Prop :=
  track_occurrence q pre ph ws tok post
  /\ forall pre' ph' ws' tok' post',
       track_occurrence q pre' ph' ws' tok' post' ->
       String.length pre <= String.length pre'.

(** In [q], after [pre], stands [w], one of [greeting_words] up to case, as
    a whole word: no word character just before it or just after it. *)
Definition greeting_occurrence (q pre w post : string) : Prop :=
  q = pre +:+ w +:+ post
  /\ In (Str.lower w) greeting_words
  /\ Re.word_at (Str.last None pre) = false
  /\ Re.word_at (Str.head post) = false.

Definition has_greeting_occurrence (q : string) : Prop :=
  exists pre w post, greeting_occurrence q pre w post.

(** A direct reading of the greeting pattern at one position: a word
    boundary, one of the words, a word boundary. *)
Definition greeting_word_at (cur : Re.cursor) (w : string) : bool :=
  Re.starts_with false w (Re.rest cur)
  && Re.at_boundary (Re.advance (String.length w) cur).

Definition greeting_at (cur : Re.cursor) : bool :=
  Re.at_boundary cur && existsb (greeting_word_at cur) greeting_words.

(** The value of [current_score] after the inner loop on an item. *)
Definition entry_score (user_query_lower : string) (e : string * FaqItem.t) : nat :=
  keyword_score user_query_lower (FaqItem.keywords e.2).

(** The score the matcher gives an entry. *)
Definition faq_score (q : string) (item : FaqItem.t) : nat :=
  List.length (List.filter (Str.contains (Str.lower q)) (FaqItem.keywords item)).

(** The response of [get_faq] for a result of the matcher. *)
Definition faq_response (found : option FaqItem.t) : FAQResponse.t :=
  match found with
  | Some faq_item =>
      {| FAQResponse.matched_question := Some (FaqItem.question faq_item);
         FAQResponse.answer := FaqItem.answer faq_item |}
  | None =>
      {| FAQResponse.matched_question := None;
         FAQResponse.answer := fallback_answer |}
  end.

(** The three results of the recognizer. *)
Definition track_result (order_id : string) : IntentResult.t :=
  {| IntentResult.intent := "track_order";
     IntentResult.entities := {[ "order_id" := order_id ]};
     IntentResult.message := fetching_message order_id |}.

Definition greeting_result : IntentResult.t :=
  {| IntentResult.intent := "greeting";
     IntentResult.entities := ∅;
     IntentResult.message := greeting_message |}.

Definition unknown_result : IntentResult.t :=
  {| IntentResult.intent := "unknown";
     IntentResult.entities := ∅;
     IntentResult.message := unknown_message |}.

(** ** The intent recognizer over all code points

    The track-order pattern is compiled with [re.IGNORECASE], under which
    four code points beyond U+00FF stand for ASCII letters (U+0130 and
    U+0131 for i, U+017F for s, U+212A for k), and [\s] takes white space
    beyond U+00FF; both the phrase and the order token of a query can hold
    them.  This module models [recognize_intent_and_extract_entities] on a
    [str] that is the list of its code points, with no bound on them.  The
    tables are those of [re] and [str] for the characters the patterns
    name; [str.lower] and the class [\w], which only the greeting rule
    uses, are parameters. *)

Module Unicode.

Definition str : Type := list N.

(** A literal of the source, which holds ASCII characters only. *)
Fixpoint of_string (s : string) : str :=
  match s with
  | EmptyString => []
  | String c s' => N_of_ascii c :: of_string s'
  end.

Definition in_range (lo hi c : N) : bool := ((lo <=? c) && (c <=? hi))%N.

Definition is_ascii_upper : N -> bool := in_range 0x41 0x5A.
Definition is_ascii_lower : N -> bool := in_range 0x61 0x7A.
Definition is_ascii_digit : N -> bool := in_range 0x30 0x39.

(** The class [\s] of a [str] pattern. *)
Definition is_space (c : N) : bool :=
  in_range 0x09 0x0D c || in_range 0x1C 0x20 c
  || (c =? 0x85)%N || (c =? 0xA0)%N || (c =? 0x1680)%N
  || in_range 0x2000 0x200A c || in_range 0x2028 0x2029 c
  || (c =? 0x202F)%N || (c =? 0x205F)%N || (c =? 0x3000)%N.

(** What [re.IGNORECASE] compares in place of a code point, for the code
    points it identifies with an ASCII character: a capital A-Z stands for
    its small letter, U+0130 and U+0131 for i, U+017F for s, U+212A for k. *)
Definition fold_char (c : N) : N :=
  if is_ascii_upper c then (c + 32)%N
  else if (c =? 0x130)%N || (c =? 0x131)%N then 0x69%N
  else if (c =? 0x17F)%N then 0x73%N
  else if (c =? 0x212A)%N then 0x6B%N
  else c.

Definition ascii_upper_char (c : N) : N :=
  if is_ascii_lower c then (c - 32)%N else c.

(** The set [[A-Z0-9]] as written in the pattern. *)
Definition class_AZ09 (c : N) : bool := is_ascii_upper c || is_ascii_digit c.

(** A set or a literal of ASCII characters under [re.IGNORECASE]: a code
    point belongs to it when it, what stands for it, or the capital of
    that does. *)
Definition ignorecase (cls : N -> bool) (c : N) : bool :=
  cls c || cls (fold_char c) || cls (ascii_upper_char (fold_char c)).

(** [str.upper] on the code points that the second group of the
    track-order pattern can capture (lemma [track_token_chars]), which are
    the only ones the source upper-cases: a-z become A-Z, U+0131 becomes I,
    U+017F becomes S, and the others, U+0130 and U+212A among them, are
    their own upper case. *)
Definition upper_char (c : N) : N :=
  if is_ascii_lower c then (c - 32)%N
  else if (c =? 0x131)%N then 0x49%N
  else if (c =? 0x17F)%N then 0x53%N
  else c.

Definition upper (s : str) : str := List.map upper_char s.

Fixpoint last_of (d : option N) (s : str) : option N :=
  match s with
  | [] => d
  | c :: s' => last_of (Some c) s'
  end.

(** The longest prefix of [s] made of characters of [p], and what follows. *)
Fixpoint span (p : N -> bool) (s : str) : str * str :=
  match s with
  | [] => ([], [])
  | c :: s' =>
      if p c then let '(a, b) := span p s' in (c :: a, b)
      else ([], s)
  end.

(** Whether the first character, if there is one, is outside [p]. *)
Definition stops (p : N -> bool) (s : str) : Prop :=
  match head s with
  | Some c => p c = false
  | None => True
  end.

(** *** The fragment of [re] the source uses *)

Inductive regex : Type :=
| Eps
| Chr (p : N -> bool)
| Cat (r1 r2 : regex)
| Alt (r1 r2 : regex)
| Rep (min : nat) (p : N -> bool)
| Grp (n : nat) (r : regex)
| Bnd.

Record cursor : Type := Cursor { prev : option N; rest : str }.

Definition groups : Type := list (nat * str).

Definition taken (from to : str) : str :=
  take (List.length from - List.length to) from.

Fixpoint repeat {A : Type} (p : N -> bool) (k : cursor -> option A)
    (min : nat) (pv : option N) (s : str) : option A :=
  let stop := match min with O => k (Cursor pv s) | S _ => None end in
  match s with
  | [] => stop
  | c :: s' =>
      if p c then
        match repeat p k (Nat.pred min) (Some c) s' with
        | Some x => Some x
        | None => stop
        end
      else stop
  end.

Definition accept (cur : cursor) (g : groups) : option groups := Some g.

Fixpoint group (n : nat) (g : groups) : option str :=
  match g with
  | [] => None
  | (i, s) :: g' => if Nat.eqb i n then Some s else group n g'
  end.

Definition literal (ci : bool) (c : N) : N -> bool :=
  if ci then ignorecase (N.eqb c) else N.eqb c.

Fixpoint lit (ci : bool) (w : str) : regex :=
  match w with
  | [] => Eps
  | c :: w' => Cat (Chr (literal ci c)) (lit ci w')
  end.

Definition track_tail : regex :=
  Cat (lit true (of_string " my order"))
 (Cat (Rep 0 is_space)
      (Grp 2 (Rep 1 (ignorecase class_AZ09)))).

Definition track_order_re : regex :=
  Cat (Grp 1 (Alt (lit true (of_string "track"))
             (Alt (lit true (of_string "status of"))
                  (lit true (of_string "where is")))))
      track_tail.

Definition greeting_re : regex :=
  Cat Bnd
 (Cat (Grp 1 (Alt (lit false (of_string "hello"))
             (Alt (lit false (of_string "hi"))
             (Alt (lit false (of_string "hey"))
             (Alt (lit false (of_string "good morning"))
                  (lit false (of_string "good afternoon")))))))
      Bnd).

Section Matcher.
(** The class [\w] of a [str] pattern, which decides [\b]. *)
Variable is_word : N -> bool.

Definition word_at (o : option N) : bool :=
  match o with
  | Some c => is_word c
  | None => false
  end.

Definition at_boundary (cur : cursor) : bool :=
  xorb (word_at (prev cur)) (word_at (head (rest cur))).

Fixpoint run {A : Type} (r : regex) (cur : cursor) (g : groups)
    (k : cursor -> groups -> option A) : option A :=
  match r with
  | Eps => k cur g
  | Chr p =>
      match rest cur with
      | [] => None
      | c :: s' => if p c then k (Cursor (Some c) s') g else None
      end
  | Cat r1 r2 => run r1 cur g (fun cur' g' => run r2 cur' g' k)
  | Alt r1 r2 =>
      match run r1 cur g k with
      | Some x => Some x
      | None => run r2 cur g k
      end
  | Rep min p => repeat p (fun cur' => k cur' g) min (prev cur) (rest cur)
  | Grp n r1 =>
      run r1 cur g
        (fun cur' g' => k cur' ((n, taken (rest cur) (rest cur')) :: g'))
  | Bnd => if at_boundary cur then k cur g else None
  end.

Definition match_at (r : regex) (cur : cursor) : option groups :=
  run r cur [] accept.

Fixpoint search_from (r : regex) (pv : option N) (s : str) : option groups :=
  match match_at r (Cursor pv s) with
  | Some g => Some g
  | None =>
      match s with
      | [] => None
      | c :: s' => search_from r (Some c) s'
      end
  end.

Definition search (r : regex) (s : str) : option groups :=
  search_from r None s.

End Matcher.

(** *** Direct readings of the track-order pattern *)

Fixpoint starts_with (ci : bool) (w s : str) : bool :=
  match w, s with
  | [], _ => true
  | _ :: _, [] => false
  | c :: w', x :: s' => literal ci c x && starts_with ci w' s'
  end.

Definition advance (n : nat) (cur : cursor) : cursor :=
  Cursor (last_of (prev cur) (take n (rest cur))) (drop n (rest cur)).

Definition token_at (s : str) : option str :=
  let tok := (span (ignorecase class_AZ09) (span is_space s).2).1 in
  match tok with
  | [] => None
  | _ :: _ => Some tok
  end.

Definition phrase_token (verb s : str) : option (str * str) :=
  if starts_with true verb s
     && starts_with true (of_string " my order") (drop (List.length verb) s)
  then option_map (pair (take (List.length verb) s))
         (token_at (drop (List.length verb + 9) s))
  else None.

Definition track_at (s : str) : option (str * str) :=
  match phrase_token (of_string "track") s with
  | Some x => Some x
  | None =>
      match phrase_token (of_string "status of") s with
      | Some x => Some x
      | None => phrase_token (of_string "where is") s
      end
  end.

(** *** The recognizer *)

Module IntentResult.
Record t : Type := Make
  { intent : string; entities : gmap string str; message : str }.
End IntentResult.

Definition fetching_message (order_id : str) : str :=
  of_string "Fetching status for order " ++ order_id ++ of_string "...".

Section Recognizer.
(** [str.lower], and the class [\w]. *)
Variable lower : str -> str.
Variable is_word : N -> bool.

Definition recognize_intent_and_extract_entities (user_query : str)
    : IntentResult.t :=
  let user_query_lower := lower user_query in
  match search is_word track_order_re user_query with
  | Some track_order_match =>
      let order_id := upper (default [] (group 2 track_order_match)) in
      {| IntentResult.intent := "track_order";
         IntentResult.entities := {[ "order_id" := order_id ]};
         IntentResult.message := fetching_message order_id |}
  | None =>
      match search is_word greeting_re user_query_lower with
      | Some _ =>
          {| IntentResult.intent := "greeting";
             IntentResult.entities := ∅;
             IntentResult.message := of_string greeting_message |}
      | None =>
          {| IntentResult.intent := "unknown";
             IntentResult.entities := ∅;
             IntentResult.message := of_string unknown_message |}
      end
  end.

End Recognizer.

(** *** Vocabulary of the properties *)

(** The code points that match the pattern character [c], a small ASCII
    letter or a blank, under [re.IGNORECASE]: the letter, its capital, and
    for i, k and s the code points that stand for them. *)
Definition variants (c : N) : list N :=
  if is_ascii_lower c then
    c :: (c - 32)%N
      :: (if (c =? 0x69)%N then [0x130; 0x131]
          else if (c =? 0x6B)%N then [0x212A]
          else if (c =? 0x73)%N then [0x17F]
          else [])%N
  else [c].

(** The characters of the literals of the track-order pattern. *)
Definition is_lower_or_blank (c : N) : bool := is_ascii_lower c || (c =? 0x20)%N.

Definition is_variant (c x : N) : bool := existsb (N.eqb x) (variants c).

(** [u] is the phrase [w] as [re.IGNORECASE] reads it. *)
Fixpoint eq_ignorecase (w u : str) : bool :=
  match w, u with
  | [], [] => true
  | c :: w', x :: u' => is_variant c x && eq_ignorecase w' u'
  | _, _ => false
  end.

Definition track_phrases : list str :=
  [of_string "track my order"; of_string "status of my order";
   of_string "where is my order"].

Definition is_track_phrase (ph : str) : bool :=
  existsb (fun w => eq_ignorecase w ph) track_phrases.

(** The characters of an order token: the ASCII letters and digits and
    the four code points that stand for i, s and k. *)
Definition is_token_char (c : N) : bool :=
  is_ascii_upper c || is_ascii_lower c || is_ascii_digit c
  || (c =? 0x130)%N || (c =? 0x131)%N || (c =? 0x17F)%N || (c =? 0x212A)%N.

(** The characters of an order id: A-Z, 0-9, U+0130 and U+212A. *)
Definition is_order_id_char (c : N) : bool :=
  is_ascii_upper c || is_ascii_digit c || (c =? 0x130)%N || (c =? 0x212A)%N.

(** In [q], after [pre], stands the phrase [ph], then the white space
    [ws], then the run [tok] of token characters, which is not empty and
    ends where [post] begins. *)
Definition track_occurrence (q pre ph ws tok post : str) : Prop :=
  q = pre ++ ph ++ ws ++ tok ++ post
  /\ is_track_phrase ph = true
  /\ forallb is_space ws = true
  /\ tok <> []
  /\ forallb is_token_char tok = true
  /\ stops is_token_char post.

Definition has_track_occurrence (q : str) : Prop :=
  exists pre ph ws tok post, track_occurrence q pre ph ws tok post.

Definition first_track_occurrence (q pre ph ws tok post : str) : Prop :=
  track_occurrence q pre ph ws tok post
  /\ forall pre' ph' ws' tok' post',
       track_occurrence q pre' ph' ws' tok' post' ->
       List.length pre <= List.length pre'.

Definition track_result (order_id : str) : IntentResult.t :=
  {| IntentResult.intent := "track_order";
     IntentResult.entities := {[ "order_id" := order_id ]};
     IntentResult.message := fetching_message order_id |}.

Definition is_ascii_alnum (c : N) : bool :=
  is_ascii_upper c || is_ascii_lower c || is_ascii_digit c.

(** "track my order ab" followed by U+017F, and by U+00E9. *)
Definition long_s_query : str := of_string "track my order ab" ++ [0x17F%N].

Definition e_acute_query : str := of_string "track my order ab" ++ [0xE9%N].

(** "TRAC", U+212A, " MY ORDER", U+2003, "x", U+0131, "7-7". *)
Definition kelvin_query : str :=
  of_string "TRAC" ++ [0x212A%N] ++ of_string " MY ORDER" ++ [0x2003%N]
  ++ [0x78; 0x131; 0x37]%N ++ of_string "-7".

(** The code points below [n], to test a table on all of them. *)
Definition code_points (n : N) : list N :=
  List.map N.of_nat (seq 0 (N.to_nat n)).

(** [str.lower] and [\w] on ASCII text, for the sample queries. *)
Definition ascii_lower (s : str) : str :=
  List.map (fun c => if is_ascii_upper c then (c + 32)%N else c) s.

Definition ascii_word (c : N) : bool :=
  is_ascii_upper c || is_ascii_lower c || is_ascii_digit c || (c =? 0x5F)%N.

End Unicode.

(** ** Sample requests *)

Definition sample_polarity (text : string) : float := 0%float.

Definition sample_body : gmap string string :=
  {[ "user_email" := "user@example.com";
     "issue_description" := "My order is late and I'm very unhappy!" ]}.

Definition sample_input : TicketInput.t :=
  {| TicketInput.user_email := "user@example.com";
     TicketInput.issue_description := "My order is late and I'm very unhappy!" |}.

Definition short_body : gmap string string :=
  {[ "user_email" := "user@example.com"; "issue_description" := "too short" ]}.

Definition sample_run : list request :=
  [ PostTicket "0b8e7a52-5f0c-4c1e-9a55-0d5f5a3c9e01" "2024-05-01T10:00:00.000001" sample_body;
    PostFaq {[ "query" := "I forgot my password" ]};
    PostTicket "7c1d2f90-3a4b-4d6e-8f11-2b3c4d5e6f02" "2024-05-01T10:00:00.000001" short_body;
    PostTicket "7c1d2f90-3a4b-4d6e-8f11-2b3c4d5e6f02" "2024-05-01T10:00:02.500000" sample_body;
    GetTicket "0b8e7a52-5f0c-4c1e-9a55-0d5f5a3c9e01";
    PostAction {[ "query" := "hello there" ]} ].

(** A state whose ticket store holds one record. *)
Definition sample_ticket : Ticket.t :=
  {| Ticket.ticket_id := "0b8e7a52-5f0c-4c1e-9a55-0d5f5a3c9e01";
     Ticket.user_email := "user@example.com";
     Ticket.issue_description := "My order is late and I'm very unhappy!";
     Ticket.status := "submitted";
     Ticket.sentiment := "negative";
     Ticket.timestamp := "2024-05-01T10:00:00.000001Z" |}.

Definition sample_state : state :=
  {| faq_db := faq_database;
     support_tickets_db :=
       {[ "0b8e7a52-5f0c-4c1e-9a55-0d5f5a3c9e01" := sample_ticket ]} |}.

(** Two accepted submissions for which [uuid4] returns the same value. *)
Definition repeated_run : list request :=
  [ PostTicket "id-1" "2024-05-01T10:00:00" sample_body;
    PostTicket "id-1" "2024-05-01T10:00:09" sample_body ].

(** A store whose second entry is filed under the empty key. *)
Definition unnamed_entry_store : list (string * FaqItem.t) :=
  [ ("shipping_info",
     {| FaqItem.keywords := ["shipping"];
        FaqItem.question := "How long does shipping take?";
        FaqItem.answer := "Standard shipping usually takes 3-5 business days." |});
    ("",
     {| FaqItem.keywords := ["shipping"; "cost"];
        FaqItem.question := "What does shipping cost?";
        FaqItem.answer := "Shipping is free." |}) ].

(** ** Vocabulary of the further properties *)

Definition sentiment_labels : list string := ["positive"; "negative"; "neutral"].

(** What [submit_ticket] makes of a record it files under [key]. *)
Definition well_formed_ticket (key : string) (t : Ticket.t) : Prop :=
  Ticket.ticket_id t = key
  /\ Ticket.status t = "submitted"
  /\ In (Ticket.sentiment t) sentiment_labels
  /\ 10 <= String.length (Ticket.issue_description t)
  /\ exists utcnow, Ticket.timestamp t = utcnow +:+ "Z".

(** A submission whose body passes the [TicketInput] model. *)
Definition is_accepted_submission (req : request) : bool :=
  match req with
  | PostTicket _ _ body =>
      match validate_TicketInput body with
      | Some _ => true
      | None => false
      end
  | _ => false
  end.

(** The body of a ticket submission with the two fields given. *)
Definition ticket_body (user_email issue_description : string) : gmap string string :=
  {[ "user_email" := user_email; "issue_description" := issue_description ]}.

(** The order of the three labels, from negative to positive. *)
Definition sentiment_rank (label : string) : nat :=
  if String.eqb label "negative" then 0
  else if String.eqb label "neutral" then 1
  else 2.

Definition is_ascii_letter (c : ascii) : bool :=
  Chars.is_ascii_upper c || Chars.is_ascii_lower c.

(** ** Facts: the sentiment thresholds *)

Lemma threshold_positive :
  exists m e, Prim2SF polarity_threshold = S754_finite false m e.
Proof. eexists _, _. vm_compute. reflexivity. Qed.

Lemma threshold_opp_negative :
  exists m e, Prim2SF (PrimFloat.opp polarity_threshold) = S754_finite true m e.
Proof. eexists _, _. vm_compute. reflexivity. Qed.

(** A score above 0.1 is not below -0.1: the comparison is settled by the
    signs. *)
Lemma above_not_below (p : float) :
  PrimFloat.ltb polarity_threshold p = true ->
  PrimFloat.ltb p (PrimFloat.opp polarity_threshold) = false.
Proof.
  rewrite !ltb_spec.
  destruct threshold_positive as (m1 & e1 & ->).
  destruct threshold_opp_negative as (m2 & e2 & ->).
  unfold SFltb, SFcompare.
  destruct (Prim2SF p) as [s | s | | s m e]; try destruct s; congruence.
Qed.

Lemma get_sentiment_cases (polarity : string -> float) (text : string) :
  let p := polarity text in
  get_sentiment polarity text =
    if PrimFloat.ltb polarity_threshold p then "positive"
    else if PrimFloat.ltb p (PrimFloat.opp polarity_threshold) then "negative"
    else "neutral".
Proof. reflexivity. Qed.

(** C6: the label is "positive" exactly when the polarity is above 0.1,
    "negative" exactly when it is below -0.1 and "neutral" in every other
    case, the two thresholds themselves among them; the label depends on
    the text through its polarity only. *)
Theorem get_sentiment_thresholds (polarity : string -> float) (text : string) :
  (get_sentiment polarity text = "positive"
     <-> PrimFloat.ltb polarity_threshold (polarity text) = true)
  /\ (get_sentiment polarity text = "negative"
     <-> PrimFloat.ltb (polarity text) (PrimFloat.opp polarity_threshold) = true)
  /\ (get_sentiment polarity text = "neutral"
     <-> PrimFloat.ltb polarity_threshold (polarity text) = false
         /\ PrimFloat.ltb (polarity text) (PrimFloat.opp polarity_threshold) = false)
  /\ get_sentiment (fun _ => polarity_threshold) text = "neutral"
  /\ get_sentiment (fun _ => PrimFloat.opp polarity_threshold) text = "neutral"
  /\ (forall text', polarity text' = polarity text ->
        get_sentiment polarity text' = get_sentiment polarity text).
Proof.
  rewrite get_sentiment_cases; cbv zeta.
  pose proof (above_not_below (polarity text)) as Hex.
  destruct (PrimFloat.ltb polarity_threshold (polarity text)) eqn:Hpos;
    [ rewrite (Hex eq_refl)
    | destruct (PrimFloat.ltb (polarity text) (PrimFloat.opp polarity_threshold))
        eqn:Hneg ].
  all: repeat split; try reflexivity; try discriminate; try tauto.
  all: try (intros [? ?]; discriminate).
  all: intros text' Heq; rewrite get_sentiment_cases; cbv zeta;
    rewrite Heq, Hpos; try rewrite Hneg; reflexivity.
Qed.

(** ** Facts: code points *)

Module CharsFacts.
Import Chars.

Lemma both_spec (f : bool -> bool) : both f = true -> forall b, f b = true.
Proof.
  unfold both. intros H b. apply andb_prop in H. destruct H, b; assumption.
Qed.

Lemma all_ascii_spec (p : ascii -> bool) :
  all_ascii p = true -> forall c, p c = true.
Proof.
  intros H [b0 b1 b2 b3 b4 b5 b6 b7]. unfold all_ascii in H.
  pose proof (both_spec _ H b0) as H0; cbv beta in H0.
  pose proof (both_spec _ H0 b1) as H1; cbv beta in H1.
  pose proof (both_spec _ H1 b2) as H2; cbv beta in H2.
  pose proof (both_spec _ H2 b3) as H3; cbv beta in H3.
  pose proof (both_spec _ H3 b4) as H4; cbv beta in H4.
  pose proof (both_spec _ H4 b5) as H5; cbv beta in H5.
  pose proof (both_spec _ H5 b6) as H6; cbv beta in H6.
  exact (both_spec _ H6 b7).
Qed.

(** Under [re.IGNORECASE] a lower-case letter or a blank of the pattern
    matches the characters whose lower case it is. *)
Lemma literal_ignorecase (c : ascii) :
  is_lower_or_blank c = true ->
  forall x, ignorecase (Ascii.eqb c) x = Ascii.eqb (lower_char x) c.
Proof.
  revert c.
  assert (H : forall c,
             implb (is_lower_or_blank c)
               (all_ascii (fun x =>
                  Bool.eqb (ignorecase (Ascii.eqb c) x) (Ascii.eqb (lower_char x) c)))
             = true).
  { apply all_ascii_spec. vm_compute. reflexivity. }
  intros c Hc x. specialize (H c). rewrite Hc in H. simpl in H.
  apply Bool.eqb_prop. exact (all_ascii_spec _ H x).
Qed.

(** [[A-Z0-9]] under [re.IGNORECASE] is the ASCII letters and digits. *)
Lemma class_AZ09_ignorecase (x : ascii) :
  ignorecase class_AZ09 x = is_ascii_alnum x.
Proof.
  apply Bool.eqb_prop. revert x. apply all_ascii_spec. vm_compute. reflexivity.
Qed.

Lemma space_not_alnum (x : ascii) : is_space x = true -> is_ascii_alnum x = false.
Proof.
  assert (H : forall x, implb (is_space x) (negb (is_ascii_alnum x)) = true).
  { apply all_ascii_spec. vm_compute. reflexivity. }
  intros Hx. specialize (H x). rewrite Hx in H. simpl in H.
  now apply Bool.negb_true_iff.
Qed.

Lemma is_word_lower (x : ascii) : is_word (lower_char x) = is_word x.
Proof.
  apply Bool.eqb_prop. revert x. apply all_ascii_spec. vm_compute. reflexivity.
Qed.

Lemma lower_is_word (x : ascii) : is_ascii_lower x = true -> is_word x = true.
Proof.
  assert (H : forall x, implb (is_ascii_lower x) (is_word x) = true).
  { apply all_ascii_spec. vm_compute. reflexivity. }
  intros Hx. specialize (H x). rewrite Hx in H. exact H.
Qed.

Lemma lower_char_idem (x : ascii) : lower_char (lower_char x) = lower_char x.
Proof.
  apply Ascii.eqb_eq. revert x. apply all_ascii_spec. vm_compute. reflexivity.
Qed.

End CharsFacts.

(** ** Facts: strings *)

Module StrFacts.
Import Chars.

Lemma app_nil_l (s : string) : "" +:+ s = s.
Proof. reflexivity. Qed.

Lemma app_cons (c : ascii) (a b : string) : String c a +:+ b = String c (a +:+ b).
Proof. reflexivity. Qed.

(** [simpl] with the two equations of [+:+], which stdpp keeps folded. *)
Ltac ssimpl :=
  repeat (progress (rewrite ?app_cons, ?app_nil_l in *; simpl in *)).

Lemma app_nil_r (s : string) : s +:+ "" = s.
Proof. induction s as [|c s IH]; ssimpl; [reflexivity | now rewrite IH]. Qed.

Lemma app_assoc (a b c : string) : (a +:+ b) +:+ c = a +:+ (b +:+ c).
Proof. induction a as [|x a IH]; ssimpl; [reflexivity | now rewrite IH]. Qed.

Lemma length_app (a b : string) :
  String.length (a +:+ b) = String.length a + String.length b.
Proof. induction a as [|x a IH]; ssimpl; [reflexivity | now rewrite IH]. Qed.

Lemma map_app (f : ascii -> ascii) (a b : string) :
  Str.map f (a +:+ b) = Str.map f a +:+ Str.map f b.
Proof. induction a as [|x a IH]; ssimpl; [reflexivity | now rewrite IH]. Qed.

Lemma length_map (f : ascii -> ascii) (s : string) :
  String.length (Str.map f s) = String.length s.
Proof. induction s as [|x s IH]; ssimpl; [reflexivity | now rewrite IH]. Qed.

Lemma take_app (a b : string) : Str.take (String.length a) (a +:+ b) = a.
Proof. induction a as [|x a IH]; ssimpl; [now destruct b | now rewrite IH]. Qed.

Lemma drop_app (a b : string) : Str.drop (String.length a) (a +:+ b) = b.
Proof. induction a as [|x a IH]; ssimpl; [now destruct b | exact IH]. Qed.

Lemma take_drop (n : nat) (s : string) : Str.take n s +:+ Str.drop n s = s.
Proof.
  revert s. induction n as [|n IH]; intros [|c s]; ssimpl; try reflexivity.
  now rewrite IH.
Qed.

Lemma length_take (n : nat) (s : string) :
  n <= String.length s -> String.length (Str.take n s) = n.
Proof.
  revert s. induction n as [|n IH]; intros [|c s]; ssimpl; intros H;
    try reflexivity; try lia.
  rewrite IH; [reflexivity | lia].
Qed.

Lemma drop_drop (n m : nat) (s : string) :
  Str.drop m (Str.drop n s) = Str.drop (n + m) s.
Proof.
  revert s. induction n as [|n IH]; intros s; ssimpl; [reflexivity|].
  destruct s as [|c s]; [now destruct m | apply IH].
Qed.

Lemma map_take (f : ascii -> ascii) (n : nat) (s : string) :
  Str.map f (Str.take n s) = Str.take n (Str.map f s).
Proof.
  revert s. induction n as [|n IH]; intros [|c s]; ssimpl; try reflexivity.
  now rewrite IH.
Qed.

Lemma map_drop (f : ascii -> ascii) (n : nat) (s : string) :
  Str.map f (Str.drop n s) = Str.drop n (Str.map f s).
Proof.
  revert s. induction n as [|n IH]; intros [|c s]; ssimpl; try reflexivity.
  apply IH.
Qed.

Lemma last_app (d : option ascii) (a b : string) :
  Str.last d (a +:+ b) = Str.last (Str.last d a) b.
Proof. revert d. induction a as [|x a IH]; intros d; ssimpl; [reflexivity | apply IH]. Qed.

Lemma last_map (f : ascii -> ascii) (d : option ascii) (s : string) :
  Str.last (option_map f d) (Str.map f s) = option_map f (Str.last d s).
Proof.
  revert d. induction s as [|x s IH]; intros d; ssimpl; [reflexivity|].
  apply (IH (Some x)).
Qed.

Lemma head_map (f : ascii -> ascii) (s : string) :
  Str.head (Str.map f s) = option_map f (Str.head s).
Proof. now destruct s. Qed.


(** A split of [s] is given by the length of its first part. *)
Lemma split_take_drop (s pre post : string) :
  s = pre +:+ post ->
  pre = Str.take (String.length pre) s /\ post = Str.drop (String.length pre) s.
Proof. intros ->. now rewrite take_app, drop_app. Qed.

Lemma prefix_spec (p s : string) :
  String.prefix p s = true <-> exists post, s = p +:+ post.
Proof.
  revert s. induction p as [|c p IH]; intros s.
  - destruct s; simpl; split; eauto.
  - destruct s as [|x s]; simpl.
    + split; [discriminate | intros [post H]; ssimpl; discriminate].
    + destruct (ascii_dec c x) as [<- | Hne].
      * rewrite IH. split; intros [post H]; exists post; ssimpl; congruence.
      * split; [discriminate | intros [post H]; ssimpl; congruence].
Qed.

Lemma contains_nil (needle : string) :
  Str.contains "" needle = String.prefix needle "".
Proof. unfold Str.contains. apply Bool.orb_false_r. Qed.

Lemma contains_cons (x : ascii) (s needle : string) :
  Str.contains (String x s) needle
  = String.prefix needle (String x s) || Str.contains s needle.
Proof. reflexivity. Qed.

(** [Str.contains] is the substring test. *)
Lemma contains_spec (s needle : string) :
  Str.contains s needle = true <-> is_substring needle s.
Proof.
  unfold is_substring. induction s as [|x s IH].
  - rewrite contains_nil, prefix_spec. split.
    + intros [post H]. exists "", post. exact H.
    + intros (pre & post & H). destruct pre; [|ssimpl; discriminate]. eauto.
  - rewrite contains_cons, Bool.orb_true_iff, prefix_spec, IH. split.
    + intros [[post H] | (pre & post & H)].
      * exists "", post. exact H.
      * exists (String x pre), post. ssimpl. now rewrite H.
    + intros (pre & post & H). destruct pre as [|y pre]; ssimpl.
      * left. eauto.
      * right. injection H as -> H. eauto.
Qed.

Lemma forallb_app (p : ascii -> bool) (a b : string) :
  Str.forallb p (a +:+ b) = Str.forallb p a && Str.forallb p b.
Proof.
  induction a as [|x a IH]; ssimpl; [reflexivity|].
  now rewrite IH, Bool.andb_assoc.
Qed.

Lemma forallb_ext (p q : ascii -> bool) (s : string) :
  (forall c, p c = q c) -> Str.forallb p s = Str.forallb q s.
Proof. intros H. induction s as [|x s IH]; ssimpl; [reflexivity | now rewrite H, IH]. Qed.

Lemma span_spec (p : ascii -> bool) (s : string) :
  s = (Str.span p s).1 +:+ (Str.span p s).2
  /\ Str.forallb p (Str.span p s).1 = true
  /\ Str.stops p (Str.span p s).2.
Proof.
  induction s as [|x s IH]; ssimpl.
  - repeat split.
  - destruct (p x) eqn:Hx.
    + destruct (Str.span p s) as [a b]. ssimpl. rewrite Hx.
      destruct IH as (-> & Ha & Hb). auto.
    + ssimpl. repeat split. exact Hx.
Qed.

Lemma span_app (p : ascii -> bool) (a b : string) :
  Str.forallb p a = true -> Str.stops p b -> Str.span p (a +:+ b) = (a, b).
Proof.
  intros Ha Hb. induction a as [|x a IH]; ssimpl.
  - destruct b as [|y b]; [reflexivity|]. unfold Str.stops in Hb; ssimpl.
    now rewrite Hb.
  - apply andb_prop in Ha. destruct Ha as [Hx Ha]. rewrite Hx, (IH Ha). reflexivity.
Qed.

End StrFacts.

(** ** Facts: the ticket store *)

Section TicketFacts.
Variable polarity : string -> float.

Lemma submit_ticket_store uuid4 utcnow ticket_input st :
  support_tickets_db (submit_ticket polarity uuid4 utcnow ticket_input st).2
  = <[uuid4 := Ticket.Make uuid4 (TicketInput.user_email ticket_input)
                 (TicketInput.issue_description ticket_input) "submitted"
                 (get_sentiment polarity (TicketInput.issue_description ticket_input))
                 (utcnow +:+ "Z")]> (support_tickets_db st).
Proof. reflexivity. Qed.

Lemma submit_ticket_response uuid4 utcnow ticket_input st :
  (submit_ticket polarity uuid4 utcnow ticket_input st).1
  = Ok 201 (TicketResponse.Make uuid4 (TicketInput.user_email ticket_input)
              (TicketInput.issue_description ticket_input) "submitted"
              (get_sentiment polarity (TicketInput.issue_description ticket_input))
              (utcnow +:+ "Z")).
Proof. reflexivity. Qed.

Lemma validate_TicketInput_Some body ticket_input :
  validate_TicketInput body = Some ticket_input <->
  body !! "user_email" = Some (TicketInput.user_email ticket_input)
  /\ body !! "issue_description" = Some (TicketInput.issue_description ticket_input)
  /\ 10 <= String.length (TicketInput.issue_description ticket_input).
Proof.
  unfold validate_TicketInput. destruct ticket_input as [e d].
  cbn [TicketInput.user_email TicketInput.issue_description].
  destruct (body !! "user_email") as [e'|], (body !! "issue_description") as [d'|];
    try (split; [discriminate | intros (? & ? & ?); discriminate]).
  destruct (Nat.leb_spec 10 (String.length d')) as [Hle | Hlt]; split.
  - intros H0. injection H0 as -> ->. auto.
  - intros (H1 & H2 & _). injection H1 as ->. injection H2 as ->. reflexivity.
  - discriminate.
  - intros (_ & H2 & ?). injection H2 as ->. lia.
Qed.

Lemma step_faq_db st req : faq_db (step polarity st req) = faq_db st.
Proof.
  destruct req as [body | uuid4 utcnow body | ticket_id | body]; simpl.
  - unfold post_support_faq, get_faq.
    destruct (validate_FAQQuery body); [|reflexivity].
    destruct (find_faq_answer _ _); reflexivity.
  - unfold post_support_ticket.
    destruct (validate_TicketInput body); reflexivity.
  - unfold get_support_tickets, get_ticket_status.
    destruct (support_tickets_db st !! ticket_id); reflexivity.
  - unfold post_support_action. destruct (validate_ActionQuery body); reflexivity.
Qed.

(** A request changes the store exactly when it writes a ticket, and then
    by one insertion under the identifier drawn. *)
Lemma step_store st req :
  support_tickets_db (step polarity st req)
  = match ticket_of polarity req with
    | Some t => <[Ticket.ticket_id t := t]> (support_tickets_db st)
    | None => support_tickets_db st
    end.
Proof.
  destruct req as [body | uuid4 utcnow body | ticket_id | body]; simpl.
  - unfold post_support_faq, get_faq.
    destruct (validate_FAQQuery body); [|reflexivity].
    destruct (find_faq_answer _ _); reflexivity.
  - unfold post_support_ticket.
    destruct (validate_TicketInput body); reflexivity.
  - unfold get_support_tickets, get_ticket_status.
    destruct (support_tickets_db st !! ticket_id); reflexivity.
  - unfold post_support_action. destruct (validate_ActionQuery body); reflexivity.
Qed.

Lemma ticket_of_id req t :
  ticket_of polarity req = Some t ->
  exists utcnow body, req = PostTicket (Ticket.ticket_id t) utcnow body.
Proof.
  destruct req as [body | uuid4 utcnow body | ticket_id | body]; simpl;
    try discriminate.
  destruct (validate_TicketInput body); [|discriminate].
  intros [= <-]. simpl. eauto.
Qed.

Lemma exec_app reqs1 reqs2 st :
  exec polarity (reqs1 ++ reqs2) st = exec polarity reqs2 (exec polarity reqs1 st).
Proof. apply fold_left_app. Qed.

Lemma exec_faq_db reqs st : faq_db (exec polarity reqs st) = faq_db st.
Proof.
  revert st. induction reqs as [|req reqs IH]; intros st; [reflexivity|].
  simpl. rewrite IH. apply step_faq_db.
Qed.

Lemma insertions_cons ticket_id req reqs :
  insertions polarity ticket_id (req :: reqs)
  = (match ticket_of polarity req with
     | Some t => if String.eqb (Ticket.ticket_id t) ticket_id then 1 else 0
     | None => 0
     end) + insertions polarity ticket_id reqs.
Proof.
  unfold insertions. simpl.
  destruct (ticket_of polarity req) as [t|]; [|reflexivity].
  destruct (String.eqb (Ticket.ticket_id t) ticket_id); reflexivity.
Qed.

(** Along a run with new identifiers, a key of the final store was a key
    at the start and never written, or was absent at the start and written
    once, and holds the record written then; a key absent at the end was
    never written. *)
Lemma exec_store reqs : forall st,
  fresh_identifiers polarity reqs st ->
  forall ticket_id,
    match support_tickets_db (exec polarity reqs st) !! ticket_id with
    | Some t =>
        (support_tickets_db st !! ticket_id = Some t
         /\ insertions polarity ticket_id reqs = 0)
        \/ (support_tickets_db st !! ticket_id = None
            /\ insertions polarity ticket_id reqs = 1
            /\ exists req, In req reqs /\ ticket_of polarity req = Some t)
    | None =>
        support_tickets_db st !! ticket_id = None
        /\ insertions polarity ticket_id reqs = 0
    end.
Proof.
  induction reqs as [|req reqs IH]; intros st Hfresh ticket_id.
  - simpl. destruct (support_tickets_db st !! ticket_id); auto.
  - destruct Hfresh as [Hnew Hfresh].
    specialize (IH _ Hfresh ticket_id).
    change (exec polarity (req :: reqs) st)
      with (exec polarity reqs (step polarity st req)).
    rewrite insertions_cons.
    rewrite step_store in IH.
    destruct (ticket_of polarity req) as [t0|] eqn:Ht0.
    + destruct (ticket_of_id _ _ Ht0) as (utcnow & body & ->).
      simpl in Hnew.
      destruct (String.eqb_spec (Ticket.ticket_id t0) ticket_id) as [<- | Hne].
      * rewrite lookup_insert_eq in IH.
        destruct (support_tickets_db (exec polarity reqs _) !! _) as [t|].
        -- destruct IH as [[[= <-] Hins] | [[=] _]].
           right. rewrite Hins. repeat split; auto.
           exists (PostTicket (Ticket.ticket_id t0) utcnow body).
           split; [left; reflexivity | assumption].
        -- destruct IH as [[=] _].
      * rewrite lookup_insert_ne in IH by assumption.
        destruct (support_tickets_db (exec polarity reqs _) !! _) as [t|].
        -- destruct IH as [[Hst Hins] | (Hst & Hins & req' & Hin & Hreq')].
           ++ left. auto.
           ++ right. repeat split; auto. exists req'. split; [right|]; auto.
        -- assumption.
    + destruct (support_tickets_db (exec polarity reqs _) !! _) as [t|].
      * destruct IH as [[Hst Hins] | (Hst & Hins & req' & Hin & Hreq')].
        -- left. auto.
        -- right. repeat split; auto. exists req'. split; [right|]; auto.
      * assumption.
Qed.

Lemma insertions_app ticket_id reqs1 reqs2 :
  insertions polarity ticket_id (reqs1 ++ reqs2)
  = insertions polarity ticket_id reqs1 + insertions polarity ticket_id reqs2.
Proof.
  induction reqs1 as [|req reqs1 IH]; [reflexivity|].
  change ((req :: reqs1) ++ reqs2) with (req :: (reqs1 ++ reqs2)).
  rewrite !insertions_cons, IH. lia.
Qed.

(** A run that never writes under an identifier leaves what is filed
    under it as it was, whatever else it writes. *)
Lemma exec_unwritten reqs : forall st ticket_id,
  insertions polarity ticket_id reqs = 0 ->
  support_tickets_db (exec polarity reqs st) !! ticket_id
  = support_tickets_db st !! ticket_id.
Proof.
  induction reqs as [|req reqs IH]; intros st ticket_id H; [reflexivity|].
  rewrite insertions_cons in H.
  change (exec polarity (req :: reqs) st)
    with (exec polarity reqs (step polarity st req)).
  rewrite IH by lia. rewrite step_store.
  destruct (ticket_of polarity req) as [t|]; [|reflexivity].
  destruct (String.eqb_spec (Ticket.ticket_id t) ticket_id) as [Heq | Hne]; [lia|].
  now rewrite lookup_insert_ne.
Qed.

(** The record filed under an identifier is the one written by the last
    request that wrote under it. *)
Lemma exec_last_write reqs1 req reqs2 st t :
  ticket_of polarity req = Some t ->
  insertions polarity (Ticket.ticket_id t) reqs2 = 0 ->
  support_tickets_db (exec polarity (reqs1 ++ req :: reqs2) st) !! Ticket.ticket_id t
  = Some t.
Proof.
  intros Ht H0. rewrite exec_app.
  change (exec polarity (req :: reqs2) (exec polarity reqs1 st))
    with (exec polarity reqs2 (step polarity (exec polarity reqs1 st) req)).
  rewrite exec_unwritten by exact H0.
  rewrite step_store, Ht. apply lookup_insert_eq.
Qed.

(** An identifier written during a run has a last write. *)
Lemma insertions_last ticket_id reqs :
  1 <= insertions polarity ticket_id reqs ->
  exists reqs1 req reqs2 t,
    reqs = reqs1 ++ req :: reqs2
    /\ ticket_of polarity req = Some t
    /\ Ticket.ticket_id t = ticket_id
    /\ insertions polarity ticket_id reqs2 = 0.
Proof.
  induction reqs as [|req reqs IH]; intros H.
  - unfold insertions in H. simpl in H. lia.
  - destruct (Nat.eq_dec (insertions polarity ticket_id reqs) 0) as [H0 | Hpos].
    + rewrite insertions_cons, H0 in H.
      destruct (ticket_of polarity req) as [t|] eqn:Ht; [|lia].
      destruct (String.eqb_spec (Ticket.ticket_id t) ticket_id) as [Heq | Hne]; [|lia].
      exists [], req, reqs, t. auto.
    + destruct IH as (r1 & rq & r2 & t & -> & Ht & Hid & H0); [lia|].
      exists (req :: r1), rq, r2, t. auto.
Qed.

(** From the empty store, an identifier is a key exactly when the run
    wrote under it, and then it holds the record of the last write. *)
Lemma exec_initial_store reqs ticket_id :
  match support_tickets_db (exec polarity reqs initial_state) !! ticket_id with
  | Some t =>
      exists reqs1 req reqs2,
        reqs = reqs1 ++ req :: reqs2
        /\ ticket_of polarity req = Some t
        /\ Ticket.ticket_id t = ticket_id
        /\ insertions polarity ticket_id reqs2 = 0
  | None => insertions polarity ticket_id reqs = 0
  end.
Proof.
  destruct (Nat.eq_dec (insertions polarity ticket_id reqs) 0) as [H0 | Hpos].
  - rewrite exec_unwritten by exact H0. simpl. rewrite lookup_empty. exact H0.
  - destruct (insertions_last ticket_id reqs) as (r1 & rq & r2 & t & -> & Ht & <- & H0);
      [lia|].
    rewrite exec_last_write by assumption. exists r1, rq, r2. auto.
Qed.

End TicketFacts.

Lemma append_inj_l (s1 s2 t : string) : s1 +:+ t = s2 +:+ t -> s1 = s2.
Proof.
  assert (Hlen : forall a b : string,
             String.length (a +:+ b) = String.length a + String.length b).
  { induction a as [|c a IH]; intros b; simpl; [reflexivity | now rewrite IH]. }
  revert s2. induction s1 as [|c s1 IH]; intros [|c' s2] H; simpl in H.
  - reflexivity.
  - apply (f_equal String.length) in H.
    rewrite ?Hlen in H; simpl in H; rewrite ?Hlen in H. lia.
  - apply (f_equal String.length) in H.
    rewrite ?Hlen in H; simpl in H; rewrite ?Hlen in H. lia.
  - injection H as -> H. f_equal. auto.
Qed.

Section TicketClaims.
Variable polarity : string -> float.

(** C2: a submission whose body passes the model answers 201 with a
    record, and the lookup of that record's identifier in the resulting
    state answers 200 with the same record, field for field. *)
Theorem ticket_round_trip uuid4 utcnow body st ticket_input :
  validate_TicketInput body = Some ticket_input ->
  exists resp st',
    post_support_ticket polarity uuid4 utcnow body st = (Ok 201 resp, st')
    /\ resp = {| TicketResponse.ticket_id := uuid4;
                 TicketResponse.user_email := TicketInput.user_email ticket_input;
                 TicketResponse.issue_description :=
                   TicketInput.issue_description ticket_input;
                 TicketResponse.status := "submitted";
                 TicketResponse.sentiment :=
                   get_sentiment polarity (TicketInput.issue_description ticket_input);
                 TicketResponse.timestamp := utcnow +:+ "Z" |}
    /\ get_support_tickets (TicketResponse.ticket_id resp) st' = (Ok 200 resp, st').
Proof.
  intros Hvalid. unfold post_support_ticket. rewrite Hvalid.
  eexists _, _. split; [reflexivity|]. split; [reflexivity|].
  unfold get_support_tickets, get_ticket_status; simpl.
  rewrite lookup_insert_eq. reflexivity.
Qed.

(** C7: a body without [user_email], without [issue_description], or with
    a description of fewer than 10 characters is answered 422 and the
    state, the ticket store included, is the one before the request. *)
Theorem invalid_ticket_rejected uuid4 utcnow body st :
  body !! "user_email" = None
  \/ body !! "issue_description" = None
  \/ (exists d, body !! "issue_description" = Some d /\ String.length d < 10) ->
  post_support_ticket polarity uuid4 utcnow body st = (RequestValidationError, st).
Proof.
  intros H. unfold post_support_ticket.
  destruct (validate_TicketInput body) as [ticket_input|] eqn:Hv; [|reflexivity].
  apply validate_TicketInput_Some in Hv. destruct Hv as (He & Hd & Hlen).
  destruct H as [H | [H | (d & H & Hshort)]]; try congruence.
  rewrite Hd in H. injection H as <-. lia.
Qed.

(** C8, as the code has it: along every run from the initial state,
    whatever identifiers are drawn, the FAQ store is the initial one and
    each of its entries has a keyword; a record of the ticket store is
    filed under its own identifier and was written at a submission of the
    run, the last one that drew this identifier; an identifier absent from
    the store was never written; an identifier present at any point of the
    run is present at its end; an identifier written exactly once keeps
    the record written then, unchanged, to the end of the run; and in a run
    in which [uuid4] never returns a key of the store, every identifier of
    the store was written exactly once. *)
Theorem store_invariants (reqs : list request) :
  let st := exec polarity reqs initial_state in
  faq_db st = faq_database
  /\ Forall (fun item => FaqItem.keywords item.2 <> []) (faq_db st)
  /\ (forall ticket_id,
        match support_tickets_db st !! ticket_id with
        | Some t =>
            Ticket.ticket_id t = ticket_id
            /\ 1 <= insertions polarity ticket_id reqs
            /\ exists reqs1 req reqs2,
                 reqs = reqs1 ++ req :: reqs2
                 /\ ticket_of polarity req = Some t
                 /\ insertions polarity ticket_id reqs2 = 0
        | None => insertions polarity ticket_id reqs = 0
        end)
  /\ (forall reqs1 reqs2 ticket_id,
        reqs = reqs1 ++ reqs2 ->
        is_Some (support_tickets_db (exec polarity reqs1 initial_state) !! ticket_id) ->
        is_Some (support_tickets_db st !! ticket_id))
  /\ (forall reqs1 reqs2 ticket_id t,
        reqs = reqs1 ++ reqs2 ->
        insertions polarity ticket_id reqs = 1 ->
        support_tickets_db (exec polarity reqs1 initial_state) !! ticket_id = Some t ->
        support_tickets_db st !! ticket_id = Some t)
  /\ (fresh_identifiers polarity reqs initial_state ->
      forall ticket_id,
        is_Some (support_tickets_db st !! ticket_id) ->
        insertions polarity ticket_id reqs = 1).
Proof.
  intros st. subst st. rewrite exec_faq_db. simpl faq_db.
  split; [reflexivity|]. split.
  { unfold faq_database. repeat constructor; discriminate. }
  assert (Hwritten : forall rs ticket_id,
             is_Some (support_tickets_db (exec polarity rs initial_state) !! ticket_id) ->
             1 <= insertions polarity ticket_id rs).
  { intros rs ticket_id [t Ht].
    destruct (Nat.eq_dec (insertions polarity ticket_id rs) 0) as [H0 | Hpos]; [|lia].
    rewrite exec_unwritten in Ht by exact H0. simpl in Ht.
    rewrite lookup_empty in Ht. discriminate. }
  split; [|split; [|split]].
  - intros ticket_id.
    pose proof (exec_initial_store polarity reqs ticket_id) as H.
    destruct (support_tickets_db (exec polarity reqs initial_state) !! ticket_id)
      as [t|] eqn:Hlook; [|exact H].
    destruct H as (r1 & rq & r2 & Hreqs & Ht & Hid & H0).
    split; [exact Hid|]. split; [apply Hwritten; eauto|].
    exists r1, rq, r2. auto.
  - intros reqs1 reqs2 ticket_id -> Hst.
    apply Hwritten in Hst.
    pose proof (exec_initial_store polarity (reqs1 ++ reqs2) ticket_id) as H.
    destruct (support_tickets_db (exec polarity (reqs1 ++ reqs2) initial_state)
                !! ticket_id) as [t|]; [eauto|].
    rewrite insertions_app in H. lia.
  - intros reqs1 reqs2 ticket_id t -> Hone Hst.
    assert (H1 : 1 <= insertions polarity ticket_id reqs1) by (apply Hwritten; eauto).
    rewrite insertions_app in Hone.
    rewrite exec_app, exec_unwritten by lia. exact Hst.
  - intros Hfresh ticket_id [t Ht].
    pose proof (exec_store polarity reqs _ Hfresh ticket_id) as H.
    rewrite Ht in H. destruct H as [[H _] | (_ & Hins & _)]; [|exact Hins].
    simpl in H. rewrite lookup_empty in H. discriminate.
Qed.
End TicketClaims.

(** C3: when the identifier is a key of the ticket store the lookup
    answers 200 with the six fields of the record stored under it, each in
    its own place; it answers 404 "Ticket not found" exactly when the
    identifier is not a key; in both cases it returns the state it
    received, FAQ store and ticket store alike. *)
Theorem ticket_lookup (ticket_id : string) (st : state) :
  (forall t, support_tickets_db st !! ticket_id = Some t ->
     get_ticket_status ticket_id st
     = (Ok 200 {| TicketResponse.ticket_id := Ticket.ticket_id t;
                  TicketResponse.user_email := Ticket.user_email t;
                  TicketResponse.issue_description := Ticket.issue_description t;
                  TicketResponse.status := Ticket.status t;
                  TicketResponse.sentiment := Ticket.sentiment t;
                  TicketResponse.timestamp := Ticket.timestamp t |}, st))
  /\ ((get_ticket_status ticket_id st).1 = HTTPException 404 "Ticket not found"
      <-> support_tickets_db st !! ticket_id = None)
  /\ (get_ticket_status ticket_id st).2 = st
  /\ get_support_tickets ticket_id st = get_ticket_status ticket_id st.
Proof.
  unfold get_support_tickets, get_ticket_status.
  destruct (support_tickets_db st !! ticket_id) as [t|]; simpl.
  - repeat split; try discriminate. intros t' [= <-]. reflexivity.
  - repeat split; discriminate.
Qed.

Section TwoSubmissions.
Variable polarity : string -> float.

(** C9, as the code has it: two submissions of one body that passes the
    model, the second after the first, both answer 201; each record
    carries the identifier [uuid4] returned to its call and the clock
    reading of its call followed by "Z", so the two identifiers differ
    exactly when the two values drawn do and the two timestamps exactly
    when the two clock readings do.  The second record is found by its
    identifier in the final state; the first one is found by its
    identifier when the identifiers differ, and is replaced by the second
    when they are equal. *)
Theorem same_input_two_tickets uuid1 now1 uuid2 now2 body st ticket_input :
  validate_TicketInput body = Some ticket_input ->
  exists t1 st1 t2 st2,
    post_support_ticket polarity uuid1 now1 body st = (Ok 201 t1, st1)
    /\ post_support_ticket polarity uuid2 now2 body st1 = (Ok 201 t2, st2)
    /\ TicketResponse.ticket_id t1 = uuid1
    /\ TicketResponse.ticket_id t2 = uuid2
    /\ (TicketResponse.ticket_id t1 <> TicketResponse.ticket_id t2 <-> uuid1 <> uuid2)
    /\ TicketResponse.timestamp t1 = now1 +:+ "Z"
    /\ TicketResponse.timestamp t2 = now2 +:+ "Z"
    /\ (TicketResponse.timestamp t1 <> TicketResponse.timestamp t2 <-> now1 <> now2)
    /\ TicketResponse.user_email t1 = TicketResponse.user_email t2
    /\ TicketResponse.issue_description t1 = TicketResponse.issue_description t2
    /\ get_support_tickets uuid2 st2 = (Ok 200 t2, st2)
    /\ (uuid1 <> uuid2 -> get_support_tickets uuid1 st2 = (Ok 200 t1, st2))
    /\ (uuid1 = uuid2 -> get_support_tickets uuid1 st2 = (Ok 200 t2, st2)).
Proof.
  intros Hvalid. unfold post_support_ticket. rewrite Hvalid.
  eexists _, _, _, _.
  split; [reflexivity|]. split; [reflexivity|]. simpl.
  repeat split; try tauto.
  - intros H Heq. apply H. now rewrite Heq.
  - intros H Heq. apply H. eapply append_inj_l. exact Heq.
  - unfold get_support_tickets, get_ticket_status; simpl.
    rewrite lookup_insert_eq. reflexivity.
  - intros Hne. unfold get_support_tickets, get_ticket_status; simpl.
    rewrite lookup_insert_ne by congruence. rewrite lookup_insert_eq. reflexivity.
  - intros ->. unfold get_support_tickets, get_ticket_status; simpl.
    rewrite lookup_insert_eq. reflexivity.
Qed.
End TwoSubmissions.

(** ** The ticket endpoints on the sample requests *)

Lemma sample_body_valid : validate_TicketInput sample_body = Some sample_input.
Proof. vm_compute. reflexivity. Qed.

Lemma ticket_round_trip_witness :
  exists resp st',
    post_support_ticket sample_polarity "0b8e7a52-5f0c-4c1e-9a55-0d5f5a3c9e01"
      "2024-05-01T10:00:00.000001" sample_body initial_state = (Ok 201 resp, st')
    /\ resp = {| TicketResponse.ticket_id := "0b8e7a52-5f0c-4c1e-9a55-0d5f5a3c9e01";
                 TicketResponse.user_email := TicketInput.user_email sample_input;
                 TicketResponse.issue_description :=
                   TicketInput.issue_description sample_input;
                 TicketResponse.status := "submitted";
                 TicketResponse.sentiment :=
                   get_sentiment sample_polarity
                     (TicketInput.issue_description sample_input);
                 TicketResponse.timestamp := "2024-05-01T10:00:00.000001" +:+ "Z" |}
    /\ get_support_tickets (TicketResponse.ticket_id resp) st' = (Ok 200 resp, st').
Proof.
  apply (ticket_round_trip sample_polarity _ _ sample_body initial_state sample_input).
  vm_compute. reflexivity.
Defined.

Lemma invalid_ticket_rejected_witness :
  post_support_ticket sample_polarity "7c1d2f90-3a4b-4d6e-8f11-2b3c4d5e6f02"
    "2024-05-01T10:00:00.000001" short_body initial_state
  = (RequestValidationError, initial_state).
Proof.
  apply (invalid_ticket_rejected sample_polarity).
  right. right. exists "too short". split; [vm_compute; reflexivity | simpl; lia].
Defined.

Lemma store_invariants_witness :
  support_tickets_db (exec sample_polarity sample_run initial_state)
    !! "0b8e7a52-5f0c-4c1e-9a55-0d5f5a3c9e01"
  = Some {| Ticket.ticket_id := "0b8e7a52-5f0c-4c1e-9a55-0d5f5a3c9e01";
            Ticket.user_email := "user@example.com";
            Ticket.issue_description := "My order is late and I'm very unhappy!";
            Ticket.status := "submitted";
            Ticket.sentiment := "neutral";
            Ticket.timestamp := "2024-05-01T10:00:00.000001Z" |}.
Proof.
  apply (proj1 (proj2 (proj2 (proj2 (proj2
           (store_invariants sample_polarity sample_run)))))
           (firstn 1 sample_run) (skipn 1 sample_run)).
  - reflexivity.
  - vm_compute. reflexivity.
  - vm_compute. reflexivity.
Defined.

(** C8 as stated fails: when [uuid4] returns for a second submission the
    identifier of an earlier one, that identifier is in the store, was
    inserted twice, and the record filed under it after the first
    submission is not the one filed under it at the end. *)
Lemma identifier_drawn_twice :
  insertions sample_polarity "id-1" repeated_run = 2
  /\ support_tickets_db (exec sample_polarity (firstn 1 repeated_run) initial_state)
       !! "id-1"
     = Some {| Ticket.ticket_id := "id-1";
               Ticket.user_email := "user@example.com";
               Ticket.issue_description := "My order is late and I'm very unhappy!";
               Ticket.status := "submitted";
               Ticket.sentiment := "neutral";
               Ticket.timestamp := "2024-05-01T10:00:00Z" |}
  /\ support_tickets_db (exec sample_polarity repeated_run initial_state) !! "id-1"
     = Some {| Ticket.ticket_id := "id-1";
               Ticket.user_email := "user@example.com";
               Ticket.issue_description := "My order is late and I'm very unhappy!";
               Ticket.status := "submitted";
               Ticket.sentiment := "neutral";
               Ticket.timestamp := "2024-05-01T10:00:09Z" |}
  /\ support_tickets_db (exec sample_polarity (firstn 1 repeated_run) initial_state)
       !! "id-1"
     <> support_tickets_db (exec sample_polarity repeated_run initial_state) !! "id-1".
Proof.
  split; [vm_compute; reflexivity|].
  split; [vm_compute; reflexivity|].
  split; [vm_compute; reflexivity|].
  vm_compute. discriminate.
Qed.

Lemma same_input_two_tickets_witness :
  exists t1 st1 t2 st2,
    post_support_ticket sample_polarity "id-1" "2024-05-01T10:00:00" sample_body
      initial_state = (Ok 201 t1, st1)
    /\ post_support_ticket sample_polarity "id-2" "2024-05-01T10:00:07" sample_body st1
       = (Ok 201 t2, st2)
    /\ TicketResponse.ticket_id t1 = "id-1"
    /\ TicketResponse.ticket_id t2 = "id-2"
    /\ (TicketResponse.ticket_id t1 <> TicketResponse.ticket_id t2 <-> "id-1" <> "id-2")
    /\ TicketResponse.timestamp t1 = "2024-05-01T10:00:00" +:+ "Z"
    /\ TicketResponse.timestamp t2 = "2024-05-01T10:00:07" +:+ "Z"
    /\ (TicketResponse.timestamp t1 <> TicketResponse.timestamp t2
        <-> "2024-05-01T10:00:00" <> "2024-05-01T10:00:07")
    /\ TicketResponse.user_email t1 = TicketResponse.user_email t2
    /\ TicketResponse.issue_description t1 = TicketResponse.issue_description t2
    /\ get_support_tickets "id-2" st2 = (Ok 200 t2, st2)
    /\ ("id-1" <> "id-2" -> get_support_tickets "id-1" st2 = (Ok 200 t1, st2))
    /\ ("id-1" = "id-2" -> get_support_tickets "id-1" st2 = (Ok 200 t2, st2)).
Proof.
  apply (same_input_two_tickets sample_polarity "id-1" "2024-05-01T10:00:00"
           "id-2" "2024-05-01T10:00:07" sample_body initial_state sample_input).
  vm_compute. reflexivity.
Defined.

(** C9 as stated fails twice over.  Two submissions of one body that read
    the same clock value get one timestamp; and nothing in [submit_ticket]
    keeps [uuid4] from returning the same value twice, in which case the
    two records carry one identifier and the lookup of it returns the
    second record, not the first. *)
Lemma same_input_not_distinct :
  (exists t1 st1 t2 st2,
     post_support_ticket sample_polarity "id-1" "2024-05-01T10:00:00.000001"
       sample_body initial_state = (Ok 201 t1, st1)
     /\ post_support_ticket sample_polarity "id-2" "2024-05-01T10:00:00.000001"
          sample_body st1 = (Ok 201 t2, st2)
     /\ TicketResponse.timestamp t1 = "2024-05-01T10:00:00.000001Z"
     /\ TicketResponse.timestamp t2 = "2024-05-01T10:00:00.000001Z"
     /\ ~ TicketResponse.timestamp t1 <> TicketResponse.timestamp t2)
  /\ (exists t1 st1 t2 st2,
        post_support_ticket sample_polarity "id-1" "2024-05-01T10:00:00"
          sample_body initial_state = (Ok 201 t1, st1)
        /\ post_support_ticket sample_polarity "id-1" "2024-05-01T10:00:09"
             sample_body st1 = (Ok 201 t2, st2)
        /\ TicketResponse.ticket_id t1 = "id-1"
        /\ TicketResponse.ticket_id t2 = "id-1"
        /\ ~ TicketResponse.ticket_id t1 <> TicketResponse.ticket_id t2
        /\ t1 <> t2
        /\ get_support_tickets (TicketResponse.ticket_id t1) st2 = (Ok 200 t2, st2)
        /\ get_support_tickets (TicketResponse.ticket_id t1) st2 <> (Ok 200 t1, st2)).
Proof.
  split.
  - eexists _, _, _, _. split; [vm_compute; reflexivity|].
    split; [vm_compute; reflexivity|]. simpl.
    split; [reflexivity|]. split; [reflexivity|].
    intros H. apply H. reflexivity.
  - eexists _, _, _, _. split; [vm_compute; reflexivity|].
    split; [vm_compute; reflexivity|]. simpl.
    split; [reflexivity|]. split; [reflexivity|].
    split; [intros H; apply H; reflexivity|].
    split; [discriminate|].
    split; [vm_compute; reflexivity | vm_compute; discriminate].
Qed.

(** ** Facts: the matcher *)

Module ReFacts.
Import Chars Re CharsFacts StrFacts.

Lemma take_0 (s : string) : Str.take 0 s = "".
Proof. now destruct s. Qed.

Lemma advance_0 (cur : cursor) : advance 0 cur = cur.
Proof. destruct cur as [pv [|c s]]; reflexivity. Qed.

Lemma advance_S (n : nat) (pv : option ascii) (c : ascii) (s : string) :
  advance (S n) (Cursor pv (String c s)) = advance n (Cursor (Some c) s).
Proof. reflexivity. Qed.

Lemma rest_advance (n : nat) (cur : cursor) :
  rest (advance n cur) = Str.drop n (rest cur).
Proof. reflexivity. Qed.

Lemma run_Cat {A : Type} r1 r2 cur g (k : cursor -> groups -> option A) :
  run (Cat r1 r2) cur g k = run r1 cur g (fun cur' g' => run r2 cur' g' k).
Proof. reflexivity. Qed.

Lemma run_Alt {A : Type} r1 r2 cur g (k : cursor -> groups -> option A) :
  run (Alt r1 r2) cur g k
  = match run r1 cur g k with
    | Some x => Some x
    | None => run r2 cur g k
    end.
Proof. reflexivity. Qed.

Lemma run_Rep {A : Type} min p cur g (k : cursor -> groups -> option A) :
  run (Rep min p) cur g k
  = repeat p (fun cur' => k cur' g) min (prev cur) (rest cur).
Proof. reflexivity. Qed.

Lemma run_Grp {A : Type} n r cur g (k : cursor -> groups -> option A) :
  run (Grp n r) cur g k
  = run r cur g (fun cur' g' => k cur' ((n, taken (rest cur) (rest cur')) :: g')).
Proof. reflexivity. Qed.

Lemma run_Bnd {A : Type} cur g (k : cursor -> groups -> option A) :
  run Bnd cur g k = if at_boundary cur then k cur g else None.
Proof. reflexivity. Qed.

(** A literal string is matched in one piece. *)
Lemma run_str {A : Type} (ci : bool) (w : string) :
  forall (cur : cursor) (g : groups) (k : cursor -> groups -> option A),
    run (str ci w) cur g k
    = if starts_with ci w (rest cur) then k (advance (String.length w) cur) g
      else None.
Proof.
  induction w as [|c w IH]; intros [pv s] g k.
  - simpl. now rewrite advance_0.
  - simpl. destruct s as [|x s]; [reflexivity|].
    destruct (literal ci c x); [|reflexivity].
    simpl. rewrite IH. reflexivity.
Qed.

Lemma starts_with_length (ci : bool) (w s : string) :
  starts_with ci w s = true -> String.length w <= String.length s.
Proof.
  revert s. induction w as [|c w IH]; intros [|x s] H; simpl in *;
    try lia; try discriminate.
  apply andb_prop in H. destruct H as [_ H]. apply IH in H. lia.
Qed.

(** Greedy repetition returns what the rest of the pattern makes of the
    longest run, when that succeeds. *)
Lemma repeat_first {A : Type} (p : ascii -> bool) (k : cursor -> option A) (x : A) :
  forall (s : string) (min : nat) (pv : option ascii),
    min <= String.length (Str.span p s).1 ->
    k (Cursor (Str.last pv (Str.span p s).1) (Str.span p s).2) = Some x ->
    repeat p k min pv s = Some x.
Proof.
  induction s as [|c s IH]; intros min pv Hmin Hk; simpl in *.
  - destruct min; [exact Hk | lia].
  - destruct (p c) eqn:Hc.
    + destruct (Str.span p s) as [a b] eqn:Hsp. simpl in *.
      rewrite (IH (Nat.pred min) (Some c)); [reflexivity | lia | exact Hk].
    + simpl in *. destruct min; [exact Hk | lia].
Qed.

(** Greedy repetition fails when the rest of the pattern fails after every
    admissible number of characters of the run. *)
Lemma repeat_none {A : Type} (p : ascii -> bool) (k : cursor -> option A) :
  forall (s : string) (min : nat) (pv : option ascii),
    (forall j, min <= j <= String.length (Str.span p s).1 ->
               k (advance j (Cursor pv s)) = None) ->
    repeat p k min pv s = None.
Proof.
  induction s as [|c s IH]; intros min pv Hk; simpl in *.
  - destruct min; [|reflexivity]. apply (Hk 0). lia.
  - assert (Hstop : match min with
                    | 0 => k (Cursor pv (String c s))
                    | S _ => None
                    end = None).
    { destruct min; [|reflexivity]. rewrite <- (advance_0 (Cursor pv _)).
      apply Hk. lia. }
    destruct (p c) eqn:Hc; [|exact Hstop].
    rewrite IH; [exact Hstop|].
    intros j Hj. rewrite <- (advance_S j pv c s). apply Hk.
    destruct (Str.span p s) as [a b]. simpl in *. lia.
Qed.

Lemma taken_app (a b : string) : taken (a +:+ b) b = a.
Proof.
  unfold taken. rewrite length_app.
  replace (String.length a + String.length b - String.length b)
    with (String.length a) by lia.
  apply take_app.
Qed.

Lemma length_drop (n : nat) (s : string) :
  String.length (Str.drop n s) = String.length s - n.
Proof.
  revert s. induction n as [|n IH]; intros [|c s]; simpl; try lia. apply IH.
Qed.

Lemma taken_drop (n : nat) (s : string) :
  n <= String.length s -> taken s (Str.drop n s) = Str.take n s.
Proof.
  intros H. unfold taken. rewrite length_drop. f_equal. lia.
Qed.

(** The second group, [([A-Z0-9]+)], captures the longest run of the set,
    which must not be empty. *)
Lemma run_token (pv : option ascii) (s : string) (g : groups) :
  run (Grp 2 (Rep 1 (ignorecase class_AZ09))) (Cursor pv s) g accept
  = match (Str.span (ignorecase class_AZ09) s).1 with
    | EmptyString => None
    | String _ _ as tok => Some ((2, tok) :: g)
    end.
Proof.
  rewrite run_Grp, run_Rep. cbn [prev rest].
  pose proof (span_spec (ignorecase class_AZ09) s) as (Hs & _ & _).
  destruct (Str.span (ignorecase class_AZ09) s) as [tok r] eqn:Hsp. simpl in *.
  destruct tok as [|c tok].
  - apply repeat_none. intros j Hj. rewrite Hsp in Hj. simpl in Hj. lia.
  - apply repeat_first; rewrite Hsp; simpl; [lia|]. unfold accept.
    do 3 f_equal. rewrite Hs at 1. apply (taken_app (String c tok) r).
Qed.

Lemma drop_in_run (p : ascii -> bool) (a b : string) (j : nat) :
  Str.forallb p a = true -> j < String.length a ->
  exists c t, Str.drop j (a +:+ b) = String c t /\ p c = true.
Proof.
  revert j. induction a as [|x a IH]; intros j Ha Hj; simpl in *; [lia|].
  apply andb_prop in Ha. destruct Ha as [Hx Ha].
  destruct j as [|j]; rewrite app_cons; simpl.
  - eauto.
  - apply IH; [assumption | lia].
Qed.

(** [\s*([A-Z0-9]+)] at the end of the pattern. *)
Lemma run_tail (pv : option ascii) (s : string) (g : groups) :
  run (Cat (Rep 0 is_space) (Grp 2 (Rep 1 (ignorecase class_AZ09))))
    (Cursor pv s) g accept
  = option_map (fun tok => (2, tok) :: g) (token_at s).
Proof.
  rewrite run_Cat, run_Rep. cbn [prev rest]. unfold token_at.
  pose proof (span_spec is_space s) as (Hs & Hws & _).
  destruct (Str.span is_space s) as [ws r] eqn:Hsp. simpl in Hs, Hws. cbn [snd].
  destruct (Str.span (ignorecase class_AZ09) r).1 as [|c tok] eqn:Htok.
  - apply repeat_none. intros j Hj. rewrite Hsp in Hj. simpl in Hj.
    destruct (advance j (Cursor pv s)) as [pv' s'] eqn:Hadv.
    assert (Hs' : s' = Str.drop j s) by (now injection Hadv).
    rewrite run_token.
    destruct (Nat.eq_dec j (String.length ws)) as [-> | Hne].
    + rewrite Hs', Hs, drop_app, Htok. reflexivity.
    + destruct (drop_in_run is_space ws r j Hws) as (x & t & Hd & Hx); [lia|].
      rewrite Hs', Hs, Hd. simpl.
      rewrite class_AZ09_ignorecase, (space_not_alnum _ Hx). reflexivity.
  - apply repeat_first; rewrite Hsp; cbn [fst snd]; [lia|].
    rewrite run_token, Htok. reflexivity.
Qed.

Lemma run_track_tail (pv : option ascii) (s : string) (g : groups) :
  run track_tail (Cursor pv s) g accept
  = if starts_with true " my order" s
    then option_map (fun tok => (2, tok) :: g) (token_at (Str.drop 9 s))
    else None.
Proof.
  unfold track_tail. rewrite run_Cat, run_str. cbn [rest].
  destruct (starts_with true " my order" s); [|reflexivity].
  change (String.length " my order") with 9.
  destruct (advance 9 (Cursor pv s)) as [pv' s'] eqn:Hadv.
  assert (Hs' : s' = Str.drop 9 s) by (now injection Hadv).
  rewrite run_tail, Hs'. reflexivity.
Qed.

(** One alternative of the first group, followed by the rest of the
    pattern. *)
Lemma run_verb (verb : string) (pv : option ascii) (s : string) :
  run (str true verb) (Cursor pv s) []
    (fun cur' g' => run track_tail cur' ((1, taken s (rest cur')) :: g') accept)
  = option_map (fun vt => [(2, vt.2); (1, vt.1)]) (phrase_token verb s).
Proof.
  rewrite run_str. cbn [rest]. unfold phrase_token.
  destruct (starts_with true verb s) eqn:Hv; [|reflexivity]. cbn [andb].
  destruct (advance (String.length verb) (Cursor pv s)) as [pv' s'] eqn:Hadv.
  assert (Hs' : s' = Str.drop (String.length verb) s) by (now injection Hadv).
  rewrite run_track_tail. cbn [rest]. rewrite Hs'.
  destruct (starts_with true " my order" _); [|reflexivity].
  rewrite drop_drop, taken_drop by (eapply starts_with_length; eassumption).
  destruct (token_at _); reflexivity.
Qed.

(** The track-order pattern at one position. *)
Lemma match_at_track (pv : option ascii) (s : string) :
  match_at track_order_re (Cursor pv s)
  = option_map (fun vt => [(2, vt.2); (1, vt.1)]) (track_at s).
Proof.
  unfold match_at, track_order_re, track_at.
  rewrite run_Cat, run_Grp, !run_Alt. cbn [rest]. rewrite !run_verb.
  destruct (phrase_token "track" s); [reflexivity|].
  destruct (phrase_token "status of" s); reflexivity.
Qed.


(** *** The patterns read as statements about the subject *)

Lemma lower_cons_inv (u : string) (c : ascii) (w : string) :
  Str.lower u = String c w ->
  exists x u', u = String x u' /\ lower_char x = c /\ Str.lower u' = w.
Proof.
  destruct u as [|x u']; [discriminate|]. unfold Str.lower. simpl.
  intros H. injection H as Hx Hu. eauto.
Qed.

(** Under [re.IGNORECASE] a literal matches the prefixes whose lower case
    it is. *)
Lemma starts_with_ci (w s : string) :
  Str.forallb is_lower_or_blank w = true ->
  starts_with true w s = true <-> exists u post, s = u +:+ post /\ Str.lower u = w.
Proof.
  revert s. induction w as [|c w IH]; intros s Hw.
  - split; [|reflexivity]. intros _. exists "", s. split; reflexivity.
  - simpl in Hw. apply andb_prop in Hw. destruct Hw as [Hc Hw]. split.
    + destruct s as [|x s]; simpl; [discriminate|].
      rewrite (literal_ignorecase c Hc). intros H. apply andb_prop in H.
      destruct H as [Hx H]. apply (IH s Hw) in H. destruct H as (u & post & -> & Hu).
      exists (String x u), post. rewrite app_cons. split; [reflexivity|].
      unfold Str.lower in *. simpl. apply Ascii.eqb_eq in Hx. now rewrite Hx, Hu.
    + intros (u & post & -> & Hu).
      apply lower_cons_inv in Hu. destruct Hu as (x & u' & -> & Hx & Hu).
      rewrite app_cons. simpl. rewrite (literal_ignorecase c Hc), Hx, Ascii.eqb_refl.
      apply (IH _ Hw). eauto.
Qed.

Lemma starts_with_exact (w s : string) :
  starts_with false w s = true <-> exists post, s = w +:+ post.
Proof.
  revert s. induction w as [|c w IH]; intros s.
  - split; [|reflexivity]. intros _. exists s. reflexivity.
  - destruct s as [|x s]; simpl.
    + split; [discriminate | intros [post H]; rewrite app_cons in H; discriminate].
    + rewrite Bool.andb_true_iff, Ascii.eqb_eq, IH. split.
      * intros [-> [post ->]]. exists post. reflexivity.
      * intros [post H]. rewrite app_cons in H. injection H as -> ->. eauto.
Qed.

Lemma stops_alnum_space (tok post : string) :
  tok <> "" -> Str.forallb is_ascii_alnum tok = true ->
  Str.stops is_space (tok +:+ post).
Proof.
  destruct tok as [|c tok]; [congruence|]. intros _ H. simpl in H.
  apply andb_prop in H. destruct H as [Hc _].
  unfold Str.stops. rewrite app_cons. simpl.
  destruct (is_space c) eqn:Hs; [|reflexivity].
  apply space_not_alnum in Hs. congruence.
Qed.

(** [token_at] finds a token exactly where white space is followed by a run
    of letters and digits that is not empty, and returns the whole run. *)
Lemma token_at_spec (s tok : string) :
  token_at s = Some tok <->
  exists ws post,
    s = ws +:+ tok +:+ post
    /\ Str.forallb is_space ws = true
    /\ tok <> ""
    /\ Str.forallb is_ascii_alnum tok = true
    /\ Str.stops is_ascii_alnum post.
Proof.
  unfold token_at. split.
  - pose proof (span_spec is_space s) as (Hs & Hws & _).
    destruct (Str.span is_space s) as [ws r]. cbn [fst snd] in *.
    pose proof (span_spec (ignorecase class_AZ09) r) as (Hr & Htok & Hpost).
    destruct (Str.span (ignorecase class_AZ09) r) as [tok' post]. cbn [fst snd] in *.
    destruct tok' as [|c tok']; [discriminate|]. intros [= <-].
    exists ws, post. rewrite <- Hr. split; [exact Hs|]. split; [exact Hws|].
    split; [discriminate|]. split.
    + rewrite <- Htok. apply forallb_ext. intros x.
      symmetry. apply class_AZ09_ignorecase.
    + unfold Str.stops in *. destruct (Str.head post) as [x|]; [|exact I].
      now rewrite <- class_AZ09_ignorecase.
  - intros (ws & post & -> & Hws & Hne & Htok & Hpost).
    rewrite (span_app is_space ws (tok +:+ post) Hws (stops_alnum_space _ _ Hne Htok)).
    cbn [snd]. rewrite (span_app (ignorecase class_AZ09) tok post).
    + cbn [fst]. destruct tok; [congruence | reflexivity].
    + rewrite <- Htok. apply forallb_ext. intros x. apply class_AZ09_ignorecase.
    + unfold Str.stops in *. destruct (Str.head post) as [x|]; [|exact I].
      now rewrite class_AZ09_ignorecase.
Qed.


Lemma phrase_token_spec (verb s v tok : string) :
  Str.forallb is_lower_or_blank verb = true ->
  phrase_token verb s = Some (v, tok) <->
  exists ph r,
    s = ph +:+ r
    /\ Str.lower ph = verb +:+ " my order"
    /\ v = Str.take (String.length verb) ph
    /\ token_at r = Some tok.
Proof.
  intros Hverb. unfold phrase_token. split.
  - destruct (starts_with true verb s) eqn:Hv; [|discriminate].
    destruct (starts_with true " my order" _) eqn:Ho; [|discriminate].
    cbn [andb]. intros H.
    apply (starts_with_ci verb s Hverb) in Hv. destruct Hv as (u1 & p1 & -> & Hu1).
    assert (Hn : String.length verb = String.length u1).
    { rewrite <- Hu1. apply length_map. }
    rewrite Hn, drop_app in Ho.
    apply starts_with_ci in Ho; [|reflexivity]. destruct Ho as (u2 & p2 & -> & Hu2).
    assert (H9 : 9 = String.length u2).
    { rewrite <- (length_map lower_char u2). fold (Str.lower u2). now rewrite Hu2. }
    rewrite <- drop_drop, Hn, drop_app, H9, drop_app, take_app in H.
    destruct (token_at p2) as [tok'|] eqn:Htok; [|discriminate].
    injection H as <- <-.
    exists (u1 +:+ u2), p2. rewrite app_assoc. split; [reflexivity|].
    split; [unfold Str.lower in *; now rewrite map_app, Hu1, Hu2|].
    split; [now rewrite Hn, take_app | exact Htok].
  - intros (ph & r & -> & Hph & -> & Htok).
    set (n := String.length verb).
    assert (Hlen : String.length ph = n + 9).
    { rewrite <- (length_map lower_char ph). fold (Str.lower ph).
      rewrite Hph, length_app. reflexivity. }
    assert (H1 : Str.lower (Str.take n ph) = verb).
    { unfold Str.lower in *. rewrite map_take, Hph. apply take_app. }
    assert (H2 : Str.lower (Str.drop n ph) = " my order").
    { unfold Str.lower in *. rewrite map_drop, Hph. apply drop_app. }
    assert (Hn : String.length (Str.take n ph) = n) by (apply length_take; lia).
    assert (Hsplit : ph +:+ r = Str.take n ph +:+ (Str.drop n ph +:+ r)).
    { now rewrite <- app_assoc, take_drop. }
    assert (Hd : Str.drop n (ph +:+ r) = Str.drop n ph +:+ r).
    { rewrite Hsplit at 1. rewrite <- Hn at 1. apply drop_app. }
    assert (Hv : starts_with true verb (ph +:+ r) = true).
    { apply (starts_with_ci verb _ Hverb). eauto. }
    assert (Ho : starts_with true " my order" (Str.drop n (ph +:+ r)) = true).
    { rewrite Hd. apply starts_with_ci; [reflexivity | eauto]. }
    rewrite Hv, Ho. cbn [andb].
    rewrite <- drop_drop, Hd.
    replace 9 with (String.length (Str.drop n ph))
      by (rewrite length_drop; lia).
    rewrite drop_app, Htok. cbn [option_map]. do 2 f_equal.
    rewrite Hsplit. rewrite <- Hn at 1. apply take_app.
Qed.

Lemma phrase_token_first (c : ascii) (verb s : string) (x : string * string) :
  is_lower_or_blank c = true ->
  phrase_token (String c verb) s = Some x ->
  option_map lower_char (Str.head s) = Some c.
Proof.
  intros Hc. unfold phrase_token.
  destruct s as [|a s]; [discriminate|]. cbn [starts_with]. unfold literal.
  rewrite (literal_ignorecase c Hc).
  destruct (Ascii.eqb_spec (lower_char a) c) as [<- | Hne]; [reflexivity|].
  discriminate.
Qed.

Lemma occurrence_first (ph r : string) (c : ascii) (w : string) :
  Str.lower ph = String c w ->
  option_map lower_char (Str.head (ph +:+ r)) = Some c.
Proof.
  intros H. apply lower_cons_inv in H. destruct H as (x & u & -> & <- & _).
  reflexivity.
Qed.

(** The pattern matches at the start of [s] with token [tok] exactly when
    [s] begins with one of the three phrases, up to case, followed by white
    space and the run [tok]. *)
Lemma track_at_sound (s v tok : string) :
  track_at s = Some (v, tok) ->
  exists ph r,
    s = ph +:+ r /\ In (Str.lower ph) track_phrases /\ token_at r = Some tok.
Proof.
  unfold track_at, track_phrases. intros H.
  destruct (phrase_token "track" s) as [x|] eqn:H1;
    [|destruct (phrase_token "status of" s) as [x|] eqn:H2].
  - injection H as ->. apply phrase_token_spec in H1; [|reflexivity].
    destruct H1 as (ph & r & ? & Hph & _ & ?). exists ph, r. rewrite Hph.
    repeat split; try assumption; vm_compute; auto.
  - injection H as ->. apply phrase_token_spec in H2; [|reflexivity].
    destruct H2 as (ph & r & ? & Hph & _ & ?). exists ph, r. rewrite Hph.
    repeat split; try assumption; vm_compute; auto.
  - apply phrase_token_spec in H; [|reflexivity].
    destruct H as (ph & r & ? & Hph & _ & ?). exists ph, r. rewrite Hph.
    repeat split; try assumption; vm_compute; auto.
Qed.

Lemma track_at_complete (ph r tok : string) :
  In (Str.lower ph) track_phrases -> token_at r = Some tok ->
  exists v, track_at (ph +:+ r) = Some (v, tok).
Proof.
  unfold track_at, track_phrases. intros Hin Htok.
  assert (Hspec : forall verb,
             Str.forallb is_lower_or_blank verb = true ->
             Str.lower ph = verb +:+ " my order" ->
             phrase_token verb (ph +:+ r)
             = Some (Str.take (String.length verb) ph, tok)).
  { intros verb Hverb Hph. apply phrase_token_spec; [assumption|].
    exists ph, r. auto. }
  destruct Hin as [Hph | [Hph | [Hph | []]]]; symmetry in Hph.
  - rewrite (Hspec "track" eq_refl Hph). eauto.
  - destruct (phrase_token "track" (ph +:+ r)) as [x|] eqn:H1.
    { apply phrase_token_first in H1; [|reflexivity].
      rewrite (occurrence_first ph r _ _ Hph) in H1. discriminate. }
    rewrite (Hspec "status of" eq_refl Hph). eauto.
  - destruct (phrase_token "track" (ph +:+ r)) as [x|] eqn:H1.
    { apply phrase_token_first in H1; [|reflexivity].
      rewrite (occurrence_first ph r _ _ Hph) in H1. discriminate. }
    destruct (phrase_token "status of" (ph +:+ r)) as [x|] eqn:H2.
    { apply phrase_token_first in H2; [|reflexivity].
      rewrite (occurrence_first ph r _ _ Hph) in H2. discriminate. }
    rewrite (Hspec "where is" eq_refl Hph). eauto.
Qed.

End ReFacts.

(** ** Facts: [re.search] and the track-order pattern *)

Module SearchFacts.
Import Chars Re CharsFacts StrFacts ReFacts.

Lemma search_from_eq (r : regex) (pv : option ascii) (s : string) :
  search_from r pv s
  = match match_at r (Cursor pv s) with
    | Some g => Some g
    | None =>
        match s with
        | EmptyString => None
        | String c s' => search_from r (Some c) s'
        end
    end.
Proof. destruct s; reflexivity. Qed.

Lemma app_eq_nil (a b : string) : "" = a +:+ b -> a = "" /\ b = "".
Proof. destruct a; [simpl; auto | rewrite app_cons; discriminate]. Qed.

(** The search fails exactly when the pattern matches at no position. *)
Lemma search_from_None (r : regex) :
  forall (s : string) (pv : option ascii),
    search_from r pv s = None <->
    forall pre post, s = pre +:+ post ->
                     match_at r (Cursor (Str.last pv pre) post) = None.
Proof.
  induction s as [|c s IH]; intros pv; rewrite search_from_eq.
  - split.
    + intros H pre post Heq. apply app_eq_nil in Heq. destruct Heq as [-> ->].
      simpl. destruct (match_at r (Cursor pv "")); congruence.
    + intros H. generalize (H "" "" eq_refl). simpl. now intros ->.
  - split.
    + intros H pre post Heq.
      destruct (match_at r (Cursor pv (String c s))) eqn:Hm; [discriminate|].
      destruct pre as [|x pre].
      * rewrite app_nil_l in Heq. subst post. exact Hm.
      * rewrite app_cons in Heq. injection Heq as <- ->.
        apply (IH (Some c)); [exact H | reflexivity].
    + intros H. generalize (H "" (String c s) eq_refl). simpl. intros ->.
      apply IH.
      intros pre post ->. apply (H (String c pre) post). reflexivity.
Qed.

(** The search returns the match at the first position that has one. *)
Lemma search_from_Some (r : regex) :
  forall (s : string) (pv : option ascii) (g : groups),
    search_from r pv s = Some g <->
    exists pre post,
      s = pre +:+ post
      /\ match_at r (Cursor (Str.last pv pre) post) = Some g
      /\ forall pre' post',
           s = pre' +:+ post' -> String.length pre' < String.length pre ->
           match_at r (Cursor (Str.last pv pre') post') = None.
Proof.
  induction s as [|c s IH]; intros pv g; rewrite search_from_eq.
  - split.
    + intros H. exists "", "". split; [reflexivity|].
      destruct (match_at r (Cursor pv "")) eqn:Hm; [|discriminate].
      split; [simpl; congruence|]. intros pre' post' _ Hlt. simpl in Hlt. lia.
    + intros (pre & post & Heq & Hm & _). apply app_eq_nil in Heq.
      destruct Heq as [-> ->]. simpl in Hm. now rewrite Hm.
  - split.
    + intros H. destruct (match_at r (Cursor pv (String c s))) eqn:Hm.
      * exists "", (String c s). split; [reflexivity|].
        split; [simpl; congruence|].
        intros pre' post' _ Hlt. simpl in Hlt. lia.
      * apply IH in H. destruct H as (pre & post & -> & Hg & Hfirst).
        exists (String c pre), post. split; [reflexivity|]. split; [exact Hg|].
        intros pre' post' Heq Hlt. destruct pre' as [|x pre'].
        -- rewrite app_nil_l in Heq. subst post'. exact Hm.
        -- rewrite !app_cons in Heq. injection Heq as <- Heq.
           apply (Hfirst pre' post' Heq). simpl in Hlt. lia.
    + intros (pre & post & Heq & Hg & Hfirst). destruct pre as [|x pre].
      * rewrite app_nil_l in Heq. subst post. simpl in Hg. now rewrite Hg.
      * rewrite app_cons in Heq. injection Heq as <- ->.
        assert (H0 : match_at r (Cursor pv (String c (pre +:+ post))) = None).
        { apply (Hfirst "" (String c (pre +:+ post)) eq_refl). simpl. lia. }
        rewrite H0.
        apply IH. exists pre, post. split; [reflexivity|]. split; [exact Hg|].
        intros pre' post' Heq Hlt. apply (Hfirst (String c pre') post').
        -- rewrite app_cons. now rewrite Heq.
        -- simpl. lia.
Qed.

(** A match of the track-order pattern after [pre] is an occurrence. *)
Lemma match_track_occurrence (pre s : string) (pv : option ascii) (g : groups) :
  match_at track_order_re (Cursor pv s) = Some g ->
  exists ph ws tok post v,
    track_occurrence (pre +:+ s) pre ph ws tok post /\ g = [(2, tok); (1, v)].
Proof.
  rewrite match_at_track. destruct (track_at s) as [[v tok]|] eqn:Hs; [|discriminate].
  intros [= <-]. apply track_at_sound in Hs. destruct Hs as (ph & r & -> & Hph & Htok).
  apply token_at_spec in Htok. destruct Htok as (ws & post & -> & Hws & Hne & Ha & Hp).
  exists ph, ws, tok, post, v. split; [|reflexivity].
  unfold track_occurrence. repeat (split; [first [reflexivity | assumption]|]).
  assumption.
Qed.

(** An occurrence is a match of the pattern where the phrase begins. *)
Lemma occurrence_match_track (q pre ph ws tok post : string) (pv : option ascii) :
  track_occurrence q pre ph ws tok post ->
  exists v,
    match_at track_order_re (Cursor pv (ph +:+ ws +:+ tok +:+ post))
    = Some [(2, tok); (1, v)].
Proof.
  intros (_ & Hph & Hws & Hne & Ha & Hp).
  assert (Htok : token_at (ws +:+ tok +:+ post) = Some tok).
  { apply token_at_spec. exists ws, post.
    repeat (split; [first [reflexivity | assumption]|]). assumption. }
  destruct (track_at_complete ph _ tok Hph Htok) as [v Hv].
  exists v. now rewrite match_at_track, Hv.
Qed.

Lemma search_track_first (q pre ph ws tok post : string) :
  first_track_occurrence q pre ph ws tok post ->
  exists v, search track_order_re q = Some [(2, tok); (1, v)].
Proof.
  intros [Hocc Hfirst].
  destruct (occurrence_match_track _ _ _ _ _ _ (Str.last None pre) Hocc) as [v Hv].
  exists v. apply search_from_Some.
  exists pre, (ph +:+ ws +:+ tok +:+ post).
  split; [apply Hocc|]. split; [exact Hv|].
  intros pre' post' Heq Hlt.
  destruct (match_at track_order_re (Cursor (Str.last None pre') post'))
    as [g'|] eqn:Hm; [|reflexivity].
  apply (match_track_occurrence pre') in Hm.
  destruct Hm as (ph' & ws' & tok' & post'' & v' & Hocc' & _).
  rewrite <- Heq in Hocc'. apply Hfirst in Hocc'. lia.
Qed.

Lemma search_track_Some (q : string) (g : groups) :
  search track_order_re q = Some g ->
  exists pre ph ws tok post v,
    first_track_occurrence q pre ph ws tok post /\ g = [(2, tok); (1, v)].
Proof.
  intros H. apply search_from_Some in H.
  destruct H as (pre & s & -> & Hm & Hnone).
  destruct (match_track_occurrence pre _ _ _ Hm)
    as (ph & ws & tok & post & v & Hocc & ->).
  exists pre, ph, ws, tok, post, v. split; [|reflexivity].
  split; [exact Hocc|].
  intros pre' ph' ws' tok' post' Hocc'.
  destruct (Nat.le_gt_cases (String.length pre) (String.length pre'))
    as [Hle | Hlt]; [exact Hle | exfalso].
  destruct (occurrence_match_track _ _ _ _ _ _ (Str.last None pre') Hocc')
    as [v' Hv'].
  rewrite (Hnone pre' _ (proj1 Hocc') Hlt) in Hv'. discriminate.
Qed.

Lemma search_track_None (q : string) :
  search track_order_re q = None <-> ~ has_track_occurrence q.
Proof.
  split.
  - intros H (pre & ph & ws & tok & post & Hocc).
    destruct (occurrence_match_track _ _ _ _ _ _ (Str.last None pre) Hocc) as [v Hv].
    unfold search in H.
    rewrite (proj1 (search_from_None _ _ _) H pre _ (proj1 Hocc)) in Hv.
    discriminate.
  - intros Hno. destruct (search track_order_re q) as [g|] eqn:H; [|reflexivity].
    exfalso. apply Hno. apply search_track_Some in H.
    destruct H as (pre & ph & ws & tok & post & v & [Hocc _] & _).
    exists pre, ph, ws, tok, post. exact Hocc.
Qed.

End SearchFacts.

(** ** Facts: the greeting pattern *)

Module GreetingFacts.
Import Chars Re CharsFacts StrFacts ReFacts SearchFacts.

(** One alternative of the group, followed by the closing [\b]. *)
Lemma run_greeting_word (w : string) (cur : cursor) :
  run (str false w) cur []
    (fun cur' g' => run Bnd cur' ((1, taken (rest cur) (rest cur')) :: g') accept)
  = if greeting_word_at cur w
    then Some [(1, taken (rest cur) (Str.drop (String.length w) (rest cur)))]
    else None.
Proof.
  rewrite run_str. unfold greeting_word_at.
  destruct (starts_with false w (rest cur)); [|reflexivity].
  rewrite run_Bnd. cbn [andb].
  destruct (at_boundary (advance (String.length w) cur)); reflexivity.
Qed.

(** The greeting pattern matches at a position exactly when [greeting_at]
    holds there. *)
Lemma match_at_greeting (cur : cursor) :
  match match_at greeting_re cur with Some _ => true | None => false end
  = greeting_at cur.
Proof.
  unfold match_at, greeting_re, greeting_at, greeting_words.
  rewrite run_Cat, run_Bnd.
  destruct (at_boundary cur); [|reflexivity]. cbn [andb existsb].
  rewrite run_Cat, run_Grp, !run_Alt, !run_greeting_word.
  repeat match goal with
         | |- context [greeting_word_at cur ?w] =>
             destruct (greeting_word_at cur w); try reflexivity
         end.
Qed.

Lemma word_at_lower (o : option ascii) :
  word_at (option_map lower_char o) = word_at o.
Proof. destruct o as [c|]; [apply is_word_lower | reflexivity]. Qed.

(** A greeting word begins and ends with a word character. *)
Lemma greeting_word_edges (w : string) (d : option ascii) (post : string) :
  In w greeting_words ->
  word_at (Str.head (w +:+ post)) = true /\ word_at (Str.last d w) = true.
Proof.
  unfold greeting_words. intros [<- | [<- | [<- | [<- | [<- | []]]]]];
    split; reflexivity.
Qed.

Lemma greeting_at_spec (pv : option ascii) (s : string) :
  greeting_at (Cursor pv s) = true <->
  exists w post,
    s = w +:+ post /\ In w greeting_words
    /\ word_at pv = false /\ word_at (Str.head post) = false.
Proof.
  unfold greeting_at. rewrite Bool.andb_true_iff, existsb_exists. split.
  - intros (Hb & w & Hin & Hw). unfold greeting_word_at in Hw.
    apply andb_prop in Hw. destruct Hw as [Hs Ha]. cbn [rest] in Hs.
    apply starts_with_exact in Hs. destruct Hs as [post ->].
    exists w, post. split; [reflexivity|]. split; [exact Hin|].
    destruct (greeting_word_edges w pv post Hin) as [Hhd Hlast].
    unfold at_boundary, advance in *. cbn [prev rest] in *.
    rewrite take_app, drop_app in Ha. rewrite Hhd in Hb. rewrite Hlast in Ha.
    split; [now destruct (word_at pv) | now destruct (word_at (Str.head post))].
  - intros (w & post & -> & Hin & Hpv & Hpost).
    destruct (greeting_word_edges w pv post Hin) as [Hhd Hlast].
    split.
    + unfold at_boundary. cbn [prev rest]. now rewrite Hpv, Hhd.
    + exists w. split; [exact Hin|]. unfold greeting_word_at. cbn [rest].
      apply andb_true_intro. split.
      * apply starts_with_exact. eauto.
      * unfold at_boundary, advance. cbn [prev rest].
        now rewrite take_app, drop_app, Hlast, Hpost.
Qed.

(** The search for the greeting pattern in the lower-cased query succeeds
    exactly when the query holds one of the words, up to case, as a whole
    word. *)
Lemma search_greeting (q : string) :
  search greeting_re (Str.lower q) <> None <-> has_greeting_occurrence q.
Proof.
  split.
  - intros H. destruct (search greeting_re (Str.lower q)) as [g|] eqn:Hs;
      [clear H | congruence].
    apply search_from_Some in Hs. destruct Hs as (pre_l & post_l & Hq & Hm & _).
    pose proof (match_at_greeting (Cursor (Str.last None pre_l) post_l)) as Hg.
    rewrite Hm in Hg. symmetry in Hg. apply greeting_at_spec in Hg.
    destruct Hg as (gw & post_l' & -> & Hin & Hprev & Hnext).
    set (n1 := String.length pre_l) in *. set (n2 := String.length gw) in *.
    assert (Hpre : Str.lower (Str.take n1 q) = pre_l).
    { unfold Str.lower in *. rewrite map_take, Hq. apply take_app. }
    assert (Hrest : Str.lower (Str.drop n1 q) = gw +:+ post_l').
    { unfold Str.lower in *. rewrite map_drop, Hq. apply drop_app. }
    assert (Hw : Str.lower (Str.take n2 (Str.drop n1 q)) = gw).
    { unfold Str.lower in *. rewrite map_take, Hrest. apply take_app. }
    assert (Hpost : Str.lower (Str.drop n2 (Str.drop n1 q)) = post_l').
    { unfold Str.lower in *. rewrite map_drop, Hrest. apply drop_app. }
    exists (Str.take n1 q), (Str.take n2 (Str.drop n1 q)),
      (Str.drop n2 (Str.drop n1 q)).
    split; [now rewrite !take_drop|]. split; [now rewrite Hw|]. split.
    + rewrite <- word_at_lower. change None with (option_map lower_char None).
      rewrite <- last_map. fold (Str.lower (Str.take n1 q)). now rewrite Hpre.
    + rewrite <- word_at_lower, <- head_map.
      fold (Str.lower (Str.drop n2 (Str.drop n1 q))). now rewrite Hpost.
  - intros (pre & w & post & -> & Hin & Hprev & Hnext) Hs.
    unfold search in Hs.
    pose proof (proj1 (search_from_None _ _ _) Hs (Str.lower pre)
                  (Str.lower w +:+ Str.lower post)) as Hm.
    unfold Str.lower in Hm at 1. rewrite !map_app in Hm. specialize (Hm eq_refl).
    pose proof (match_at_greeting
                  (Cursor (Str.last None (Str.lower pre))
                          (Str.lower w +:+ Str.lower post))) as Hg.
    rewrite Hm in Hg.
    assert (Hat : greeting_at
                    (Cursor (Str.last None (Str.lower pre))
                            (Str.lower w +:+ Str.lower post)) = true).
    { apply greeting_at_spec. exists (Str.lower w), (Str.lower post).
      split; [reflexivity|]. split; [exact Hin|]. split.
      - change None with (option_map lower_char None). unfold Str.lower.
        now rewrite last_map, word_at_lower.
      - unfold Str.lower. now rewrite head_map, word_at_lower. }
    congruence.
Qed.

End GreetingFacts.

(** ** Facts: the intent recognizer *)

Section Recognizer.
Import Re SearchFacts GreetingFacts.

Lemma recognize_cases (q : string) :
  recognize_intent_and_extract_entities q
  = match search track_order_re q with
    | Some m => track_result (Str.upper (default "" (group 2 m)))
    | None =>
        match search greeting_re (Str.lower q) with
        | Some _ => greeting_result
        | None => unknown_result
        end
    end.
Proof. reflexivity. Qed.

(** The second group took part in every match of the track-order pattern. *)
Lemma track_search_group2 (q : string) (m : groups) :
  search track_order_re q = Some m -> exists tok, group 2 m = Some tok.
Proof.
  intros H. apply search_track_Some in H.
  destruct H as (pre & ph & ws & tok & post & v & _ & ->). exists tok. reflexivity.
Qed.

(** What [str.upper] receives is made of ASCII letters and digits. *)
Lemma track_token_alnum (q : string) (m : groups) :
  search track_order_re q = Some m ->
  Str.forallb Chars.is_ascii_alnum (default "" (group 2 m)) = true.
Proof.
  intros H. apply search_track_Some in H.
  destruct H as (pre & ph & ws & tok & post & v & [Hocc _] & ->).
  simpl. apply Hocc.
Qed.

Lemma recognize_first_occurrence (q pre ph ws tok post : string) :
  first_track_occurrence q pre ph ws tok post ->
  recognize_intent_and_extract_entities q = track_result (Str.upper tok).
Proof.
  intros H. apply search_track_first in H. destruct H as [v Hv].
  rewrite recognize_cases, Hv. reflexivity.
Qed.

Lemma recognize_occurrence (q : string) :
  has_track_occurrence q ->
  exists pre ph ws tok post,
    first_track_occurrence q pre ph ws tok post
    /\ recognize_intent_and_extract_entities q = track_result (Str.upper tok).
Proof.
  intros H. destruct (search track_order_re q) as [m|] eqn:Hs.
  - apply search_track_Some in Hs.
    destruct Hs as (pre & ph & ws & tok & post & v & Hfirst & ->).
    exists pre, ph, ws, tok, post. split; [exact Hfirst|].
    eapply recognize_first_occurrence. exact Hfirst.
  - apply search_track_None in Hs. contradiction.
Qed.


End Recognizer.

(** ** Facts: the action endpoint *)

Lemma mocked_message_contains (order_id : string) :
  is_substring order_id (mocked_message order_id)
  /\ is_substring "Tomorrow" (mocked_message order_id).
Proof.
  unfold mocked_message, is_substring. split.
  - exists "Mocked: Order ",
      " is currently out for delivery. Estimated arrival: Tomorrow.".
    reflexivity.
  - exists ("Mocked: Order " +:+ order_id
            +:+ " is currently out for delivery. Estimated arrival: "), ".".
    rewrite !StrFacts.app_assoc. reflexivity.
Qed.

(** C5: when the recognized intent is [track_order] the response keeps the
    intent and the entities and carries the mocked delivery message, which
    names the extracted order id and "Tomorrow" and is not the recognizer's
    message; for every other intent the response is the recognizer's
    result, message included. *)
Theorem action_post_processing (q : string) (st : state) :
  let result := recognize_intent_and_extract_entities q in
  (IntentResult.intent result = "track_order" ->
     exists order_id,
       IntentResult.entities result = {[ "order_id" := order_id ]}
       /\ perform_action {| ActionQuery.query := q |} st
          = (Ok 200 {| ActionResponse.intent := "track_order";
                       ActionResponse.entities := {[ "order_id" := order_id ]};
                       ActionResponse.message :=
                         "Mocked: Order " +:+ order_id
                         +:+ " is currently out for delivery. Estimated arrival: Tomorrow." |},
             st)
       /\ is_substring order_id (mocked_message order_id)
       /\ is_substring "Tomorrow" (mocked_message order_id)
       /\ mocked_message order_id <> IntentResult.message result)
  /\ (IntentResult.intent result <> "track_order" ->
        perform_action {| ActionQuery.query := q |} st
        = (Ok 200 {| ActionResponse.intent := IntentResult.intent result;
                     ActionResponse.entities := IntentResult.entities result;
                     ActionResponse.message := IntentResult.message result |},
           st)).
Proof.
  intros result. subst result. unfold perform_action. cbn [ActionQuery.query].
  rewrite recognize_cases.
  destruct (Re.search Re.track_order_re q) as [m|];
    [|destruct (Re.search Re.greeting_re (Str.lower q)) as [g|]].
  - split; [intros _ | intros H; now contradiction H].
    exists (Str.upper (default "" (Re.group 2 m))).
    split; [reflexivity|]. split.
    + unfold track_result. cbn [IntentResult.intent IntentResult.entities].
      rewrite String.eqb_refl, lookup_singleton_eq. reflexivity.
    + split; [apply mocked_message_contains|].
      split; [apply mocked_message_contains|]. discriminate.
  - split; [discriminate | intros _; reflexivity].
  - split; [discriminate | intros _; reflexivity].
Qed.

(** ** The recognizer on concrete queries *)

Example recognize_any_word :
  recognize_intent_and_extract_entities "where is my order please"
  = {| IntentResult.intent := "track_order";
       IntentResult.entities := {[ "order_id" := "PLEASE" ]};
       IntentResult.message := "Fetching status for order PLEASE..." |}.
Proof. vm_compute. reflexivity. Qed.

Example recognize_truncated_token :
  recognize_intent_and_extract_entities "track my order ORD-123"
  = {| IntentResult.intent := "track_order";
       IntentResult.entities := {[ "order_id" := "ORD" ]};
       IntentResult.message := "Fetching status for order ORD..." |}.
Proof. vm_compute. reflexivity. Qed.

Example recognize_track_before_greeting :
  has_greeting_occurrence "Hello, track my order 42"
  /\ IntentResult.intent (recognize_intent_and_extract_entities "Hello, track my order 42")
     = "track_order".
Proof.
  split; [|vm_compute; reflexivity].
  exists "", "Hello", ", track my order 42".
  split; [reflexivity|]. split; [vm_compute; tauto|]. split; reflexivity.
Qed.

Example recognize_greeting :
  recognize_intent_and_extract_entities "hello there" = greeting_result.
Proof. vm_compute. reflexivity. Qed.

Example recognize_unknown :
  recognize_intent_and_extract_entities "asdkjasd" = unknown_result.
Proof. vm_compute. reflexivity. Qed.

Example perform_action_track :
  (perform_action {| ActionQuery.query := "Track my order ORD12345" |} initial_state).1
  = Ok 200 {| ActionResponse.intent := "track_order";
              ActionResponse.entities := {[ "order_id" := "ORD12345" ]};
              ActionResponse.message :=
                "Mocked: Order ORD12345 is currently out for delivery. Estimated arrival: Tomorrow." |}.
Proof. vm_compute. reflexivity. Qed.

(** ** Facts: the tables of the recognizer over all code points *)

Module UnicodeTables.
Import Unicode.

Lemma code_points_spec (p : N -> bool) (n : N) :
  forallb p (code_points n) = true ->
  forall c, (c < n)%N -> p c = true.
Proof.
  unfold code_points. rewrite forallb_forall. intros H c Hc.
  apply H. apply in_map_iff. exists (N.to_nat c). split; [apply N2Nat.id|].
  apply in_seq. lia.
Qed.

(** Beyond U+212A every test of the tables is settled by the bound. *)
Ltac beyond c :=
  repeat first
    [ match goal with
      | |- context [N.leb c ?k] => rewrite (proj2 (N.leb_gt c k)) by lia
      | |- context [N.eqb c ?k] => rewrite (proj2 (N.eqb_neq c k)) by lia
      | |- context [N.eqb ?k c] => rewrite (proj2 (N.eqb_neq k c)) by lia
      | |- context [N.leb ?k c] => rewrite (proj2 (N.leb_le k c)) by lia
      end
    | progress cbn [andb orb negb existsb] ].

Ltac tables :=
  unfold literal, ignorecase, class_AZ09, fold_char, ascii_upper_char, upper_char,
    is_token_char, is_order_id_char, is_space, is_variant, is_lower_or_blank,
    is_ascii_upper, is_ascii_lower, is_ascii_digit, in_range in *.

(** Under [re.IGNORECASE] the set [[A-Z0-9]] takes the ASCII letters and
    digits and U+0130, U+0131, U+017F and U+212A. *)
Lemma class_ignorecase (c : N) : ignorecase class_AZ09 c = is_token_char c.
Proof.
  destruct (N.lt_ge_cases c 0x212B) as [Hlt | Hge].
  - apply Bool.eqb_prop.
    apply (code_points_spec
             (fun c => Bool.eqb (ignorecase class_AZ09 c) (is_token_char c)) 0x212B);
      [vm_compute; reflexivity | exact Hlt].
  - tables. beyond c. reflexivity.
Qed.

Lemma space_not_token (c : N) : is_space c = true -> is_token_char c = false.
Proof.
  destruct (N.lt_ge_cases c 0x212B) as [Hlt | Hge].
  - intros Hs.
    pose proof (code_points_spec
                  (fun c => implb (is_space c) (negb (is_token_char c))) 0x212B
                  ltac:(vm_compute; reflexivity) c Hlt) as H.
    cbv beta in H. rewrite Hs in H. simpl in H. now destruct (is_token_char c).
  - intros _. tables. beyond c. reflexivity.
Qed.

(** The upper case of a token character is a capital, a digit, U+0130 or
    U+212A. *)
Lemma upper_token_char (c : N) :
  is_token_char c = true -> is_order_id_char (upper_char c) = true.
Proof.
  destruct (N.lt_ge_cases c 0x212B) as [Hlt | Hge].
  - intros Hs.
    pose proof (code_points_spec
                  (fun c => implb (is_token_char c) (is_order_id_char (upper_char c)))
                  0x212B ltac:(vm_compute; reflexivity) c Hlt) as H.
    cbv beta in H. now rewrite Hs in H.
  - tables. beyond c. discriminate.
Qed.

(** A letter or blank of the pattern matches, under [re.IGNORECASE], the
    code points listed by [variants]. *)
Lemma literal_variants (c x : N) :
  is_lower_or_blank c = true -> literal true c x = is_variant c x.
Proof.
  intros Hc.
  assert (Hc' : (c < 123)%N).
  { tables. destruct (N.leb_spec c 0x7A); [lia|].
    rewrite Bool.andb_false_r in Hc. simpl in Hc.
    apply N.eqb_eq in Hc. lia. }
  destruct (N.lt_ge_cases x 0x212B) as [Hlt | Hge].
  - pose proof (code_points_spec
                  (fun x => forallb
                     (fun c => implb (is_lower_or_blank c)
                                 (Bool.eqb (literal true c x) (is_variant c x)))
                     (code_points 123))
                  0x212B ltac:(vm_compute; reflexivity) x Hlt) as H.
    cbv beta in H.
    pose proof (code_points_spec _ _ H c Hc') as H'. cbv beta in H'.
    rewrite Hc in H'. now apply Bool.eqb_prop.
  - unfold is_variant, variants. tables. beyond x.
    destruct (_ && _); repeat (destruct (c =? _)%N); cbn [existsb];
      beyond x; reflexivity.
Qed.

End UnicodeTables.

(** ** Facts: the matcher over all code points *)

Module UnicodeFacts.
Import Unicode UnicodeTables.

Lemma cp_span_spec (p : N -> bool) (s : str) :
  s = (span p s).1 ++ (span p s).2
  /\ forallb p (span p s).1 = true
  /\ stops p (span p s).2.
Proof.
  induction s as [|c s IH]; simpl.
  - repeat split.
  - destruct (p c) eqn:Hc.
    + destruct (span p s) as [a b]. simpl in *. destruct IH as (-> & Ha & Hb).
      rewrite Hc. repeat split; assumption.
    + simpl. repeat split. unfold stops. simpl. exact Hc.
Qed.

Lemma cp_span_app (p : N -> bool) (a b : str) :
  forallb p a = true -> stops p b -> span p (a ++ b) = (a, b).
Proof.
  intros Ha Hb. induction a as [|c a IH]; simpl in *.
  - destruct b as [|x b]; [reflexivity|]. unfold stops in Hb. simpl in *.
    now rewrite Hb.
  - apply andb_prop in Ha. destruct Ha as [Hc Ha]. rewrite Hc, (IH Ha). reflexivity.
Qed.

Lemma last_of_app (d : option N) (a b : str) :
  last_of d (a ++ b) = last_of (last_of d a) b.
Proof. revert d. induction a as [|c a IH]; intros d; simpl; [reflexivity | apply IH]. Qed.

Lemma cp_advance_0 (cur : cursor) : advance 0 cur = cur.
Proof. destruct cur as [pv s]. unfold advance. simpl. now rewrite drop_0. Qed.

Lemma cp_advance_S (n : nat) (pv : option N) (c : N) (s : str) :
  advance (S n) (Cursor pv (c :: s)) = advance n (Cursor (Some c) s).
Proof. reflexivity. Qed.

Lemma cp_taken_app (a b : str) : taken (a ++ b) b = a.
Proof.
  unfold taken. rewrite length_app.
  replace (List.length a + List.length b - List.length b) with (List.length a) by lia.
  apply take_app_length.
Qed.

Lemma cp_taken_drop (n : nat) (s : str) :
  n <= List.length s -> taken s (drop n s) = take n s.
Proof. intros H. unfold taken. rewrite length_drop. f_equal. lia. Qed.

Lemma cp_starts_with_length (ci : bool) (w s : str) :
  starts_with ci w s = true -> List.length w <= List.length s.
Proof.
  revert s. induction w as [|c w IH]; intros [|x s] H; simpl in *;
    try lia; try discriminate.
  apply andb_prop in H. destruct H as [_ H]. apply IH in H. lia.
Qed.

(** Greedy repetition returns what the rest of the pattern makes of the
    longest run, when that succeeds. *)
Lemma cp_repeat_first {A : Type} (p : N -> bool) (k : cursor -> option A) (x : A) :
  forall (s : str) (min : nat) (pv : option N),
    min <= List.length (span p s).1 ->
    k (Cursor (last_of pv (span p s).1) (span p s).2) = Some x ->
    repeat p k min pv s = Some x.
Proof.
  induction s as [|c s IH]; intros min pv Hmin Hk; simpl in *.
  - destruct min; [exact Hk | lia].
  - destruct (p c) eqn:Hc.
    + destruct (span p s) as [a b] eqn:Hsp. simpl in *.
      rewrite (IH (Nat.pred min) (Some c)); [reflexivity | lia | exact Hk].
    + simpl in *. destruct min; [exact Hk | lia].
Qed.

(** Greedy repetition fails when the rest of the pattern fails after every
    admissible number of characters of the run. *)
Lemma cp_repeat_none {A : Type} (p : N -> bool) (k : cursor -> option A) :
  forall (s : str) (min : nat) (pv : option N),
    (forall j, min <= j <= List.length (span p s).1 ->
               k (advance j (Cursor pv s)) = None) ->
    repeat p k min pv s = None.
Proof.
  induction s as [|c s IH]; intros min pv Hk; simpl in *.
  - destruct min; [|reflexivity]. apply (Hk 0). lia.
  - assert (Hstop : match min with
                    | 0 => k (Cursor pv (c :: s))
                    | S _ => None
                    end = None).
    { destruct min; [|reflexivity]. rewrite <- (cp_advance_0 (Cursor pv _)).
      apply Hk. lia. }
    destruct (p c) eqn:Hc; [|exact Hstop].
    rewrite IH; [exact Hstop|].
    intros j Hj. rewrite <- (cp_advance_S j pv c s). apply Hk.
    destruct (span p s) as [a b]. simpl in *. lia.
Qed.

Lemma cp_drop_in_run (p : N -> bool) (a b : str) (j : nat) :
  forallb p a = true -> j < List.length a ->
  exists c t, drop j (a ++ b) = c :: t /\ p c = true.
Proof.
  revert j. induction a as [|x a IH]; intros j Ha Hj; simpl in *; [lia|].
  apply andb_prop in Ha. destruct Ha as [Hx Ha].
  destruct j as [|j]; simpl.
  - eauto.
  - apply IH; [assumption | lia].
Qed.

Section Matcher.
Variable is_word : N -> bool.

Lemma cp_run_Cat {A : Type} r1 r2 cur g (k : cursor -> groups -> option A) :
  run is_word (Cat r1 r2) cur g k
  = run is_word r1 cur g (fun cur' g' => run is_word r2 cur' g' k).
Proof. reflexivity. Qed.

Lemma cp_run_Alt {A : Type} r1 r2 cur g (k : cursor -> groups -> option A) :
  run is_word (Alt r1 r2) cur g k
  = match run is_word r1 cur g k with
    | Some x => Some x
    | None => run is_word r2 cur g k
    end.
Proof. reflexivity. Qed.

Lemma cp_run_Rep {A : Type} min p cur g (k : cursor -> groups -> option A) :
  run is_word (Rep min p) cur g k
  = repeat p (fun cur' => k cur' g) min (prev cur) (rest cur).
Proof. reflexivity. Qed.

Lemma cp_run_Grp {A : Type} n r cur g (k : cursor -> groups -> option A) :
  run is_word (Grp n r) cur g k
  = run is_word r cur g
      (fun cur' g' => k cur' ((n, taken (rest cur) (rest cur')) :: g')).
Proof. reflexivity. Qed.

(** A literal string is matched in one piece. *)
Lemma run_lit {A : Type} (ci : bool) (w : str) :
  forall (cur : cursor) (g : groups) (k : cursor -> groups -> option A),
    run is_word (lit ci w) cur g k
    = if starts_with ci w (rest cur) then k (advance (List.length w) cur) g
      else None.
Proof.
  induction w as [|c w IH]; intros [pv s] g k.
  - simpl. now rewrite cp_advance_0.
  - simpl. destruct s as [|x s]; [reflexivity|].
    destruct (literal ci c x); [|reflexivity].
    simpl. rewrite IH. reflexivity.
Qed.

(** The second group, [([A-Z0-9]+)], captures the longest run of the set,
    which must not be empty. *)
Lemma cp_run_token (pv : option N) (s : str) (g : groups) :
  run is_word (Grp 2 (Rep 1 (ignorecase class_AZ09))) (Cursor pv s) g accept
  = match (span (ignorecase class_AZ09) s).1 with
    | [] => None
    | (_ :: _) as tok => Some ((2, tok) :: g)
    end.
Proof.
  rewrite cp_run_Grp, cp_run_Rep. cbn [prev rest].
  pose proof (cp_span_spec (ignorecase class_AZ09) s) as (Hs & _ & _).
  destruct (span (ignorecase class_AZ09) s) as [tok r] eqn:Hsp. simpl in *.
  destruct tok as [|c tok].
  - apply cp_repeat_none. intros j Hj. rewrite Hsp in Hj. simpl in Hj. lia.
  - apply cp_repeat_first; rewrite Hsp; simpl; [lia|]. unfold accept.
    cbn [rest]. pose proof (cp_taken_app (c :: tok) r) as Ht.
    rewrite <- Hs in Ht. now rewrite Ht.
Qed.

(** [\s*([A-Z0-9]+)] at the end of the pattern. *)
Lemma cp_run_tail (pv : option N) (s : str) (g : groups) :
  run is_word (Cat (Rep 0 is_space) (Grp 2 (Rep 1 (ignorecase class_AZ09))))
    (Cursor pv s) g accept
  = option_map (fun tok => (2, tok) :: g) (token_at s).
Proof.
  rewrite cp_run_Cat, cp_run_Rep. cbn [prev rest]. unfold token_at.
  pose proof (cp_span_spec is_space s) as (Hs & Hws & _).
  destruct (span is_space s) as [ws r] eqn:Hsp. simpl in Hs, Hws. cbn [snd].
  destruct (span (ignorecase class_AZ09) r).1 as [|c tok] eqn:Htok.
  - apply cp_repeat_none. intros j Hj. rewrite Hsp in Hj. simpl in Hj.
    destruct (advance j (Cursor pv s)) as [pv' s'] eqn:Hadv.
    assert (Hs' : s' = drop j s) by (now injection Hadv).
    rewrite cp_run_token.
    destruct (Nat.eq_dec j (List.length ws)) as [-> | Hne].
    + rewrite Hs', Hs, drop_app_length, Htok. reflexivity.
    + destruct (cp_drop_in_run is_space ws r j Hws) as (x & t & Hd & Hx); [lia|].
      rewrite Hs', Hs, Hd. simpl.
      rewrite class_ignorecase, (space_not_token _ Hx). reflexivity.
  - apply cp_repeat_first; rewrite Hsp; cbn [fst snd]; [lia|].
    rewrite cp_run_token, Htok. reflexivity.
Qed.

Lemma cp_run_track_tail (pv : option N) (s : str) (g : groups) :
  run is_word track_tail (Cursor pv s) g accept
  = if starts_with true (of_string " my order") s
    then option_map (fun tok => (2, tok) :: g) (token_at (drop 9 s))
    else None.
Proof.
  unfold track_tail. rewrite cp_run_Cat, run_lit. cbn [rest].
  destruct (starts_with true (of_string " my order") s); [|reflexivity].
  change (List.length (of_string " my order")) with 9.
  destruct (advance 9 (Cursor pv s)) as [pv' s'] eqn:Hadv.
  assert (Hs' : s' = drop 9 s) by (now injection Hadv).
  rewrite cp_run_tail, Hs'. reflexivity.
Qed.

(** One alternative of the first group, followed by the rest of the
    pattern. *)
Lemma cp_run_verb (verb : str) (pv : option N) (s : str) :
  run is_word (lit true verb) (Cursor pv s) []
    (fun cur' g' =>
       run is_word track_tail cur' ((1, taken s (rest cur')) :: g') accept)
  = option_map (fun vt => [(2, vt.2); (1, vt.1)]) (phrase_token verb s).
Proof.
  rewrite run_lit. cbn [rest]. unfold phrase_token.
  destruct (starts_with true verb s) eqn:Hv; [|reflexivity]. cbn [andb].
  destruct (advance (List.length verb) (Cursor pv s)) as [pv' s'] eqn:Hadv.
  assert (Hs' : s' = drop (List.length verb) s) by (now injection Hadv).
  rewrite cp_run_track_tail. cbn [rest]. rewrite Hs'.
  destruct (starts_with true (of_string " my order") _); [|reflexivity].
  rewrite drop_drop, cp_taken_drop by (eapply cp_starts_with_length; eassumption).
  destruct (token_at _); reflexivity.
Qed.

(** The track-order pattern at one position. *)
Lemma cp_match_at_track (pv : option N) (s : str) :
  match_at is_word track_order_re (Cursor pv s)
  = option_map (fun vt => [(2, vt.2); (1, vt.1)]) (track_at s).
Proof.
  unfold match_at, track_order_re, track_at.
  rewrite cp_run_Cat, cp_run_Grp, !cp_run_Alt. cbn [rest]. rewrite !cp_run_verb.
  destruct (phrase_token (of_string "track") s); [reflexivity|].
  destruct (phrase_token (of_string "status of") s); reflexivity.
Qed.

End Matcher.


(** *** The track-order pattern read as a statement about the subject *)

Lemma eq_ignorecase_length (w u : str) :
  eq_ignorecase w u = true -> List.length u = List.length w.
Proof.
  revert u. induction w as [|c w IH]; intros [|x u] H; simpl in *;
    try discriminate; [reflexivity|].
  apply andb_prop in H. destruct H as [_ H]. now rewrite (IH u H).
Qed.

Lemma eq_ignorecase_app (w1 w2 u1 u2 : str) :
  eq_ignorecase w1 u1 = true -> eq_ignorecase w2 u2 = true ->
  eq_ignorecase (w1 ++ w2) (u1 ++ u2) = true.
Proof.
  revert u1. induction w1 as [|c w1 IH]; intros [|x u1] H1 H2; simpl in *;
    try discriminate; [exact H2|].
  apply andb_prop in H1. destruct H1 as [Hx H1]. rewrite Hx. simpl. now apply IH.
Qed.

Lemma eq_ignorecase_split (w1 w2 u : str) :
  eq_ignorecase (w1 ++ w2) u = true ->
  eq_ignorecase w1 (take (List.length w1) u) = true
  /\ eq_ignorecase w2 (drop (List.length w1) u) = true.
Proof.
  revert u. induction w1 as [|c w1 IH]; intros u H; simpl in *.
  - split; [reflexivity|]. now rewrite drop_0.
  - destruct u as [|x u]; [discriminate|]. simpl.
    apply andb_prop in H. destruct H as [Hx H]. rewrite Hx. simpl. now apply IH.
Qed.

(** Under [re.IGNORECASE] a literal matches the prefixes that are the
    literal up to the variants of its characters. *)
Lemma cp_starts_with_ci (w s : str) :
  forallb is_lower_or_blank w = true ->
  starts_with true w s = true
  <-> exists u post, s = u ++ post /\ eq_ignorecase w u = true.
Proof.
  revert s. induction w as [|c w IH]; intros s Hw.
  - split; [|reflexivity]. intros _. exists [], s. split; reflexivity.
  - simpl in Hw. apply andb_prop in Hw. destruct Hw as [Hc Hw]. split.
    + destruct s as [|x s]; cbn [starts_with]; [discriminate|].
      rewrite (literal_variants c x Hc). intros H. apply andb_prop in H.
      destruct H as [Hx H]. apply (IH s Hw) in H. destruct H as (u & post & -> & Hu).
      exists (x :: u), post. split; [reflexivity|]. simpl. now rewrite Hx, Hu.
    + intros (u & post & -> & Hu). destruct u as [|x u]; [discriminate|].
      cbn [eq_ignorecase] in Hu. apply andb_prop in Hu. destruct Hu as [Hx Hu].
      change ((x :: u) ++ post) with (x :: (u ++ post)). cbn [starts_with].
      rewrite (literal_variants c x Hc), Hx. cbn [andb].
      apply (IH _ Hw). eauto.
Qed.

Lemma span_ext (p q : N -> bool) (s : str) :
  (forall c, p c = q c) -> span p s = span q s.
Proof.
  intros H. induction s as [|c s IH]; simpl; [reflexivity|].
  now rewrite H, IH.
Qed.

Lemma token_at_eq (s : str) :
  token_at s
  = match (span is_token_char (span is_space s).2).1 with
    | [] => None
    | (_ :: _) as tok => Some tok
    end.
Proof.
  unfold token_at. rewrite (span_ext _ _ _ class_ignorecase).
  now destruct (span is_token_char (span is_space s).2).1.
Qed.

Lemma stops_token_space (tok post : str) :
  tok <> [] -> forallb is_token_char tok = true -> stops is_space (tok ++ post).
Proof.
  destruct tok as [|c tok]; [congruence|]. intros _ H. simpl in H.
  apply andb_prop in H. destruct H as [Hc _].
  unfold stops. simpl.
  destruct (is_space c) eqn:Hs; [|reflexivity].
  apply space_not_token in Hs. congruence.
Qed.

(** [token_at] finds a token exactly where white space is followed by a run
    of token characters that is not empty, and returns the whole run. *)
Lemma cp_token_at_spec (s tok : str) :
  token_at s = Some tok <->
  exists ws post,
    s = ws ++ tok ++ post
    /\ forallb is_space ws = true
    /\ tok <> []
    /\ forallb is_token_char tok = true
    /\ stops is_token_char post.
Proof.
  rewrite token_at_eq. split.
  - pose proof (cp_span_spec is_space s) as (Hs & Hws & _).
    destruct (span is_space s) as [ws r]. cbn [fst snd] in *.
    pose proof (cp_span_spec is_token_char r) as (Hr & Htok & Hpost).
    destruct (span is_token_char r) as [tok' post]. cbn [fst snd] in *.
    destruct tok' as [|c tok']; [discriminate|]. intros [= <-].
    exists ws, post. rewrite <- Hr. split; [exact Hs|]. split; [exact Hws|].
    split; [discriminate|]. split; assumption.
  - intros (ws & post & -> & Hws & Hne & Htok & Hpost).
    rewrite (cp_span_app is_space ws (tok ++ post) Hws (stops_token_space _ _ Hne Htok)).
    cbn [snd]. rewrite (cp_span_app is_token_char tok post Htok Hpost).
    cbn [fst]. destruct tok; [congruence | reflexivity].
Qed.

Lemma cp_phrase_token_spec (verb s v tok : str) :
  forallb is_lower_or_blank verb = true ->
  phrase_token verb s = Some (v, tok) <->
  exists ph r,
    s = ph ++ r
    /\ eq_ignorecase (verb ++ of_string " my order") ph = true
    /\ v = take (List.length verb) ph
    /\ token_at r = Some tok.
Proof.
  intros Hverb. unfold phrase_token. split.
  - destruct (starts_with true verb s) eqn:Hv; [|discriminate].
    destruct (starts_with true (of_string " my order") _) eqn:Ho; [|discriminate].
    cbn [andb]. intros H.
    apply (cp_starts_with_ci verb s Hverb) in Hv. destruct Hv as (u1 & p1 & -> & Hu1).
    pose proof (eq_ignorecase_length _ _ Hu1) as Hn.
    rewrite <- Hn, drop_app_length in Ho.
    apply cp_starts_with_ci in Ho; [|reflexivity]. destruct Ho as (u2 & p2 & -> & Hu2).
    pose proof (eq_ignorecase_length _ _ Hu2) as H9.
    change (List.length (of_string " my order")) with 9 in H9.
    rewrite <- drop_drop, <- Hn, drop_app_length, <- H9, drop_app_length,
      take_app_length in H.
    destruct (token_at p2) as [tok'|] eqn:Htok; [|discriminate].
    injection H as <- <-.
    exists (u1 ++ u2), p2. rewrite <- app_assoc. split; [reflexivity|].
    split; [now apply eq_ignorecase_app|].
    split; [now rewrite <- Hn, take_app_length | exact Htok].
  - intros (ph & r & -> & Hph & -> & Htok).
    set (n := List.length verb).
    apply eq_ignorecase_split in Hph. fold n in Hph. destruct Hph as [H1 H2].
    pose proof (eq_ignorecase_length _ _ H1) as Hn. fold n in Hn.
    pose proof (eq_ignorecase_length _ _ H2) as H9.
    change (List.length (of_string " my order")) with 9 in H9.
    assert (Hsplit : ph ++ r = take n ph ++ (drop n ph ++ r)).
    { now rewrite app_assoc, take_drop. }
    assert (Hd : drop n (ph ++ r) = drop n ph ++ r).
    { rewrite Hsplit at 1. rewrite <- Hn at 1. apply drop_app_length. }
    assert (Hv : starts_with true verb (ph ++ r) = true).
    { apply (cp_starts_with_ci verb _ Hverb). eauto. }
    assert (Ho : starts_with true (of_string " my order") (drop n (ph ++ r)) = true).
    { rewrite Hd. apply cp_starts_with_ci; [reflexivity | eauto]. }
    rewrite Hv, Ho. cbn [andb].
    rewrite <- drop_drop, Hd, <- H9, drop_app_length, Htok. cbn [option_map].
    do 2 f_equal. rewrite Hsplit. rewrite <- Hn at 1. apply take_app_length.
Qed.

Lemma cp_phrase_token_first (c : N) (verb s : str) (x : str * str) :
  is_lower_or_blank c = true ->
  phrase_token (c :: verb) s = Some x ->
  exists a s', s = a :: s' /\ is_variant c a = true.
Proof.
  intros Hc. unfold phrase_token.
  destruct s as [|a s]; [discriminate|]. cbn [starts_with].
  rewrite (literal_variants c a Hc).
  destruct (is_variant c a) eqn:Ha; [|discriminate].
  intros _. exists a, s. split; [reflexivity | exact Ha].
Qed.

Lemma cp_occurrence_first (ph r : str) (c : N) (w : str) :
  eq_ignorecase (c :: w) ph = true ->
  exists a s', ph ++ r = a :: s' /\ is_variant c a = true.
Proof.
  destruct ph as [|a ph]; [discriminate|]. simpl. intros H.
  apply andb_prop in H. destruct H as [H _]. eauto.
Qed.

(** The three phrases begin with letters that share no variant. *)
Lemma first_letters_apart (a : N) :
  (is_variant 0x74 a = true -> is_variant 0x73 a = false /\ is_variant 0x77 a = false)
  /\ (is_variant 0x73 a = true -> is_variant 0x77 a = false).
Proof.
  split; intros H.
  - assert (Ha : a = 0x74%N \/ a = 0x54%N).
    { vm_compute variants in H. unfold is_variant in H. vm_compute variants in H.
      simpl in H. destruct (N.eqb_spec a 0x74); [now left|].
      destruct (N.eqb_spec a 0x54); [now right | discriminate]. }
    destruct Ha as [-> | ->]; split; reflexivity.
  - assert (Ha : a = 0x73%N \/ a = 0x53%N \/ a = 0x17F%N).
    { unfold is_variant in H. vm_compute variants in H.
      simpl in H. destruct (N.eqb_spec a 0x73); [now left|].
      destruct (N.eqb_spec a 0x53); [now right; left|].
      destruct (N.eqb_spec a 0x17F); [now right; right | discriminate]. }
    destruct Ha as [-> | [-> | ->]]; reflexivity.
Qed.

(** The pattern matches at the start of [s] with token [tok] exactly when
    [s] begins with one of the three phrases, as [re.IGNORECASE] reads
    them, followed by white space and the run [tok]. *)
Lemma cp_track_at_sound (s v tok : str) :
  track_at s = Some (v, tok) ->
  exists ph r,
    s = ph ++ r /\ is_track_phrase ph = true /\ token_at r = Some tok.
Proof.
  unfold track_at, is_track_phrase, track_phrases. intros H. cbn [existsb].
  destruct (phrase_token (of_string "track") s) as [x|] eqn:H1;
    [|destruct (phrase_token (of_string "status of") s) as [x|] eqn:H2].
  - injection H as ->. apply cp_phrase_token_spec in H1; [|reflexivity].
    destruct H1 as (ph & r & ? & Hph & _ & ?). exists ph, r.
    change (of_string "track" ++ of_string " my order")
      with (of_string "track my order") in Hph.
    rewrite Hph. auto.
  - injection H as ->. apply cp_phrase_token_spec in H2; [|reflexivity].
    destruct H2 as (ph & r & ? & Hph & _ & ?). exists ph, r.
    change (of_string "status of" ++ of_string " my order")
      with (of_string "status of my order") in Hph.
    rewrite Hph, Bool.orb_true_r. auto.
  - apply cp_phrase_token_spec in H; [|reflexivity].
    destruct H as (ph & r & ? & Hph & _ & ?). exists ph, r.
    change (of_string "where is" ++ of_string " my order")
      with (of_string "where is my order") in Hph.
    rewrite Hph, !Bool.orb_true_r. auto.
Qed.

Lemma cp_track_at_complete (ph r tok : str) :
  is_track_phrase ph = true -> token_at r = Some tok ->
  exists v, track_at (ph ++ r) = Some (v, tok).
Proof.
  unfold track_at, is_track_phrase, track_phrases. cbn [existsb].
  intros Hin Htok.
  assert (Hspec : forall verb,
             forallb is_lower_or_blank verb = true ->
             eq_ignorecase (verb ++ of_string " my order") ph = true ->
             phrase_token verb (ph ++ r)
             = Some (take (List.length verb) ph, tok)).
  { intros verb Hverb Hph. apply cp_phrase_token_spec; [assumption|].
    exists ph, r. auto. }
  assert (Hapart : forall c w c' verb x,
             eq_ignorecase (c :: w) ph = true ->
             is_lower_or_blank c' = true ->
             phrase_token (c' :: verb) (ph ++ r) = Some x ->
             exists a, is_variant c a = true /\ is_variant c' a = true).
  { intros c w c' verb x Hph Hc' Hx.
    destruct (cp_occurrence_first ph r c w Hph) as (a & s' & Ha & Hv).
    destruct (cp_phrase_token_first c' verb _ x Hc' Hx) as (a' & s'' & Ha' & Hv').
    rewrite Ha in Ha'. injection Ha' as <- _. eauto. }
  destruct (eq_ignorecase (of_string "track my order") ph) eqn:Hph1;
    [|destruct (eq_ignorecase (of_string "status of my order") ph) eqn:Hph2].
  - rewrite (Hspec (of_string "track") eq_refl Hph1). eauto.
  - destruct (phrase_token (of_string "track") (ph ++ r)) as [x|] eqn:H1.
    { destruct (Hapart 0x73%N (of_string "tatus of my order") 0x74%N
                  (of_string "rack") x Hph2 eq_refl H1) as (a & Hs & Ht).
      apply (proj1 (first_letters_apart a)) in Ht. destruct Ht as [Ht _].
      congruence. }
    rewrite (Hspec (of_string "status of") eq_refl Hph2). eauto.
  - simpl in Hin. rewrite Bool.orb_false_r in Hin.
    destruct (phrase_token (of_string "track") (ph ++ r)) as [x|] eqn:H1.
    { destruct (Hapart 0x77%N (of_string "here is my order") 0x74%N
                  (of_string "rack") x Hin eq_refl H1) as (a & Hw & Ht).
      apply (proj1 (first_letters_apart a)) in Ht. destruct Ht as [_ Ht].
      congruence. }
    destruct (phrase_token (of_string "status of") (ph ++ r)) as [x|] eqn:H2.
    { destruct (Hapart 0x77%N (of_string "here is my order") 0x73%N
                  (of_string "tatus of") x Hin eq_refl H2) as (a & Hw & Hs).
      apply (proj2 (first_letters_apart a)) in Hs. congruence. }
    rewrite (Hspec (of_string "where is") eq_refl Hin). eauto.
Qed.

(** *** [re.search] *)

Section Search.
Variable is_word : N -> bool.

Lemma cp_search_from_eq (r : regex) (pv : option N) (s : str) :
  search_from is_word r pv s
  = match match_at is_word r (Cursor pv s) with
    | Some g => Some g
    | None =>
        match s with
        | [] => None
        | c :: s' => search_from is_word r (Some c) s'
        end
    end.
Proof. destruct s; reflexivity. Qed.

(** The search fails exactly when the pattern matches at no position. *)
Lemma cp_search_from_None (r : regex) :
  forall (s : str) (pv : option N),
    search_from is_word r pv s = None <->
    forall pre post, s = pre ++ post ->
                     match_at is_word r (Cursor (last_of pv pre) post) = None.
Proof.
  induction s as [|c s IH]; intros pv; rewrite cp_search_from_eq.
  - split.
    + intros H pre post Heq. symmetry in Heq. apply app_eq_nil in Heq.
      destruct Heq as [-> ->].
      simpl. destruct (match_at is_word r (Cursor pv [])); congruence.
    + intros H. generalize (H [] [] eq_refl). simpl. now intros ->.
  - split.
    + intros H pre post Heq.
      destruct (match_at is_word r (Cursor pv (c :: s))) eqn:Hm; [discriminate|].
      destruct pre as [|x pre].
      * simpl in Heq. subst post. exact Hm.
      * simpl in Heq. injection Heq as <- ->.
        apply (IH (Some c)); [exact H | reflexivity].
    + intros H. generalize (H [] (c :: s) eq_refl). simpl. intros ->.
      apply IH.
      intros pre post ->. apply (H (c :: pre) post). reflexivity.
Qed.

(** The search returns the match at the first position that has one. *)
Lemma cp_search_from_Some (r : regex) :
  forall (s : str) (pv : option N) (g : groups),
    search_from is_word r pv s = Some g <->
    exists pre post,
      s = pre ++ post
      /\ match_at is_word r (Cursor (last_of pv pre) post) = Some g
      /\ forall pre' post',
           s = pre' ++ post' -> List.length pre' < List.length pre ->
           match_at is_word r (Cursor (last_of pv pre') post') = None.
Proof.
  induction s as [|c s IH]; intros pv g; rewrite cp_search_from_eq.
  - split.
    + intros H. exists [], []. split; [reflexivity|].
      destruct (match_at is_word r (Cursor pv [])) eqn:Hm; [|discriminate].
      split; [simpl; congruence|]. intros pre' post' _ Hlt. simpl in Hlt. lia.
    + intros (pre & post & Heq & Hm & _). symmetry in Heq. apply app_eq_nil in Heq.
      destruct Heq as [-> ->]. simpl in Hm. now rewrite Hm.
  - split.
    + intros H. destruct (match_at is_word r (Cursor pv (c :: s))) eqn:Hm.
      * exists [], (c :: s). split; [reflexivity|].
        split; [simpl; congruence|].
        intros pre' post' _ Hlt. simpl in Hlt. lia.
      * apply IH in H. destruct H as (pre & post & -> & Hg & Hfirst).
        exists (c :: pre), post. split; [reflexivity|]. split; [exact Hg|].
        intros pre' post' Heq Hlt. destruct pre' as [|x pre'].
        -- simpl in Heq. subst post'. exact Hm.
        -- simpl in Heq. injection Heq as <- Heq.
           apply (Hfirst pre' post' Heq). simpl in Hlt. lia.
    + intros (pre & post & Heq & Hg & Hfirst). destruct pre as [|x pre].
      * simpl in Heq. subst post. simpl in Hg. now rewrite Hg.
      * simpl in Heq. injection Heq as <- ->.
        assert (H0 : match_at is_word r (Cursor pv (c :: (pre ++ post))) = None).
        { apply (Hfirst [] (c :: (pre ++ post)) eq_refl). simpl. lia. }
        rewrite H0.
        apply IH. exists pre, post. split; [reflexivity|]. split; [exact Hg|].
        intros pre' post' Heq Hlt. apply (Hfirst (c :: pre') post').
        -- simpl. now rewrite Heq.
        -- simpl. lia.
Qed.

(** A match of the track-order pattern after [pre] is an occurrence. *)
Lemma cp_match_track_occurrence (pre s : str) (pv : option N) (g : groups) :
  match_at is_word track_order_re (Cursor pv s) = Some g ->
  exists ph ws tok post v,
    track_occurrence (pre ++ s) pre ph ws tok post /\ g = [(2, tok); (1, v)].
Proof.
  rewrite cp_match_at_track. destruct (track_at s) as [[v tok]|] eqn:Hs; [|discriminate].
  intros [= <-]. apply cp_track_at_sound in Hs. destruct Hs as (ph & r & -> & Hph & Htok).
  apply cp_token_at_spec in Htok. destruct Htok as (ws & post & -> & Hws & Hne & Ha & Hp).
  exists ph, ws, tok, post, v. split; [|reflexivity].
  unfold track_occurrence. repeat (split; [first [reflexivity | assumption]|]).
  assumption.
Qed.

(** An occurrence is a match of the pattern where the phrase begins. *)
Lemma cp_occurrence_match_track (q pre ph ws tok post : str) (pv : option N) :
  track_occurrence q pre ph ws tok post ->
  exists v,
    match_at is_word track_order_re (Cursor pv (ph ++ ws ++ tok ++ post))
    = Some [(2, tok); (1, v)].
Proof.
  intros (_ & Hph & Hws & Hne & Ha & Hp).
  assert (Htok : token_at (ws ++ tok ++ post) = Some tok).
  { apply cp_token_at_spec. exists ws, post.
    repeat (split; [first [reflexivity | assumption]|]). assumption. }
  destruct (cp_track_at_complete ph _ tok Hph Htok) as [v Hv].
  exists v. now rewrite cp_match_at_track, Hv.
Qed.

Lemma cp_search_track_first (q pre ph ws tok post : str) :
  first_track_occurrence q pre ph ws tok post ->
  exists v, search is_word track_order_re q = Some [(2, tok); (1, v)].
Proof.
  intros [Hocc Hfirst].
  destruct (cp_occurrence_match_track _ _ _ _ _ _ (last_of None pre) Hocc) as [v Hv].
  exists v. apply cp_search_from_Some.
  exists pre, (ph ++ ws ++ tok ++ post).
  split; [apply Hocc|]. split; [exact Hv|].
  intros pre' post' Heq Hlt.
  destruct (match_at is_word track_order_re (Cursor (last_of None pre') post'))
    as [g'|] eqn:Hm; [|reflexivity].
  apply (cp_match_track_occurrence pre') in Hm.
  destruct Hm as (ph' & ws' & tok' & post'' & v' & Hocc' & _).
  rewrite <- Heq in Hocc'. apply Hfirst in Hocc'. lia.
Qed.

Lemma cp_search_track_Some (q : str) (g : groups) :
  search is_word track_order_re q = Some g ->
  exists pre ph ws tok post v,
    first_track_occurrence q pre ph ws tok post /\ g = [(2, tok); (1, v)].
Proof.
  intros H. apply cp_search_from_Some in H.
  destruct H as (pre & s & -> & Hm & Hnone).
  destruct (cp_match_track_occurrence pre _ _ _ Hm)
    as (ph & ws & tok & post & v & Hocc & ->).
  exists pre, ph, ws, tok, post, v. split; [|reflexivity].
  split; [exact Hocc|].
  intros pre' ph' ws' tok' post' Hocc'.
  destruct (Nat.le_gt_cases (List.length pre) (List.length pre'))
    as [Hle | Hlt]; [exact Hle | exfalso].
  destruct (cp_occurrence_match_track _ _ _ _ _ _ (last_of None pre') Hocc')
    as [v' Hv'].
  rewrite (Hnone pre' _ (proj1 Hocc') Hlt) in Hv'. discriminate.
Qed.

Lemma cp_search_track_None (q : str) :
  search is_word track_order_re q = None <-> ~ has_track_occurrence q.
Proof.
  split.
  - intros H (pre & ph & ws & tok & post & Hocc).
    destruct (cp_occurrence_match_track _ _ _ _ _ _ (last_of None pre) Hocc) as [v Hv].
    unfold search in H.
    rewrite (proj1 (cp_search_from_None _ _ _) H pre _ (proj1 Hocc)) in Hv.
    discriminate.
  - intros Hno. destruct (search is_word track_order_re q) as [g|] eqn:H; [|reflexivity].
    exfalso. apply Hno. apply cp_search_track_Some in H.
    destruct H as (pre & ph & ws & tok & post & v & [Hocc _] & _).
    exists pre, ph, ws, tok, post. exact Hocc.
Qed.

End Search.

(** *** The recognizer *)

Section Recognizer.
Variable lower : str -> str.
Variable is_word : N -> bool.

Lemma cp_recognize_cases (q : str) :
  recognize_intent_and_extract_entities lower is_word q
  = match search is_word track_order_re q with
    | Some m => track_result (upper (default [] (group 2 m)))
    | None =>
        match search is_word greeting_re (lower q) with
        | Some _ =>
            {| IntentResult.intent := "greeting";
               IntentResult.entities := ∅;
               IntentResult.message := of_string greeting_message |}
        | None =>
            {| IntentResult.intent := "unknown";
               IntentResult.entities := ∅;
               IntentResult.message := of_string unknown_message |}
        end
    end.
Proof. reflexivity. Qed.

Lemma cp_recognize_first_occurrence (q pre ph ws tok post : str) :
  first_track_occurrence q pre ph ws tok post ->
  recognize_intent_and_extract_entities lower is_word q = track_result (upper tok).
Proof.
  intros H. apply (cp_search_track_first is_word) in H. destruct H as [v Hv].
  rewrite cp_recognize_cases, Hv. reflexivity.
Qed.

Lemma recognize_track_order (q : str) :
  IntentResult.intent (recognize_intent_and_extract_entities lower is_word q)
  = "track_order" ->
  exists pre ph ws tok post,
    first_track_occurrence q pre ph ws tok post
    /\ recognize_intent_and_extract_entities lower is_word q
       = track_result (upper tok).
Proof.
  rewrite cp_recognize_cases.
  destruct (search is_word track_order_re q) as [m|] eqn:Hs.
  - intros _. apply cp_search_track_Some in Hs.
    destruct Hs as (pre & ph & ws & tok & post & v & Hfirst & ->).
    exists pre, ph, ws, tok, post. split; [exact Hfirst | reflexivity].
  - destruct (search is_word greeting_re (lower q)); discriminate.
Qed.

Lemma cp_recognize_occurrence (q : str) :
  has_track_occurrence q ->
  exists pre ph ws tok post,
    first_track_occurrence q pre ph ws tok post
    /\ recognize_intent_and_extract_entities lower is_word q
       = track_result (upper tok).
Proof.
  intros H. destruct (search is_word track_order_re q) as [m|] eqn:Hs.
  - apply recognize_track_order. now rewrite cp_recognize_cases, Hs.
  - apply cp_search_track_None in Hs. contradiction.
Qed.

(** What [str.upper] receives is made of token characters, so that
    [upper_char] is its table. *)
Lemma track_token_chars (q : str) (m : groups) :
  search is_word track_order_re q = Some m ->
  exists tok,
    group 2 m = Some tok /\ tok <> [] /\ forallb is_token_char tok = true.
Proof.
  intros H. apply cp_search_track_Some in H.
  destruct H as (pre & ph & ws & tok & post & v & [Hocc _] & ->).
  exists tok. split; [reflexivity|]. split; apply Hocc.
Qed.

Lemma upper_token (tok : str) :
  forallb is_token_char tok = true ->
  forallb is_order_id_char (upper tok) = true.
Proof.
  induction tok as [|c tok IH]; simpl; [reflexivity|]. intros H.
  apply andb_prop in H. destruct H as [Hc H].
  now rewrite (upper_token_char c Hc), IH.
Qed.

End Recognizer.

End UnicodeFacts.

(** ** The track-order rule over all code points *)

Section TrackOrder.
Import Unicode UnicodeFacts.
(** [str.lower] and the class [\w]: what follows holds whatever they are. *)
Variable lower : Unicode.str -> Unicode.str.
Variable is_word : N -> bool.

(** C10, as the code has it.  The phrase is read as [re.IGNORECASE] reads
    it, which takes U+212A for k, U+017F for s and U+0130 and U+0131 for i;
    the token is the longest run of token characters, which are the ASCII
    letters and digits and these four code points.  Where a query holds
    such a phrase followed by optional white space and at least one token
    character, the recognizer answers [track_order]; the order id is the
    upper-cased token of the first such place, and the message names it.
    So "where is my order please" yields "PLEASE", "track my order ORD-123"
    yields "ORD", and "track my order ab" followed by U+017F yields
    "ABS". *)
Theorem track_order_entity :
  (forall q pre ph ws tok post,
     first_track_occurrence q pre ph ws tok post ->
     recognize_intent_and_extract_entities lower is_word q
     = {| IntentResult.intent := "track_order";
          IntentResult.entities := {[ "order_id" := upper tok ]};
          IntentResult.message :=
            of_string "Fetching status for order " ++ upper tok ++ of_string "..." |})
  /\ (forall q,
        has_track_occurrence q ->
        exists pre ph ws tok post,
          first_track_occurrence q pre ph ws tok post
          /\ IntentResult.intent (recognize_intent_and_extract_entities lower is_word q)
             = "track_order"
          /\ IntentResult.entities (recognize_intent_and_extract_entities lower is_word q)
             = {[ "order_id" := upper tok ]})
  /\ recognize_intent_and_extract_entities lower is_word
       (of_string "where is my order please")
     = {| IntentResult.intent := "track_order";
          IntentResult.entities := {[ "order_id" := of_string "PLEASE" ]};
          IntentResult.message := of_string "Fetching status for order PLEASE..." |}
  /\ recognize_intent_and_extract_entities lower is_word
       (of_string "track my order ORD-123")
     = {| IntentResult.intent := "track_order";
          IntentResult.entities := {[ "order_id" := of_string "ORD" ]};
          IntentResult.message := of_string "Fetching status for order ORD..." |}
  /\ recognize_intent_and_extract_entities lower is_word long_s_query
     = {| IntentResult.intent := "track_order";
          IntentResult.entities := {[ "order_id" := of_string "ABS" ]};
          IntentResult.message := of_string "Fetching status for order ABS..." |}.
Proof.
  split; [|split; [|split; [|split]]].
  - intros q pre ph ws tok post H.
    apply (cp_recognize_first_occurrence lower is_word q pre ph ws tok post H).
  - intros q H.
    destruct (cp_recognize_occurrence lower is_word q H)
      as (pre & ph & ws & tok & post & Hfirst & Hr).
    exists pre, ph, ws, tok, post. rewrite Hr. auto.
  - rewrite cp_recognize_cases. vm_compute. reflexivity.
  - rewrite cp_recognize_cases. vm_compute. reflexivity.
  - rewrite cp_recognize_cases. vm_compute. reflexivity.
Qed.

End TrackOrder.

Lemma track_order_entity_witness :
  Unicode.recognize_intent_and_extract_entities Unicode.ascii_lower Unicode.ascii_word
    Unicode.kelvin_query
  = {| Unicode.IntentResult.intent := "track_order";
       Unicode.IntentResult.entities := {[ "order_id" := Unicode.of_string "XI7" ]};
       Unicode.IntentResult.message :=
         Unicode.of_string "Fetching status for order XI7..." |}.
Proof.
  apply (proj1 (track_order_entity Unicode.ascii_lower Unicode.ascii_word)
           Unicode.kelvin_query []
           (Unicode.of_string "TRAC" ++ [0x212A%N] ++ Unicode.of_string " MY ORDER")
           [0x2003%N] [0x78; 0x131; 0x37]%N (Unicode.of_string "-7")).
  split.
  - unfold Unicode.track_occurrence.
    split; [reflexivity|]. split; [vm_compute; reflexivity|].
    split; [vm_compute; reflexivity|]. split; [discriminate|].
    split; vm_compute; reflexivity.
  - intros pre' ph' ws' tok' post' _. simpl. lia.
Defined.

(** C10 as stated fails.  In "track my order ab" followed by U+017F the
    phrase is followed by a blank and the ASCII letters ab, and the run of
    ASCII letters and digits ends there; yet the order id is "ABS", not
    "AB", because the set of the pattern takes U+017F under
    [re.IGNORECASE].  Nor is the token the run of all letters and digits:
    followed by U+00E9, a letter, the same query yields "AB".  The two
    parameters play no part, the track-order rule fires in both. *)
Lemma order_id_not_the_alphanumeric_run :
  Unicode.span Unicode.is_ascii_alnum (Unicode.of_string "ab" ++ [0x17F%N])
  = (Unicode.of_string "ab", [0x17F%N])
  /\ Unicode.upper (Unicode.of_string "ab") = Unicode.of_string "AB"
  /\ Unicode.IntentResult.entities
       (Unicode.recognize_intent_and_extract_entities Unicode.ascii_lower
          Unicode.ascii_word Unicode.long_s_query)
     = {[ "order_id" := Unicode.of_string "ABS" ]}
  /\ Unicode.IntentResult.entities
       (Unicode.recognize_intent_and_extract_entities Unicode.ascii_lower
          Unicode.ascii_word Unicode.long_s_query)
     <> {[ "order_id" := Unicode.of_string "AB" ]}
  /\ Unicode.IntentResult.entities
       (Unicode.recognize_intent_and_extract_entities Unicode.ascii_lower
          Unicode.ascii_word Unicode.e_acute_query)
     = {[ "order_id" := Unicode.of_string "AB" ]}.
Proof.
  split; [vm_compute; reflexivity|]. split; [vm_compute; reflexivity|].
  split; [vm_compute; reflexivity|].
  split; [|vm_compute; reflexivity].
  intros H. apply (f_equal (fun m => m !! "order_id")) in H.
  vm_compute in H. discriminate.
Qed.

(** Queries with the code points that [re.IGNORECASE] takes for letters
    and with white space beyond U+00FF. *)
Example recognize_dotted_capital_i :
  Unicode.IntentResult.entities
    (Unicode.recognize_intent_and_extract_entities Unicode.ascii_lower
       Unicode.ascii_word
       (Unicode.of_string "where " ++ [0x130%N] ++ Unicode.of_string "s my order "
        ++ [0x212A; 0x31]%N))
  = {[ "order_id" := [0x212A; 0x31]%N ]}.
Proof. vm_compute. reflexivity. Qed.

Example recognize_long_s_phrase :
  Unicode.IntentResult.entities
    (Unicode.recognize_intent_and_extract_entities Unicode.ascii_lower
       Unicode.ascii_word
       ([0x17F%N] ++ Unicode.of_string "tatu" ++ [0x17F%N]
        ++ Unicode.of_string " of my order" ++ [0x205F; 0x3000; 0x130; 0x131]%N))
  = {[ "order_id" := [0x130; 0x49]%N ]}.
Proof. vm_compute. reflexivity. Qed.

(** ** Facts: the FAQ matcher *)

Section FaqMatcher.
Variable ql : string.


Lemma keyword_score_acc (kws : list string) (acc : nat) :
  fold_left
    (fun current_score keyword =>
       if Str.contains ql keyword then current_score + 1 else current_score)
    kws acc
  = acc + List.length (List.filter (Str.contains ql) kws).
Proof.
  revert acc. induction kws as [|kw kws IH]; intros acc; simpl.
  - lia.
  - rewrite IH. destruct (Str.contains ql kw); simpl; lia.
Qed.

(** The inner loop counts the keywords found in the query. *)
Lemma keyword_score_count (kws : list string) :
  keyword_score ql kws = List.length (List.filter (Str.contains ql) kws).
Proof. unfold keyword_score. now rewrite keyword_score_acc. Qed.

Lemma faq_loop_body_eq (best : nat) (bid : option string) (e : string * FaqItem.t) :
  faq_loop_body ql (best, bid) e
  = if best <? entry_score ql e then (entry_score ql e, Some e.1) else (best, bid).
Proof. reflexivity. Qed.

(** The outer loop, from any [(best_match_score, best_faq_id)]: either no
    entry beats the score held and the pair is unchanged, or the pair holds
    the first entry of the greatest score. *)
Lemma faq_loop_spec (db : list (string * FaqItem.t)) :
  forall (best : nat) (bid : option string),
    (fold_left (faq_loop_body ql) db (best, bid) = (best, bid)
     /\ Forall (fun e => entry_score ql e <= best) db)
    \/ (exists l1 faq_id item l2,
          db = l1 ++ (faq_id, item) :: l2
          /\ fold_left (faq_loop_body ql) db (best, bid) = (entry_score ql (faq_id, item), Some faq_id)
          /\ best < entry_score ql (faq_id, item)
          /\ Forall (fun e => entry_score ql e < entry_score ql (faq_id, item)) l1
          /\ Forall (fun e => entry_score ql e <= entry_score ql (faq_id, item)) l2).
Proof.
  induction db as [|e db IH]; intros best bid.
  - left. split; [reflexivity | constructor].
  - cbn [fold_left]. rewrite faq_loop_body_eq.
    destruct (Nat.ltb_spec best (entry_score ql e)) as [Hlt | Hge].
    + destruct (IH (entry_score ql e) (Some e.1)) as [[Heq Hall] | (l1 & i & it & l2 & -> & Heq & Hb & H1 & H2)].
      * right. exists [], e.1, e.2, db. destruct e as [k v]. cbn [fst snd] in *.
        repeat split; try assumption. constructor.
      * right. exists (e :: l1), i, it, l2.
        repeat split; try assumption; try lia. constructor; assumption.
    + destruct (IH best bid) as [[Heq Hall] | (l1 & i & it & l2 & -> & Heq & Hb & H1 & H2)].
      * left. split; [assumption|]. constructor; assumption.
      * right. exists (e :: l1), i, it, l2.
        repeat split; try assumption. constructor; [lia | assumption].
Qed.

End FaqMatcher.

Lemma dict_get_middle {V : Type} (l1 : list (string * V)) (key : string) (v : V)
    (l2 : list (string * V)) :
  ~ In key (List.map fst l1) ->
  dict_get (l1 ++ (key, v) :: l2) key = Some v.
Proof.
  induction l1 as [|[k x] l1 IH]; intros Hnot; simpl.
  - now rewrite String.eqb_refl.
  - destruct (String.eqb_spec k key) as [-> | Hne].
    + exfalso. apply Hnot. left. reflexivity.
    + apply IH. intros H. apply Hnot. right. exact H.
Qed.

(** The key the loop ends on is a key of the dictionary, so the subscript
    does not fail; with keys that are not empty the matcher returns the
    first entry of the greatest score when that score is at least 1, and
    [None] when every score is 0. *)
Lemma faq_loop_key (db : list (string * FaqItem.t)) (q : string) :
  List.NoDup (List.map fst db) ->
  Forall (fun e => e.1 <> "") db ->
  match find_faq_answer db q with
  | Some item =>
      exists l1 faq_id l2,
        db = l1 ++ (faq_id, item) :: l2
        /\ 1 <= faq_score q item
        /\ Forall (fun e => faq_score q e.2 < faq_score q item) l1
        /\ Forall (fun e => faq_score q e.2 <= faq_score q item) l2
  | None => Forall (fun e => faq_score q e.2 = 0) db
  end.
Proof.
  intros Hnodup Hkeys. unfold find_faq_answer, faq_score.
  destruct (faq_loop_spec (Str.lower q) db 0 None)
    as [[Heq Hall] | (l1 & i & it & l2 & Hdb & Heq & Hb & H1 & H2)]; rewrite Heq.
  - eapply Forall_impl; [exact Hall|]. intros e He. cbv beta in He.
    unfold entry_score in He. rewrite keyword_score_count in He. lia.
  - unfold entry_score in *. cbn [snd] in *. rewrite keyword_score_count in *.
    assert (Hi : truthy i = true).
    { rewrite Forall_forall in Hkeys. unfold truthy.
      destruct (String.eqb_spec i "") as [-> | Hne]; [|reflexivity].
      exfalso. apply (Hkeys ("", it)); [|reflexivity].
      rewrite Hdb. set_solver. }
    rewrite Hi. destruct (Nat.ltb_spec 0 (List.length
                  (List.filter (Str.contains (Str.lower q)) (FaqItem.keywords it))))
      as [Hpos | Hzero]; [|lia].
    cbn [andb].
    assert (Hget : dict_get db i = Some it).
    { rewrite Hdb. apply dict_get_middle.
      rewrite Hdb, List.map_app in Hnodup. cbn [List.map fst] in Hnodup.
      apply List.NoDup_remove_2 in Hnodup. intros Hin. apply Hnodup.
      apply in_or_app. left. exact Hin. }
    rewrite Hget. exists l1, i, l2. repeat split; try assumption.
    + eapply Forall_impl; [exact H1|]. intros e He. cbv beta in He.
      now rewrite keyword_score_count in He.
    + eapply Forall_impl; [exact H2|]. intros e He. cbv beta in He.
      now rewrite keyword_score_count in He.
Qed.

Lemma faq_database_keys :
  List.NoDup (List.map fst faq_database) /\ Forall (fun e => e.1 <> "") faq_database.
Proof.
  split.
  - unfold faq_database. cbn [List.map fst].
    repeat (constructor; [cbn [In]; intros H; decompose [or] H; discriminate || contradiction|]).
    constructor.
  - unfold faq_database. repeat constructor; discriminate.
Qed.

Lemma get_faq_response (q : string) (st : state) :
  get_faq {| FAQQuery.query := q |} st
  = (Ok 200 (faq_response (find_faq_answer (faq_db st) q)), st).
Proof.
  unfold get_faq. cbn [FAQQuery.query].
  destruct (find_faq_answer (faq_db st) q); reflexivity.
Qed.

(** C1, as the code has it: the matcher lower-cases the query and scores
    an entry by the number of its keywords that occur in it; it returns the
    first entry, in declaration order, of the greatest score when that
    score is at least 1, and nothing when every score is 0.  The handler
    answers with that entry's question and answer, or with the fallback and
    no matched question.  The endpoint calls the handler for a query of at
    least 3 characters and answers 422 for a shorter one. *)
Theorem faq_matching (q : string) (tickets : gmap string Ticket.t) :
  let st := {| faq_db := faq_database; support_tickets_db := tickets |} in
  (forall item kw,
     keyword_score (Str.lower q) (FaqItem.keywords item) = faq_score q item
     /\ (Str.contains (Str.lower q) kw = true <-> is_substring kw (Str.lower q)))
  /\ match find_faq_answer faq_database q with
     | Some item =>
         exists l1 faq_id l2,
           faq_database = l1 ++ (faq_id, item) :: l2
           /\ 1 <= faq_score q item
           /\ Forall (fun e => faq_score q e.2 < faq_score q item) l1
           /\ Forall (fun e => faq_score q e.2 <= faq_score q item) l2
     | None => Forall (fun e => faq_score q e.2 = 0) faq_database
     end
  /\ get_faq {| FAQQuery.query := q |} st
     = (Ok 200
          match find_faq_answer faq_database q with
          | Some item =>
              {| FAQResponse.matched_question := Some (FaqItem.question item);
                 FAQResponse.answer := FaqItem.answer item |}
          | None =>
              {| FAQResponse.matched_question := None;
                 FAQResponse.answer :=
                   "I'm sorry, I couldn't find an answer related to your query. Please try rephrasing or check our full FAQ page." |}
          end, st)
  /\ (forall body, body !! "query" = Some q ->
        post_support_faq body st
        = if 3 <=? String.length q
          then get_faq {| FAQQuery.query := q |} st
          else (RequestValidationError, st)).
Proof.
  intros st. split; [|split; [|split]].
  - intros item kw. split; [apply keyword_score_count | apply StrFacts.contains_spec].
  - apply faq_loop_key; apply faq_database_keys.
  - apply get_faq_response.
  - intros body Hq. unfold post_support_faq, validate_FAQQuery. rewrite Hq.
    destruct (3 <=? String.length q); reflexivity.
Qed.

(** C1 as stated fails: for the two-character query "hi" no entry scores,
    and the endpoint answers 422 instead of the fallback. *)
Lemma short_query_rejected :
  Forall (fun e => faq_score "hi" e.2 = 0) faq_database
  /\ find_faq_answer faq_database "hi" = None
  /\ (post_support_faq {[ "query" := "hi" ]} initial_state).1
     = RequestValidationError
  /\ (post_support_faq {[ "query" := "hi" ]} initial_state).1
     <> Ok 200 {| FAQResponse.matched_question := None;
                  FAQResponse.answer := fallback_answer |}.
Proof.
  split; [repeat constructor|]. split; [vm_compute; reflexivity|].
  split; [vm_compute; reflexivity|]. vm_compute. discriminate.
Qed.

Example faq_forgot_password :
  post_support_faq {[ "query" := "I forgot my password" ]} initial_state
  = (Ok 200 {| FAQResponse.matched_question := Some "How do I reset my password?";
               FAQResponse.answer := "You can reset your password by visiting the 'Account Settings' page and clicking on 'Forgot Password'. An email will be sent to you with instructions." |},
     initial_state).
Proof. vm_compute. reflexivity. Qed.

(** "reset" and "refund" score 1 each for two entries: the first one
    declared is kept. *)
Example faq_tie_keeps_first :
  faq_score "reset or refund" <$> (snd <$> faq_database) = [1; 0; 1; 0]
  /\ FaqItem.question <$> find_faq_answer faq_database "reset or refund"
     = Some "How do I reset my password?".
Proof. vm_compute. split; reflexivity. Qed.

Example faq_no_keyword :
  post_support_faq {[ "query" := "asdkjasd" ]} initial_state
  = (Ok 200 {| FAQResponse.matched_question := None;
               FAQResponse.answer := fallback_answer |}, initial_state).
Proof. vm_compute. reflexivity. Qed.

(** ** The claims on concrete inputs *)

Lemma faq_matching_witness :
  post_support_faq {[ "query" := "I forgot my password" ]} initial_state
  = if 3 <=? String.length "I forgot my password"
    then get_faq {| FAQQuery.query := "I forgot my password" |} initial_state
    else (RequestValidationError, initial_state).
Proof.
  apply (proj2 (proj2 (proj2 (faq_matching "I forgot my password" ∅)))).
  vm_compute. reflexivity.
Defined.

Lemma ticket_lookup_witness :
  get_ticket_status "0b8e7a52-5f0c-4c1e-9a55-0d5f5a3c9e01" sample_state
  = (Ok 200 {| TicketResponse.ticket_id := "0b8e7a52-5f0c-4c1e-9a55-0d5f5a3c9e01";
               TicketResponse.user_email := "user@example.com";
               TicketResponse.issue_description :=
                 "My order is late and I'm very unhappy!";
               TicketResponse.status := "submitted";
               TicketResponse.sentiment := "negative";
               TicketResponse.timestamp := "2024-05-01T10:00:00.000001Z" |},
     sample_state)
  /\ (get_ticket_status "7c1d2f90-3a4b-4d6e-8f11-2b3c4d5e6f02" sample_state).1
     = HTTPException 404 "Ticket not found".
Proof.
  split.
  - apply (proj1 (ticket_lookup "0b8e7a52-5f0c-4c1e-9a55-0d5f5a3c9e01" sample_state)
             sample_ticket).
    vm_compute. reflexivity.
  - apply (proj1 (proj2 (ticket_lookup "7c1d2f90-3a4b-4d6e-8f11-2b3c4d5e6f02"
                           sample_state))).
    vm_compute. reflexivity.
Defined.

Lemma action_post_processing_witness :
  exists order_id,
    IntentResult.entities
      (recognize_intent_and_extract_entities "Track my order ORD12345")
    = {[ "order_id" := order_id ]}
    /\ perform_action {| ActionQuery.query := "Track my order ORD12345" |} initial_state
       = (Ok 200 {| ActionResponse.intent := "track_order";
                    ActionResponse.entities := {[ "order_id" := order_id ]};
                    ActionResponse.message :=
                      "Mocked: Order " +:+ order_id
                      +:+ " is currently out for delivery. Estimated arrival: Tomorrow." |},
          initial_state)
    /\ is_substring order_id (mocked_message order_id)
    /\ is_substring "Tomorrow" (mocked_message order_id)
    /\ mocked_message order_id
       <> IntentResult.message
            (recognize_intent_and_extract_entities "Track my order ORD12345").
Proof.
  apply (proj1 (action_post_processing "Track my order ORD12345" initial_state)).
  vm_compute. reflexivity.
Defined.

Lemma get_sentiment_thresholds_witness :
  get_sentiment (fun _ => 0.5%float) "This is excellent and wonderful" = "positive".
Proof.
  apply (proj1 (get_sentiment_thresholds (fun _ => 0.5%float)
                  "This is excellent and wonderful")).
  vm_compute. reflexivity.
Defined.


(** ** Further facts: the ticket store along any run *)

Section TicketStore.
Variable polarity : string -> float.

Lemma get_sentiment_label (text : string) :
  In (get_sentiment polarity text) sentiment_labels.
Proof.
  rewrite get_sentiment_cases. cbv zeta. unfold sentiment_labels.
  destruct (PrimFloat.ltb polarity_threshold (polarity text)); [now left|].
  destruct (PrimFloat.ltb (polarity text) (PrimFloat.opp polarity_threshold));
    simpl; auto.
Qed.

Lemma ticket_of_well_formed (req : request) (t : Ticket.t) :
  ticket_of polarity req = Some t -> well_formed_ticket (Ticket.ticket_id t) t.
Proof.
  destruct req as [body | uuid4 utcnow body | ticket_id | body]; simpl;
    try discriminate.
  destruct (validate_TicketInput body) as [ticket_input|] eqn:Hv; [|discriminate].
  intros [= <-]. apply validate_TicketInput_Some in Hv.
  unfold well_formed_ticket. simpl.
  split; [reflexivity|]. split; [reflexivity|].
  split; [apply get_sentiment_label|]. split; [apply Hv | eauto].
Qed.

(** X1: one request: only an accepted submission changes the state, and it
    changes the ticket store at the identifier drawn and nowhere else. *)
Theorem step_frame (st : state) (req : request) :
  step polarity st req
  = match ticket_of polarity req with
    | Some t =>
        {| faq_db := faq_db st;
           support_tickets_db :=
             <[Ticket.ticket_id t := t]> (support_tickets_db st) |}
    | None => st
    end
  /\ (is_accepted_submission req = false -> step polarity st req = st)
  /\ (forall ticket_id,
        (forall utcnow body, req <> PostTicket ticket_id utcnow body) ->
        support_tickets_db (step polarity st req) !! ticket_id
        = support_tickets_db st !! ticket_id).
Proof.
  assert (Heq : step polarity st req
                = match ticket_of polarity req with
                  | Some t =>
                      {| faq_db := faq_db st;
                         support_tickets_db :=
                           <[Ticket.ticket_id t := t]> (support_tickets_db st) |}
                  | None => st
                  end).
  { pose proof (step_store polarity st req) as Hs.
    pose proof (step_faq_db polarity st req) as Hf.
    destruct (step polarity st req) as [db tickets]. simpl in Hs, Hf.
    destruct (ticket_of polarity req) as [t|]; subst; [reflexivity|].
    now destruct st. }
  split; [exact Heq|]. split.
  - intros Hacc. rewrite Heq.
    destruct req as [body | uuid4 utcnow body | ticket_id | body]; try reflexivity.
    simpl in *. destruct (validate_TicketInput body); [discriminate | reflexivity].
  - intros ticket_id Hother. rewrite Heq.
    destruct (ticket_of polarity req) as [t|] eqn:Ht; [|reflexivity].
    destruct (ticket_of_id polarity _ _ Ht) as (utcnow & body & ->).
    simpl. apply lookup_insert_ne. intros <-. now apply (Hother utcnow body).
Qed.

(** X2: every record of the store, along any run and whatever the identifiers
    drawn, is filed under its own identifier, has status "submitted", one
    of the three sentiment labels, a description of at least 10 characters
    and a timestamp that ends in "Z". *)
Theorem stored_tickets_well_formed (reqs : list request) :
  map_Forall well_formed_ticket
    (support_tickets_db (exec polarity reqs initial_state)).
Proof.
  assert (H : forall st,
             map_Forall well_formed_ticket (support_tickets_db st) ->
             map_Forall well_formed_ticket
               (support_tickets_db (exec polarity reqs st))).
  { induction reqs as [|req reqs IH]; intros st Hst; [exact Hst|].
    apply IH. rewrite step_store.
    destruct (ticket_of polarity req) as [t|] eqn:Ht; [|exact Hst].
    apply map_Forall_insert_2; [|exact Hst].
    now apply ticket_of_well_formed with (req := req). }
  apply H. simpl. apply map_Forall_empty.
Qed.

(** X3: no request removes a ticket: the identifiers of the store before a run
    are identifiers of the store after it, even when the generator repeats
    an identifier. *)
Theorem tickets_never_removed (reqs : list request) (st : state) :
  dom (support_tickets_db st) ⊆ dom (support_tickets_db (exec polarity reqs st)).
Proof.
  revert st. induction reqs as [|req reqs IH]; intros st; [reflexivity|].
  etransitivity; [|apply IH]. rewrite step_store.
  destruct (ticket_of polarity req) as [t|]; [|reflexivity].
  rewrite dom_insert_L. set_solver.
Qed.

(** X4: when the generator returns an identifier that is already a key, the
    submission is answered 201 like any other and its record replaces the
    one filed before: the lookup returns the new record and the store holds
    as many tickets as before. *)
Theorem repeated_identifier_overwrites
    (uuid4 utcnow : string) (body : gmap string string) (st : state)
    (old : Ticket.t) (ticket_input : TicketInput.t) :
  support_tickets_db st !! uuid4 = Some old ->
  validate_TicketInput body = Some ticket_input ->
  exists resp st',
    post_support_ticket polarity uuid4 utcnow body st = (Ok 201 resp, st')
    /\ get_support_tickets uuid4 st' = (Ok 200 resp, st')
    /\ TicketResponse.user_email resp = TicketInput.user_email ticket_input
    /\ TicketResponse.issue_description resp
       = TicketInput.issue_description ticket_input
    /\ TicketResponse.timestamp resp = utcnow +:+ "Z"
    /\ size (support_tickets_db st') = size (support_tickets_db st)
    /\ dom (support_tickets_db st') = dom (support_tickets_db st).
Proof.
  intros Hold Hvalid. unfold post_support_ticket. rewrite Hvalid.
  eexists _, _. split; [reflexivity|].
  unfold get_support_tickets, get_ticket_status. simpl.
  rewrite lookup_insert_eq. repeat split.
  - rewrite <- (insert_delete_eq (support_tickets_db st)).
    rewrite <- (insert_delete_id (support_tickets_db st) uuid4 old Hold) at 2.
    rewrite !map_size_insert_None by apply lookup_delete_eq. reflexivity.
  - rewrite dom_insert_L. apply elem_of_dom_2 in Hold. set_solver.
Qed.

(** X5: two submissions that draw different identifiers commute: the state
    after both does not depend on their order. *)
Theorem submissions_commute
    (uuid1 now1 : string) (body1 : gmap string string)
    (uuid2 now2 : string) (body2 : gmap string string) (st : state) :
  uuid1 <> uuid2 ->
  exec polarity [PostTicket uuid1 now1 body1; PostTicket uuid2 now2 body2] st
  = exec polarity [PostTicket uuid2 now2 body2; PostTicket uuid1 now1 body1] st.
Proof.
  intros Hne. unfold exec. simpl. unfold post_support_ticket.
  destruct (validate_TicketInput body1), (validate_TicketInput body2);
    try reflexivity.
  simpl. f_equal. apply insert_insert_ne. congruence.
Qed.

(** X6: among the bodies whose fields are strings, the endpoint answers 422
    exactly for those that lack a field or carry a description of fewer
    than 10 characters, and 201 for every other one: the email is not
    examined, an empty one is accepted. *)
Theorem ticket_acceptance (uuid4 utcnow : string) (st : state) :
  (forall body,
     (post_support_ticket polarity uuid4 utcnow body st).1 = RequestValidationError
     <-> body !! "user_email" = None
         \/ body !! "issue_description" = None
         \/ exists d, body !! "issue_description" = Some d /\ String.length d < 10)
  /\ (forall user_email issue_description,
        10 <= String.length issue_description ->
        exists resp,
          (post_support_ticket polarity uuid4 utcnow
             (ticket_body user_email issue_description) st).1 = Ok 201 resp
          /\ TicketResponse.user_email resp = user_email
          /\ TicketResponse.issue_description resp = issue_description).
Proof.
  split.
  - intros body. split.
    + unfold post_support_ticket, validate_TicketInput.
      destruct (body !! "user_email") as [e|]; [|auto].
      destruct (body !! "issue_description") as [d|]; [|auto].
      destruct (Nat.leb_spec 10 (String.length d)); [discriminate|].
      intros _. right. right. eauto.
    + intros H. unfold post_support_ticket.
      destruct (validate_TicketInput body) as [ticket_input|] eqn:Hv;
        [exfalso | reflexivity].
      apply validate_TicketInput_Some in Hv. destruct Hv as (He & Hd & Hlen).
      destruct H as [H | [H | (d & H & Hshort)]]; try congruence.
      assert (d = TicketInput.issue_description ticket_input) by congruence.
      subst d. lia.
  - intros e d Hlen. unfold post_support_ticket, validate_TicketInput, ticket_body.
    rewrite lookup_insert_eq, lookup_insert_ne, lookup_singleton_eq by discriminate.
    destruct (Nat.leb_spec 10 (String.length d)); [|lia].
    eexists. simpl. repeat split.
Qed.

Lemma accepted_ticket_of (req : request) :
  is_accepted_submission req
  = match ticket_of polarity req with
    | Some _ => true
    | None => false
    end.
Proof.
  destruct req as [body | uuid4 utcnow body | ticket_id | body]; try reflexivity.
  simpl. destruct (validate_TicketInput body); reflexivity.
Qed.

Lemma ticket_count_from (reqs : list request) :
  forall st,
    size (support_tickets_db (exec polarity reqs st))
    <= size (support_tickets_db st)
       + List.length (List.filter is_accepted_submission reqs)
    /\ (fresh_identifiers polarity reqs st ->
        size (support_tickets_db (exec polarity reqs st))
        = size (support_tickets_db st)
          + List.length (List.filter is_accepted_submission reqs)).
Proof.
  induction reqs as [|req reqs IH]; intros st.
  - simpl. split; [lia | intros _; lia].
  - change (exec polarity (req :: reqs) st)
      with (exec polarity reqs (step polarity st req)).
    destruct (IH (step polarity st req)) as [Hle Heq].
    cbn [List.filter]. rewrite accepted_ticket_of.
    rewrite step_store in Hle, Heq.
    destruct (ticket_of polarity req) as [t|] eqn:Ht.
    + cbn [List.length].
      destruct (support_tickets_db st !! Ticket.ticket_id t) as [old|] eqn:Hold.
      * split.
        -- assert (Hsz : size (<[Ticket.ticket_id t := t]> (support_tickets_db st))
                         = size (support_tickets_db st)).
           { rewrite <- (insert_delete_eq (support_tickets_db st)).
             rewrite <- (insert_delete_id (support_tickets_db st) _ old Hold) at 2.
             rewrite !map_size_insert_None by apply lookup_delete_eq. reflexivity. }
           rewrite Hsz in Hle. lia.
        -- intros [Hnew _]. destruct (ticket_of_id polarity _ _ Ht) as (u & b & ->).
           simpl in Hnew. congruence.
      * rewrite (map_size_insert_None _ _ _ Hold) in Hle, Heq.
        split; [lia|]. intros [_ Hfresh]. rewrite (Heq Hfresh). lia.
    + split; [exact Hle|]. intros [_ Hfresh]. exact (Heq Hfresh).
Qed.

(** X7: the store never holds more tickets than submissions were accepted, and
    along a run in which each identifier drawn is new it holds exactly one
    ticket for each accepted submission. *)
Theorem ticket_count (reqs : list request) :
  size (support_tickets_db (exec polarity reqs initial_state))
  <= List.length (List.filter is_accepted_submission reqs)
  /\ (fresh_identifiers polarity reqs initial_state ->
      size (support_tickets_db (exec polarity reqs initial_state))
      = List.length (List.filter is_accepted_submission reqs)).
Proof.
  destruct (ticket_count_from reqs initial_state) as [Hle Heq].
  simpl support_tickets_db in Hle, Heq at 2. rewrite map_size_empty in *.
  split; [lia|]. intros H. rewrite (Heq H). lia.
Qed.

End TicketStore.

(** ** Further facts: the ticket store on the sample requests *)

Lemma repeated_identifier_overwrites_witness :
  exists resp st',
    post_support_ticket sample_polarity "id-1" "2024-05-01T10:00:09" sample_body
      (exec sample_polarity [PostTicket "id-1" "2024-05-01T10:00:00" sample_body]
         initial_state)
    = (Ok 201 resp, st')
    /\ get_support_tickets "id-1" st' = (Ok 200 resp, st')
    /\ TicketResponse.user_email resp = TicketInput.user_email sample_input
    /\ TicketResponse.issue_description resp
       = TicketInput.issue_description sample_input
    /\ TicketResponse.timestamp resp = "2024-05-01T10:00:09" +:+ "Z"
    /\ size (support_tickets_db st')
       = size (support_tickets_db
                 (exec sample_polarity
                    [PostTicket "id-1" "2024-05-01T10:00:00" sample_body]
                    initial_state))
    /\ dom (support_tickets_db st')
       = dom (support_tickets_db
                (exec sample_polarity
                   [PostTicket "id-1" "2024-05-01T10:00:00" sample_body]
                   initial_state)).
Proof.
  eapply (repeated_identifier_overwrites sample_polarity "id-1" _ sample_body _ _
            sample_input).
  - vm_compute. reflexivity.
  - vm_compute. reflexivity.
Defined.

Lemma submissions_commute_witness :
  exec sample_polarity
    [PostTicket "id-1" "2024-05-01T10:00:00" sample_body;
     PostTicket "id-2" "2024-05-01T10:00:07" sample_body] initial_state
  = exec sample_polarity
      [PostTicket "id-2" "2024-05-01T10:00:07" sample_body;
       PostTicket "id-1" "2024-05-01T10:00:00" sample_body] initial_state.
Proof.
  apply (submissions_commute sample_polarity). discriminate.
Defined.

Lemma ticket_count_witness :
  size (support_tickets_db (exec sample_polarity sample_run initial_state))
  = List.length (List.filter is_accepted_submission sample_run).
Proof.
  apply (proj2 (ticket_count sample_polarity sample_run)).
  vm_compute. repeat split.
Defined.

Lemma step_frame_witness :
  step sample_polarity initial_state (PostAction {[ "query" := "hello there" ]})
  = initial_state.
Proof.
  apply (proj1 (proj2 (step_frame sample_polarity initial_state
                         (PostAction {[ "query" := "hello there" ]})))).
  reflexivity.
Defined.

Lemma ticket_acceptance_witness :
  exists resp,
    (post_support_ticket sample_polarity "id-1" "2024-05-01T10:00:00"
       (ticket_body "" "no email given") initial_state).1 = Ok 201 resp
    /\ TicketResponse.user_email resp = ""
    /\ TicketResponse.issue_description resp = "no email given".
Proof.
  apply (proj2 (ticket_acceptance sample_polarity "id-1" "2024-05-01T10:00:00"
                  initial_state)).
  simpl. lia.
Defined.

(** ** Further facts: the FAQ matcher *)

Lemma lower_idem (s : string) : Str.lower (Str.lower s) = Str.lower s.
Proof.
  unfold Str.lower. induction s as [|c s IH]; simpl; [reflexivity|].
  now rewrite CharsFacts.lower_char_idem, IH.
Qed.

Lemma dict_get_In {V : Type} (d : list (string * V)) (key : string) (v : V) :
  dict_get d key = Some v -> In (key, v) d.
Proof.
  induction d as [|[k x] d IH]; simpl; [discriminate|].
  destruct (String.eqb_spec k key) as [-> | Hne].
  - intros [= ->]. now left.
  - intros H. right. now apply IH.
Qed.

(** What the matcher returns was found through a key that is not empty. *)
Lemma find_faq_answer_key (db : list (string * FaqItem.t)) (q : string)
    (item : FaqItem.t) :
  find_faq_answer db q = Some item ->
  exists faq_id, faq_id <> "" /\ dict_get db faq_id = Some item.
Proof.
  unfold find_faq_answer.
  destruct (fold_left (faq_loop_body (Str.lower q)) db (0, None)) as [best [i|]];
    [|discriminate].
  unfold truthy. destruct (String.eqb_spec i "") as [-> | Hne]; [discriminate|].
  cbn [negb andb]. destruct (0 <? best); [|discriminate].
  intros H. eauto.
Qed.


(** X9: the matcher and the handler do not see the case of the query: the
    query is lower-cased before the keywords are looked for, and
    lower-casing a second time changes nothing. *)
Theorem faq_case_insensitive (q : string) (st : state) :
  find_faq_answer (faq_db st) (Str.lower q) = find_faq_answer (faq_db st) q
  /\ get_faq {| FAQQuery.query := Str.lower q |} st
     = get_faq {| FAQQuery.query := q |} st.
Proof.
  assert (H : find_faq_answer (faq_db st) (Str.lower q)
              = find_faq_answer (faq_db st) q).
  { unfold find_faq_answer. now rewrite lower_idem. }
  split; [exact H|].
  unfold get_faq. cbn [FAQQuery.query]. now rewrite H.
Qed.

(** X10: when the keywords found in the query all belong to one entry, that
    entry is the answer, wherever it stands in the store. *)
Theorem faq_single_topic (db l1 l2 : list (string * FaqItem.t)) (q faq_id : string)
    (item : FaqItem.t) (tickets : gmap string Ticket.t) :
  List.NoDup (List.map fst db) ->
  Forall (fun e => e.1 <> "") db ->
  db = l1 ++ (faq_id, item) :: l2 ->
  1 <= faq_score q item ->
  Forall (fun e => faq_score q e.2 = 0) (l1 ++ l2) ->
  find_faq_answer db q = Some item
  /\ get_faq {| FAQQuery.query := q |}
       {| faq_db := db; support_tickets_db := tickets |}
     = (Ok 200 {| FAQResponse.matched_question := Some (FaqItem.question item);
                  FAQResponse.answer := FaqItem.answer item |},
        {| faq_db := db; support_tickets_db := tickets |}).
Proof.
  intros Hnodup Hkeys Hdb Hscore Hothers.
  assert (Hfind : find_faq_answer db q = Some item).
  { pose proof (faq_loop_key db q Hnodup Hkeys) as H.
    destruct (find_faq_answer db q) as [item'|].
    - destruct H as (l1' & i' & l2' & Hdb' & Hs' & _).
      assert (Hin : (i', item') ∈ l1 ++ (faq_id, item) :: l2).
      { rewrite <- Hdb, Hdb'. set_solver. }
      rewrite Forall_app, !Forall_forall in Hothers. destruct Hothers as [H1 H2].
      apply elem_of_app in Hin. destruct Hin as [Hin | Hin].
      + apply H1 in Hin. simpl in Hin. lia.
      + apply elem_of_cons in Hin. destruct Hin as [Hin | Hin].
        * now injection Hin as -> ->.
        * apply H2 in Hin. simpl in Hin. lia.
    - rewrite Forall_forall in H.
      assert (Hin : (faq_id, item) ∈ db) by (rewrite Hdb; set_solver).
      apply H in Hin. simpl in Hin. lia. }
  split; [exact Hfind|]. unfold get_faq. cbn [FAQQuery.query faq_db].
  now rewrite Hfind.
Qed.

(** X11: every answer of the handler is the fallback or the question and answer
    of an entry of the store, and the handler returns the state it got. *)
Theorem faq_answer_from_store (q : string) (st : state) :
  exists resp,
    get_faq {| FAQQuery.query := q |} st = (Ok 200 resp, st)
    /\ (resp = {| FAQResponse.matched_question := None;
                  FAQResponse.answer := fallback_answer |}
        \/ exists faq_id item,
             In (faq_id, item) (faq_db st)
             /\ faq_id <> ""
             /\ resp = {| FAQResponse.matched_question := Some (FaqItem.question item);
                          FAQResponse.answer := FaqItem.answer item |}).
Proof.
  unfold get_faq. cbn [FAQQuery.query].
  destruct (find_faq_answer (faq_db st) q) as [item|] eqn:Hfind.
  - eexists. split; [reflexivity|]. right.
    apply find_faq_answer_key in Hfind. destruct Hfind as (i & Hne & Hget).
    exists i, item. split; [now apply dict_get_In|]. split; [exact Hne | reflexivity].
  - eexists. split; [reflexivity|]. now left.
Qed.

(** Two places of one list at which an entry beats every entry before it
    and is beaten by none after it are the same place. *)
Lemma first_greatest_unique {A : Type} (f : A -> nat) (l1 l2 l1' l2' : list A)
    (x y : A) :
  l1 ++ x :: l2 = l1' ++ y :: l2' ->
  Forall (fun e => f e < f x) l1 -> Forall (fun e => f e <= f x) l2 ->
  Forall (fun e => f e < f y) l1' -> Forall (fun e => f e <= f y) l2' ->
  x = y.
Proof.
  intros Heq H1 H2 H1' H2'. rewrite !Forall_forall in *.
  pose proof (list_lookup_middle l1 l2 x (List.length l1) eq_refl) as Hx.
  pose proof (list_lookup_middle l1' l2' y (List.length l1') eq_refl) as Hy.
  rewrite Heq in Hx. rewrite <- Heq in Hy.
  destruct (Nat.lt_trichotomy (List.length l1) (List.length l1')) as [Hlt | [Hlen | Hgt]].
  - rewrite lookup_app_l in Hx by exact Hlt.
    rewrite lookup_app_r, lookup_cons_ne_0 in Hy by lia.
    apply list_elem_of_lookup_2 in Hx, Hy.
    apply H1' in Hx. apply H2 in Hy. lia.
  - rewrite Hlen, list_lookup_middle in Hx by reflexivity. congruence.
  - rewrite lookup_app_l in Hy by exact Hgt.
    rewrite lookup_app_r, lookup_cons_ne_0 in Hx by lia.
    apply list_elem_of_lookup_2 in Hx, Hy.
    apply H1 in Hy. apply H2' in Hx. lia.
Qed.

(** X12: an entry filed under the empty key is never the answer, in any
    store: the test [if best_faq_id and ...] takes the empty string for no
    match.  Whatever the matcher returns was fetched under a key that is
    not empty; and when the first entry of the greatest score is filed
    under the empty key the matcher returns nothing, whatever the other
    entries score.  Under any other key a lone entry is returned as soon as
    one keyword occurs. *)
Theorem faq_empty_key (db : list (string * FaqItem.t)) (q : string) :
  (forall item,
     find_faq_answer db q = Some item ->
     exists faq_id, faq_id <> "" /\ dict_get db faq_id = Some item)
  /\ (forall l1 item l2,
        db = l1 ++ ("", item) :: l2 ->
        Forall (fun e => faq_score q e.2 < faq_score q item) l1 ->
        Forall (fun e => faq_score q e.2 <= faq_score q item) l2 ->
        find_faq_answer db q = None)
  /\ (forall faq_id item,
        faq_id <> "" ->
        find_faq_answer [(faq_id, item)] q
        = if 0 <? faq_score q item then Some item else None).
Proof.
  split; [|split].
  - intros item. apply find_faq_answer_key.
  - intros l1 item l2 Hdb H1 H2. unfold find_faq_answer.
    destruct (faq_loop_spec (Str.lower q) db 0 None)
      as [[Heq _] | (l1' & i & it & l2' & Hdb' & Heq & _ & H1' & H2')];
      rewrite Heq; [reflexivity|].
    assert (Hsame : ("", item) = (i, it)).
    { apply (first_greatest_unique (entry_score (Str.lower q)) l1 l2 l1' l2').
      - now rewrite <- Hdb, <- Hdb'.
      - eapply Forall_impl; [exact H1|]. intros e He. cbv beta in He.
        unfold entry_score, faq_score in *. now rewrite !keyword_score_count.
      - eapply Forall_impl; [exact H2|]. intros e He. cbv beta in He.
        unfold entry_score, faq_score in *. now rewrite !keyword_score_count.
      - exact H1'.
      - exact H2'. }
    injection Hsame as <- <-. reflexivity.
  - intros faq_id item Hne.
    unfold find_faq_answer, faq_score. cbn [fold_left].
    unfold faq_loop_body. cbn [fst snd]. rewrite keyword_score_count.
    destruct (0 <? List.length _) eqn:Hpos; [|reflexivity].
    unfold truthy. destruct (String.eqb_spec faq_id "") as [-> | _]; [congruence|].
    rewrite Hpos. simpl. now rewrite String.eqb_refl.
Qed.

(** ** Further facts: the FAQ matcher on concrete queries *)


Lemma faq_single_topic_witness :
  find_faq_answer faq_database "Can I get a refund?"
  = Some {| FaqItem.keywords := ["return"; "refund"; "exchange"; "policy"];
            FaqItem.question := "What is your return policy?";
            FaqItem.answer := "You can return most new, unopened items within 30 days of delivery for a full refund. We'll also pay the return shipping costs if the return is a result of our error." |}
  /\ get_faq {| FAQQuery.query := "Can I get a refund?" |}
       {| faq_db := faq_database; support_tickets_db := ∅ |}
     = (Ok 200 {| FAQResponse.matched_question := Some "What is your return policy?";
                  FAQResponse.answer := "You can return most new, unopened items within 30 days of delivery for a full refund. We'll also pay the return shipping costs if the return is a result of our error." |},
        {| faq_db := faq_database; support_tickets_db := ∅ |}).
Proof.
  eapply (faq_single_topic faq_database (firstn 2 faq_database)
            (skipn 3 faq_database) _ "return_policy").
  - apply faq_database_keys.
  - apply faq_database_keys.
  - reflexivity.
  - vm_compute. lia.
  - vm_compute. repeat constructor.
Defined.

Lemma faq_empty_key_witness :
  find_faq_answer unnamed_entry_store "shipping cost" = None.
Proof.
  apply (proj1 (proj2 (faq_empty_key unnamed_entry_store "shipping cost"))
           (firstn 1 unnamed_entry_store)
           {| FaqItem.keywords := ["shipping"; "cost"];
              FaqItem.question := "What does shipping cost?";
              FaqItem.answer := "Shipping is free." |}
           []).
  - reflexivity.
  - vm_compute. repeat constructor.
  - constructor.
Defined.

(** ** Further facts: the intent recognizer *)

Module CaseFacts.
Import Chars CharsFacts StrFacts.

Lemma is_space_lower (c : ascii) : is_space (lower_char c) = is_space c.
Proof.
  apply Bool.eqb_prop. revert c. apply all_ascii_spec. vm_compute. reflexivity.
Qed.

Lemma is_alnum_lower (c : ascii) : is_ascii_alnum (lower_char c) = is_ascii_alnum c.
Proof.
  apply Bool.eqb_prop. revert c. apply all_ascii_spec. vm_compute. reflexivity.
Qed.

Lemma upper_lower_char (c : ascii) : upper_char (lower_char c) = upper_char c.
Proof.
  apply Ascii.eqb_eq. revert c. apply all_ascii_spec. vm_compute. reflexivity.
Qed.

Lemma alnum_upper (c : ascii) :
  is_ascii_alnum c = true -> class_AZ09 (upper_char c) = true.
Proof.
  assert (H : forall c, implb (is_ascii_alnum c) (class_AZ09 (upper_char c)) = true).
  { apply all_ascii_spec. vm_compute. reflexivity. }
  intros Hc. specialize (H c). now rewrite Hc in H.
Qed.

Lemma lower_is_letter (c : ascii) :
  is_ascii_lower (lower_char c) = is_ascii_letter c.
Proof.
  apply Bool.eqb_prop. revert c. apply all_ascii_spec. vm_compute. reflexivity.
Qed.

Lemma forallb_map (p : ascii -> bool) (f : ascii -> ascii) (s : string) :
  Str.forallb p (Str.map f s) = Str.forallb (fun c => p (f c)) s.
Proof. induction s as [|c s IH]; simpl; [reflexivity | now rewrite IH]. Qed.

Lemma map_eq_app (f : ascii -> ascii) (s a b : string) :
  Str.map f s = a +:+ b ->
  exists x y, s = x +:+ y /\ Str.map f x = a /\ Str.map f y = b.
Proof.
  revert s. induction a as [|c a IH]; intros s H.
  - exists "", s. auto.
  - destruct s as [|d s]; [rewrite app_cons in H; discriminate|].
    rewrite app_cons in H. simpl in H. injection H as Hc H.
    destruct (IH s H) as (x & y & -> & Hx & Hy).
    exists (String d x), y. rewrite app_cons. simpl. now rewrite Hc, Hx, Hy.
Qed.

Lemma upper_lower (s : string) : Str.upper (Str.lower s) = Str.upper s.
Proof.
  unfold Str.upper, Str.lower. induction s as [|c s IH]; simpl; [reflexivity|].
  now rewrite upper_lower_char, IH.
Qed.

Lemma stops_lower (s : string) :
  Str.stops is_ascii_alnum (Str.lower s) <-> Str.stops is_ascii_alnum s.
Proof.
  unfold Str.stops, Str.lower. rewrite head_map.
  destruct (Str.head s) as [c|]; simpl; [|tauto]. now rewrite is_alnum_lower.
Qed.

Lemma forallb_space_lower (s : string) :
  Str.forallb is_space (Str.lower s) = Str.forallb is_space s.
Proof.
  unfold Str.lower. rewrite forallb_map. apply forallb_ext. apply is_space_lower.
Qed.

Lemma forallb_alnum_lower (s : string) :
  Str.forallb is_ascii_alnum (Str.lower s) = Str.forallb is_ascii_alnum s.
Proof.
  unfold Str.lower. rewrite forallb_map. apply forallb_ext. apply is_alnum_lower.
Qed.

Lemma lower_nil (s : string) : Str.lower s = "" <-> s = "".
Proof. destruct s; split; intros H; try reflexivity; discriminate. Qed.

(** An occurrence in a query is an occurrence in its lower case. *)
Lemma occurrence_lower (q pre ph ws tok post : string) :
  track_occurrence q pre ph ws tok post ->
  track_occurrence (Str.lower q) (Str.lower pre) (Str.lower ph) (Str.lower ws)
    (Str.lower tok) (Str.lower post).
Proof.
  intros (-> & Hph & Hws & Hne & Htok & Hpost). unfold track_occurrence.
  split; [unfold Str.lower; now rewrite !map_app|].
  split; [now rewrite lower_idem|].
  split; [now rewrite forallb_space_lower|].
  split; [now rewrite lower_nil|].
  split; [now rewrite forallb_alnum_lower | now apply stops_lower].
Qed.

(** An occurrence in the lower case of a query comes from one in the
    query, part by part. *)
Lemma occurrence_unlower (q pre' ph' ws' tok' post' : string) :
  track_occurrence (Str.lower q) pre' ph' ws' tok' post' ->
  exists pre ph ws tok post,
    track_occurrence q pre ph ws tok post
    /\ Str.lower pre = pre' /\ Str.lower tok = tok'.
Proof.
  intros (Hq & Hph & Hws & Hne & Htok & Hpost).
  apply map_eq_app in Hq. destruct Hq as (pre & r1 & -> & Hpre & Hq).
  apply map_eq_app in Hq. destruct Hq as (ph & r2 & -> & Hph' & Hq).
  apply map_eq_app in Hq. destruct Hq as (ws & r3 & -> & Hws' & Hq).
  apply map_eq_app in Hq. destruct Hq as (tok & post & -> & Htok' & Hpost').
  fold (Str.lower pre) in Hpre. fold (Str.lower ph) in Hph'.
  fold (Str.lower ws) in Hws'. fold (Str.lower tok) in Htok'.
  fold (Str.lower post) in Hpost'. subst.
  exists pre, ph, ws, tok, post. split; [|auto].
  unfold track_occurrence. split; [reflexivity|].
  split; [now rewrite lower_idem in Hph|].
  split; [now rewrite forallb_space_lower in Hws|].
  split; [now rewrite lower_nil in Hne|].
  split; [now rewrite forallb_alnum_lower in Htok | now apply stops_lower].
Qed.

End CaseFacts.

Section RecognizerMore.
Import Re SearchFacts GreetingFacts CaseFacts.

(** X13: on a query of code points U+0000 .. U+00FF the recognizer does not
    see the case: lower-casing the query changes neither the intent nor
    the order id nor the message. *)
Theorem recognize_case_insensitive (q : string) :
  recognize_intent_and_extract_entities (Str.lower q)
  = recognize_intent_and_extract_entities q.
Proof.
  destruct (search track_order_re q) as [m|] eqn:Hs.
  - apply search_track_Some in Hs.
    destruct Hs as (pre & ph & ws & tok & post & v & [Hocc Hfirst] & _).
    rewrite (recognize_first_occurrence q pre ph ws tok post)
      by (split; assumption).
    rewrite (recognize_first_occurrence (Str.lower q) (Str.lower pre)
               (Str.lower ph) (Str.lower ws) (Str.lower tok) (Str.lower post)).
    + now rewrite upper_lower.
    + split; [now apply occurrence_lower|].
      intros pre' ph' ws' tok' post' Hocc'.
      apply occurrence_unlower in Hocc'.
      destruct Hocc' as (pre0 & ph0 & ws0 & tok0 & post0 & Hocc0 & <- & _).
      apply Hfirst in Hocc0. unfold Str.lower. now rewrite !StrFacts.length_map.
  - assert (Hno : search track_order_re (Str.lower q) = None).
    { apply search_track_None. intros (pre' & ph' & ws' & tok' & post' & Hocc').
      apply occurrence_unlower in Hocc'.
      destruct Hocc' as (pre0 & ph0 & ws0 & tok0 & post0 & Hocc0 & _).
      apply search_track_None in Hs. apply Hs. now exists pre0, ph0, ws0, tok0, post0. }
    rewrite !recognize_cases, Hs, Hno, lower_idem. reflexivity.
Qed.

Lemma pattern_words_first (w : string) :
  In w track_phrases \/ In w greeting_words ->
  exists c w', w = String c w' /\ Chars.is_ascii_lower c = true.
Proof.
  unfold track_phrases, greeting_words.
  intros [H | H]; simpl in H; decompose [or] H; subst; try contradiction;
    eexists _, _; split; reflexivity.
Qed.

Lemma letter_free_part (q pre w post : string) :
  Str.forallb (fun c => negb (is_ascii_letter c)) q = true ->
  q = pre +:+ w +:+ post ->
  In (Str.lower w) track_phrases \/ In (Str.lower w) greeting_words ->
  False.
Proof.
  intros Hq -> Hw. apply pattern_words_first in Hw.
  destruct Hw as (c & w' & Hw & Hc).
  apply ReFacts.lower_cons_inv in Hw. destruct Hw as (x & u & -> & <- & _).
  rewrite !StrFacts.forallb_app in Hq. simpl in Hq.
  rewrite lower_is_letter in Hc. rewrite Hc in Hq. simpl in Hq.
  now rewrite Bool.andb_false_r in Hq.
Qed.

(** X15: a query without any ASCII letter, the empty query among them, is
    answered [unknown]. *)
Theorem letter_free_query_unknown (q : string) :
  Str.forallb (fun c => negb (is_ascii_letter c)) q = true ->
  recognize_intent_and_extract_entities q = unknown_result.
Proof.
  intros Hq. rewrite recognize_cases.
  assert (Hno : search track_order_re q = None).
  { apply search_track_None. intros (pre & ph & ws & tok & post & Hocc).
    destruct Hocc as (Heq & Hph & _).
    apply (letter_free_part q pre ph (ws +:+ tok +:+ post) Hq Heq). now left. }
  rewrite Hno.
  destruct (search greeting_re (Str.lower q)) as [g|] eqn:Hg; [|reflexivity].
  exfalso. assert (Hs : search greeting_re (Str.lower q) <> None) by congruence.
  apply search_greeting in Hs. destruct Hs as (pre & w & post & Heq & Hw & _).
  apply (letter_free_part q pre w post Hq Heq). now right.
Qed.

End RecognizerMore.

Section OrderId.
Import Unicode UnicodeFacts.
Variable lower : Unicode.str -> Unicode.str.
Variable is_word : N -> bool.

(** X14: an extracted order id is never empty and is made of the letters
    A-Z, the digits, U+0130 and U+212A only. *)
Theorem order_id_shape (q : Unicode.str) :
  IntentResult.intent (recognize_intent_and_extract_entities lower is_word q)
  = "track_order" ->
  exists order_id,
    IntentResult.entities (recognize_intent_and_extract_entities lower is_word q)
    = {[ "order_id" := order_id ]}
    /\ order_id <> []
    /\ forallb is_order_id_char order_id = true.
Proof.
  intros H. apply recognize_track_order in H.
  destruct H as (pre & ph & ws & tok & post & [Hocc _] & ->).
  destruct Hocc as (_ & _ & _ & Hne & Htok & _).
  exists (upper tok). split; [reflexivity|]. split.
  - destruct tok; [congruence | discriminate].
  - now apply upper_token.
Qed.

End OrderId.

Lemma order_id_shape_witness :
  exists order_id,
    Unicode.IntentResult.entities
      (Unicode.recognize_intent_and_extract_entities Unicode.ascii_lower
         Unicode.ascii_word Unicode.kelvin_query)
    = {[ "order_id" := order_id ]}
    /\ order_id <> []
    /\ forallb Unicode.is_order_id_char order_id = true.
Proof.
  apply (order_id_shape Unicode.ascii_lower Unicode.ascii_word Unicode.kelvin_query).
  vm_compute. reflexivity.
Defined.

Lemma letter_free_query_unknown_witness :
  recognize_intent_and_extract_entities "12345 ?!" = unknown_result.
Proof.
  apply (letter_free_query_unknown "12345 ?!"). vm_compute. reflexivity.
Defined.

(** ** Further facts: the sentiment labels follow the polarity *)

Ltac order_cases :=
  repeat match goal with
         | |- context [Z.compare ?x ?y] => destruct (Z.compare_spec x y)
         | |- context [Pos.compare_cont Eq ?x ?y] =>
             change (Pos.compare_cont Eq x y) with (Pos.compare x y);
             destruct (Pos.compare_spec x y)
         end;
  simpl; intros; try congruence; try (exfalso; lia).

Lemma SFltb_leb_trans (a b c : spec_float) :
  SFltb a b = true -> SFleb b c = true -> SFltb a c = true.
Proof.
  unfold SFltb, SFleb, SFcompare.
  destruct a as [sa | sa | | sa ma ea], b as [sb | sb | | sb mb eb],
    c as [sc | sc | | sc mc ec];
    try destruct sa; try destruct sb; try destruct sc; simpl;
    try congruence; order_cases.
Qed.

Lemma SFleb_ltb_trans (a b c : spec_float) :
  SFleb a b = true -> SFltb b c = true -> SFltb a c = true.
Proof.
  unfold SFltb, SFleb, SFcompare.
  destruct a as [sa | sa | | sa ma ea], b as [sb | sb | | sb mb eb],
    c as [sc | sc | | sc mc ec];
    try destruct sa; try destruct sb; try destruct sc; simpl;
    try congruence; order_cases.
Qed.

(** X16: a text of greater or equal polarity never gets a lower label, in the
    order negative, neutral, positive. *)
Theorem sentiment_monotone (polarity : string -> float) (text1 text2 : string) :
  PrimFloat.leb (polarity text1) (polarity text2) = true ->
  sentiment_rank (get_sentiment polarity text1)
  <= sentiment_rank (get_sentiment polarity text2).
Proof.
  intros Hle. rewrite leb_spec in Hle. rewrite !get_sentiment_cases. cbv zeta.
  destruct (PrimFloat.ltb polarity_threshold (polarity text1)) eqn:Ha1.
  - rewrite ltb_spec in Ha1.
    pose proof (SFltb_leb_trans _ _ _ Ha1 Hle) as Ha2.
    rewrite <- ltb_spec in Ha2. rewrite Ha2. reflexivity.
  - destruct (PrimFloat.ltb (polarity text1) (PrimFloat.opp polarity_threshold))
      eqn:Hb1.
    + vm_compute. lia.
    + destruct (PrimFloat.ltb polarity_threshold (polarity text2));
        [vm_compute; lia|].
      destruct (PrimFloat.ltb (polarity text2) (PrimFloat.opp polarity_threshold))
        eqn:Hb2; [|reflexivity].
      rewrite ltb_spec in Hb2.
      pose proof (SFleb_ltb_trans _ _ _ Hle Hb2) as Hb1'.
      rewrite <- ltb_spec in Hb1'. congruence.
Qed.

Lemma sentiment_monotone_witness :
  sentiment_rank
    (get_sentiment (fun text => if String.eqb text "bad" then (-0.5)%float else 0.5%float)
       "bad")
  <= sentiment_rank
       (get_sentiment
          (fun text => if String.eqb text "bad" then (-0.5)%float else 0.5%float)
          "good").
Proof.
  apply (sentiment_monotone
           (fun text => if String.eqb text "bad" then (-0.5)%float else 0.5%float)).
  vm_compute. reflexivity.
Defined.

(** X17: a polarity that is not a number, for which [p == p] is false, is
    labelled neutral: both comparisons fail. *)
Theorem sentiment_of_nan (polarity : string -> float) (text : string) :
  PrimFloat.eqb (polarity text) (polarity text) = false ->
  get_sentiment polarity text = "neutral".
Proof.
  rewrite FloatAxioms.eqb_spec, get_sentiment_cases, !ltb_spec. cbv zeta.
  unfold SFeqb, SFltb, SFcompare.
  destruct (Prim2SF (polarity text)) as [s | s | | s m e].
  - discriminate.
  - destruct s; discriminate.
  - intros _. destruct (Prim2SF polarity_threshold); reflexivity.
  - destruct s; rewrite Z.compare_refl;
      change (Pos.compare_cont Eq m m) with (Pos.compare m m);
      rewrite Pos.compare_refl; discriminate.
Qed.

Lemma sentiment_of_nan_witness :
  get_sentiment (fun _ => PrimFloat.nan) "" = "neutral".
Proof.
  apply (sentiment_of_nan (fun _ => PrimFloat.nan) ""). vm_compute. reflexivity.
Defined.

(** ** Further facts: the two query endpoints *)

(** X18: the FAQ and the action endpoints return the state they got.  On a
    body whose query, when present, is a string, the FAQ endpoint answers
    422 exactly when the body has no query or one of fewer than 3
    characters; the action endpoint answers 422 exactly when the body has
    no query, and takes any query string, the empty one included. *)
Theorem query_endpoints_validation (body : gmap string string) (st : state) :
  (post_support_faq body st).2 = st
  /\ (post_support_action body st).2 = st
  /\ ((post_support_faq body st).1 = RequestValidationError
      <-> body !! "query" = None
          \/ exists q, body !! "query" = Some q /\ String.length q < 3)
  /\ ((post_support_action body st).1 = RequestValidationError
      <-> body !! "query" = None)
  /\ (forall q, body !! "query" = Some q ->
        exists resp,
          post_support_action body st = (Ok 200 resp, st)
          /\ ActionResponse.intent resp
             = IntentResult.intent (recognize_intent_and_extract_entities q)
          /\ ActionResponse.entities resp
             = IntentResult.entities (recognize_intent_and_extract_entities q)).
Proof.
  assert (Hfaq : post_support_faq body st
                 = match body !! "query" with
                   | Some q =>
                       if 3 <=? String.length q
                       then (Ok 200 (faq_response (find_faq_answer (faq_db st) q)), st)
                       else (RequestValidationError, st)
                   | None => (RequestValidationError, st)
                   end).
  { unfold post_support_faq, validate_FAQQuery.
    destruct (body !! "query") as [q|]; [|reflexivity].
    destruct (3 <=? String.length q); [apply get_faq_response | reflexivity]. }
  assert (Hact : post_support_action body st
                 = match body !! "query" with
                   | Some q => perform_action {| ActionQuery.query := q |} st
                   | None => (RequestValidationError, st)
                   end).
  { unfold post_support_action, validate_ActionQuery.
    destruct (body !! "query"); reflexivity. }
  assert (Hperf : forall q, exists resp,
             perform_action {| ActionQuery.query := q |} st = (Ok 200 resp, st)
             /\ ActionResponse.intent resp
                = IntentResult.intent (recognize_intent_and_extract_entities q)
             /\ ActionResponse.entities resp
                = IntentResult.entities (recognize_intent_and_extract_entities q)).
  { intros q. unfold perform_action. cbn [ActionQuery.query].
    eexists. split; [reflexivity|].
    destruct (String.eqb _ "track_order"); split; reflexivity. }
  rewrite Hfaq, Hact. destruct (body !! "query") as [q|].
  - destruct (Hperf q) as (resp & Hp & Hi & He). rewrite Hp.
    split; [destruct (3 <=? String.length q); reflexivity|].
    split; [reflexivity|]. split.
    + destruct (Nat.leb_spec 3 (String.length q)) as [Hle | Hlt]; cbn [fst]; split.
      * discriminate.
      * intros [H | (q' & H & Hq')]; [discriminate|].
        assert (q' = q) by congruence. subst q'. lia.
      * intros _. right. eauto.
      * reflexivity.
    + split; [split; discriminate|].
      intros q' H. assert (q' = q) by congruence. subst q'. eauto.
  - split; [reflexivity|]. split; [reflexivity|]. split; [split; auto|].
    split; [split; reflexivity|]. discriminate.
Qed.

Lemma query_endpoints_validation_witness :
  exists resp,
    post_support_action {[ "query" := "" ]} initial_state = (Ok 200 resp, initial_state)
    /\ ActionResponse.intent resp
       = IntentResult.intent (recognize_intent_and_extract_entities "")
    /\ ActionResponse.entities resp
       = IntentResult.entities (recognize_intent_and_extract_entities "").
Proof.
  apply (proj2 (proj2 (proj2 (proj2
           (query_endpoints_validation {[ "query" := "" ]} initial_state))))).
  vm_compute. reflexivity.
Defined.
